(** * video-stream-processor: chunker, checkpoint adapter, object-store
      adapter, file processor and stability detector

    A shallow embedding of the Go sources

      - [internal/chunker]     (ChunkFile),
      - [internal/redisstore]  (the Store adapter over a Redis client),
      - [internal/s3uploader]  (UploadChunk, UploadMetadata),
      - [internal/app]         (processFile, fileHash),
      - [internal/watcher]     (filterFile, checkStableFiles),

    together with the parts of the Go standard library they call
    (crypto/sha256, encoding/hex, strconv, fmt's %05d, path/filepath).

    The Go functions act on Redis, on the bucket and on the files of the
    watched directory; here they are functions on a [World] that holds
    the three, and every call that can fail takes its verdict from a
    fault plan of the world, so that any pattern of failing calls is a
    world. The files do not change during a run. Go's [int] is taken to
    be 64 bits wide. Logging is left out; of the metrics, the counters
    are kept. *)

From Stdlib Require Import ZArith List Lia Bool.
From Stdlib Require Import Strings.String Strings.Ascii Strings.Byte.
From stdpp Require Import gmap strings list.

Local Open Scope string_scope.
Local Open Scope list_scope.
Local Open Scope Z_scope.

(** ** Go values *)

(** A Go [[]byte] is a list of bytes, a Go [string] a [string]; [len] of
    either is an [int]. *)
Definition bytes := list byte.

Definition len {A} (l : list A) : Z := Z.of_nat (length l).

Definition byte_val (b : byte) : Z := Z.of_N (Byte.to_N b).

Definition byte_of (z : Z) : byte :=
  match Byte.of_N (Z.to_N (z mod 256)) with
  | Some b => b
  | None => x00
  end.

Definition bytes_of_string (s : string) : bytes := list_byte_of_string s.

(** Go's [int] and [int64] are 64-bit two's complement; arithmetic wraps. *)
Definition wrap64 (x : Z) : Z := (x + 2 ^ 63) mod 2 ^ 64 - 2 ^ 63.

Definition max_int64 : Z := 2 ^ 63 - 1.

(** The first [n] elements, for an [n] too large to count in unary. *)
Fixpoint take_upto {A} (n : Z) (l : list A) : list A :=
  match l with
  | [] => []
  | x :: l' => if n <=? 0 then [] else x :: take_upto (n - 1) l'
  end.

Fixpoint drop_upto {A} (n : Z) (l : list A) : list A :=
  match l with
  | [] => []
  | x :: l' => if n <=? 0 then l else drop_upto (n - 1) l'
  end.

(** ** encoding/hex *)
Module hex.

Definition hextable : string := "0123456789abcdef".

Definition digit (n : Z) : ascii :=
    match String.get (Z.to_nat n) hextable with
    | Some c => c
    | None => "0"%char
    end.

  (** [hex.EncodeToString]: two lowercase digits per byte, high nibble
      first. *)
Fixpoint EncodeToString (src : bytes) : string :=
    match src with
    | [] => ""
    | b :: rest =>
        String (digit (Z.shiftr (byte_val b) 4))
          (String (digit (Z.land (byte_val b) 15)) (EncodeToString rest))
    end.

End hex.

(** ** crypto/sha256 (FIPS 180-4) *)
Module sha256.

Definition w32 (x : Z) : Z := Z.land x 4294967295.

Definition add32 (x y : Z) : Z := w32 (x + y).

Definition rotr (n x : Z) : Z :=
    Z.lor (Z.shiftr x n) (w32 (Z.shiftl x (32 - n))).

Definition Ch (x y z : Z) : Z :=
    Z.lxor (Z.land x y) (Z.land (Z.lxor x 4294967295) z).

Definition Maj (x y z : Z) : Z :=
    Z.lxor (Z.lxor (Z.land x y) (Z.land x z)) (Z.land y z).

Definition Sigma0 (x : Z) : Z := Z.lxor (Z.lxor (rotr 2 x) (rotr 13 x)) (rotr 22 x).
Definition Sigma1 (x : Z) : Z := Z.lxor (Z.lxor (rotr 6 x) (rotr 11 x)) (rotr 25 x).
Definition sigma0 (x : Z) : Z := Z.lxor (Z.lxor (rotr 7 x) (rotr 18 x)) (Z.shiftr x 3).
Definition sigma1 (x : Z) : Z := Z.lxor (Z.lxor (rotr 17 x) (rotr 19 x)) (Z.shiftr x 10).

(** The first primes, by trial division. *)
Fixpoint no_divisor (fuel : nat) (d n : Z) : bool :=
  match fuel with
  | O => true
  | S fuel' =>
      if n <? d * d then true
      else if n mod d =? 0 then false
      else no_divisor fuel' (d + 1) n
  end.

Fixpoint primes_from (fuel count : nat) (n : Z) : list Z :=
  match fuel, count with
  | O, _ | _, O => []
  | S fuel', S count' =>
      if no_divisor (Z.to_nat n) 2 n then n :: primes_from fuel' count' (n + 1)
      else primes_from fuel' count (n + 1)
  end.

Definition primes (count : nat) : list Z := primes_from 400 count 2.

(** The integer cube root, one bit at a time from bit [bits - 1] down. *)
Fixpoint cube_root (bits : nat) (n r : Z) : Z :=
  match bits with
  | O => r
  | S b =>
      let r' := r + 2 ^ Z.of_nat b in
      if r' * r' * r' <=? n then cube_root b n r' else cube_root b n r
  end.

(** The round constants: the first 32 bits of the fractional parts of the
    cube roots of the first 64 primes. *)
Definition K : list Z :=
  map (fun p => w32 (cube_root 36 (p * 2 ^ 96) 0)) (primes 64).

(** The eight working words. *)
Record digest := Digest
  { ha : Z; hb : Z; hc : Z; hd : Z; he : Z; hf : Z; hg : Z; hh : Z }.

(** The initial hash value: the first 32 bits of the fractional parts of
    the square roots of the first 8 primes. *)
Definition init_word (i : nat) : Z :=
  w32 (Z.sqrt (nth i (primes 8) 0 * 2 ^ 64)).

Definition init : digest :=
  Digest (init_word 0) (init_word 1) (init_word 2) (init_word 3)
         (init_word 4) (init_word 5) (init_word 6) (init_word 7).

(** Big-endian 32-bit words of a block. *)
Fixpoint words (bs : list Z) : list Z :=
    match bs with
    | b0 :: b1 :: b2 :: b3 :: rest =>
        (Z.shiftl b0 24 + Z.shiftl b1 16 + Z.shiftl b2 8 + b3) :: words rest
    | _ => []
    end.

  (** The message schedule, most recent word first; [n] more words are
      appended to the sixteen of the block. *)
Fixpoint schedule (n : nat) (ws : list Z) : list Z :=
    match n with
    | O => ws
    | S n' =>
        let w := add32 (add32 (sigma1 (nth 1 ws 0)) (nth 6 ws 0))
                       (add32 (sigma0 (nth 14 ws 0)) (nth 15 ws 0)) in
        schedule n' (w :: ws)
    end.

Definition round (s : digest) (kw : Z * Z) : digest :=
    let t1 := add32 (add32 (add32 (hh s) (Sigma1 (he s)))
                           (add32 (Ch (he s) (hf s) (hg s)) (fst kw))) (snd kw) in
    let t2 := add32 (Sigma0 (ha s)) (Maj (ha s) (hb s) (hc s)) in
    Digest (add32 t1 t2) (ha s) (hb s) (hc s) (add32 (hd s) t1) (he s) (hf s) (hg s).

Definition compress (s : digest) (block : list Z) : digest :=
    let ws := rev (schedule 48 (rev (words block))) in
    let r := fold_left round (combine K ws) s in
    Digest (add32 (ha s) (ha r)) (add32 (hb s) (hb r)) (add32 (hc s) (hc r))
           (add32 (hd s) (hd r)) (add32 (he s) (he r)) (add32 (hf s) (hf r))
           (add32 (hg s) (hg r)) (add32 (hh s) (hh r)).

  (** Blocks of 64 bytes are consumed while there are any; [fuel] bounds
      the number of blocks. *)
Fixpoint blocks (fuel : nat) (s : digest) (bs : list Z) : digest :=
    match fuel with
    | O => s
    | S fuel' =>
        match bs with
        | [] => s
        | _ => blocks fuel' (compress s (firstn 64 bs)) (skipn 64 bs)
        end
    end.

Definition be_bytes (n : nat) (x : Z) : list Z :=
    map (fun i => Z.land (Z.shiftr x (8 * Z.of_nat i)) 255) (rev (seq 0 n)).

  (** Padding: 0x80, zeros up to 56 mod 64, then the bit length on 8 bytes. *)
Definition pad (msg : list Z) : list Z :=
    let n := len msg in
    let zeros := Z.to_nat ((55 - n) mod 64) in
    msg ++ 128 :: List.repeat 0 zeros ++ be_bytes 8 (8 * n).

Definition out (s : digest) : bytes :=
    map byte_of
      (concat (map (be_bytes 4)
         [ha s; hb s; hc s; hd s; he s; hf s; hg s; hh s])).

  (** [h.Write(data); h.Sum(nil)] and [sha256.Sum256(data)]. *)
Definition Sum256 (data : bytes) : bytes :=
    let padded := pad (map byte_val data) in
    out (blocks (S (length padded)) init padded).

End sha256.

(** ** strconv, fmt, strings, path/filepath *)
Module strconv.

Definition digit (n : Z) : ascii := ascii_of_nat (48 + Z.to_nat n).

  (** Decimal digits of a non-negative number, most significant first. *)
Fixpoint digits (fuel : nat) (n : Z) (acc : string) : string :=
    match fuel with
    | O => acc
    | S fuel' =>
        let acc' := String (digit (n mod 10)) acc in
        if n / 10 =? 0 then acc' else digits fuel' (n / 10) acc'
    end.

Definition FormatUint (n : Z) : string :=
    digits (S (Z.to_nat (Z.log2 n))) n EmptyString.

  (** [strconv.Itoa], which is also how the Redis client writes an [int]. *)
Definition Itoa (n : Z) : string :=
    if n <? 0 then String "-" (FormatUint (- n)) else FormatUint n.

(** The errors of [strconv.Atoi]. *)
Inductive NumError := ErrSyntax | ErrRange.

Definition is_digit (c : ascii) : bool :=
  let n := nat_of_ascii c in (48 <=? n)%nat && (n <=? 57)%nat.

Fixpoint all_digits (s : string) : bool :=
  match s with
  | EmptyString => true
  | String c s' => is_digit c && all_digits s'
  end.

(** The number that the digits of [s] write, after the digits of [n]. *)
Fixpoint value_from (n : Z) (s : string) : Z :=
  match s with
  | EmptyString => n
  | String c s' => value_from (n * 10 + (Z.of_nat (nat_of_ascii c) - 48)) s'
  end.

(** [strconv.Atoi]: an optional sign and decimal digits. A text that is
    not of this form gives 0 and a syntax error, a number outside int
    gives the nearest int and a range error. *)
Definition Atoi (s : string) : Z * option NumError :=
  let '(neg, body) :=
    match s with
    | String "-" rest => (true, rest)
    | String "+" rest => (false, rest)
    | _ => (false, s)
    end in
  match body with
  | EmptyString => (0, Some ErrSyntax)
  | _ =>
      if all_digits body then
        let n := value_from 0 body in
        if neg then
          if 2 ^ 63 <? n then (- 2 ^ 63, Some ErrRange) else (- n, None)
        else
          if 2 ^ 63 <=? n then (2 ^ 63 - 1, Some ErrRange) else (n, None)
      else (0, Some ErrSyntax)
  end.

End strconv.

Module fmt.

Fixpoint zeros (n : nat) (s : string) : string :=
    match n with
    | O => s
    | S n' => String "0" (zeros n' s)
    end.

Definition pad0 (width : nat) (s : string) : string :=
    zeros (width - String.length s) s.

  (** [fmt.Sprintf("%05d", i)]: width 5, zero padded, the sign counted in
      the width and written before the zeros. *)
Definition Sprintf_05d (i : Z) : string :=
    if i <? 0 then String "-" (pad0 4 (strconv.FormatUint (- i)))
    else pad0 5 (strconv.FormatUint i).

End fmt.

Module strings.

Definition lower (c : ascii) : ascii :=
    let n := nat_of_ascii c in
    if (65 <=? n)%nat && (n <=? 90)%nat then ascii_of_nat (n + 32) else c.

  (** [strings.ToLower] on ASCII text. (Go also maps the upper-case letters
      of other scripts; no property below depends on the mapping.) *)
Fixpoint ToLower (s : string) : string :=
    match s with
    | EmptyString => EmptyString
    | String c s' => String (lower c) (ToLower s')
    end.

End strings.

Module filepath.

Definition IsPathSeparator (c : ascii) : bool := Ascii.eqb c "/".

Fixpoint strip (r : list ascii) : list ascii :=
    match r with
    | c :: r' => if IsPathSeparator c then strip r' else r
    | [] => []
    end.

Fixpoint last_element (r acc : list ascii) : list ascii :=
    match r with
    | c :: r' => if IsPathSeparator c then acc else last_element r' (c :: acc)
    | [] => acc
    end.

  (** [filepath.Base] on Unix: the last element of the path, trailing
      slashes removed; [.] for the empty path, [/] for one of slashes
      only. The path is scanned from its end, so on the reversed text. *)
Definition Base (path : string) : string :=
    match path with
    | EmptyString => "."
    | _ =>
        match strip (rev (list_ascii_of_string path)) with
        | [] => "/"
        | r => string_of_list_ascii (last_element r [])
        end
    end.

Fixpoint ext_from (r acc : list ascii) : list ascii :=
    match r with
    | c :: r' =>
        if IsPathSeparator c then []
        else if Ascii.eqb c "." then c :: acc
        else ext_from r' (c :: acc)
    | [] => []
    end.

  (** [filepath.Ext]: the suffix from the last dot of the last element. *)
Definition Ext (path : string) : string :=
    string_of_list_ascii (ext_from (rev (list_ascii_of_string path)) []).

End filepath.

(** ** The environment: file system, Redis, the bucket *)

(** Go's [error] values that the code tells apart: [redis.Nil] (a reply
    without a value) and any other failure of a call. [None] is [nil]. *)
Inductive error := redis_Nil | call_failed.

#[global] Instance error_eq_dec : EqDecision error.
Proof. solve_decision. Defined.

(** A file: its bytes, and the offset at which the device stops answering,
    if it does. *)
Record File := mkFile { content : bytes; io_error_at : option nat }.

(** What a reader gets before the stream ends, and whether it ends in a
    read error rather than at the end of the file. *)
Definition readable (f : File) : bytes * bool :=
  match io_error_at f with
  | Some e =>
      if (e <? length (content f))%nat then (take e (content f), true)
      else (content f, false)
  | None => (content f, false)
  end.

(** An object of the bucket. *)
Record Object := mkObject { body : bytes; content_type : string }.

(** [time.Duration] is a count of nanoseconds. *)
Definition Second : Z := 1000000000.
Definition Millisecond : Z := 1000000.
Definition Hour : Z := 3600 * Second.

(** The calls of the Store and Uploader interfaces, with what they
    returned: the log that the test doubles of both interfaces keep. *)
Inductive Event :=
| EvGetValue (key res : string) (err : option error)
| EvSetValue (key value : string) (ttl : Z) (err : option error)
| EvDeleteKey (key : string) (err : option error)
| EvGetStreamStatus (streamID res : string) (err : option error)
| EvSetStreamStatus (streamID status : string) (err : option error)
| EvSetStreamTTL (streamID : string) (ttl : Z) (err : option error)
| EvSetStreamProgress (streamID : string) (chunkIdx : Z) (err : option error)
| EvIsChunkUploaded (streamID : string) (chunkIdx : Z) (res : bool) (err : option error)
| EvSetChunkUploaded (streamID : string) (chunkIdx : Z) (err : option error)
| EvUploadChunk (streamID : string) (chunkIdx : Z) (data : bytes) (err : option error)
| EvUploadMetadata (streamID : string) (metadata : bytes) (err : option error).

(** The Prometheus counters that the processor and the detector bump. *)
Record Metrics := mkMetrics
  { UploadFailures : nat; RedisErrors : nat; ChunksUploaded : nat; FilesDetected : nat }.

Record World := mkWorld
  { fs : gmap string File;          (* the watched directory *)
    clock : Z -> Z;                 (* wall clock when chunk i is cut *)
    kv : gmap string string;        (* Redis: key to value *)
    expiry : gmap string Z;         (* Redis: time to live of a key *)
    objects : gmap string Object;   (* the bucket: object name to object *)
    redis_faults : list bool;       (* whether the next Redis calls fail *)
    s3_faults : list bool;          (* whether the next PutObject calls fail *)
    metrics : Metrics;
    trace : list Event }.

Definition with_redis (k : gmap string string) (e : gmap string Z) (w : World) : World :=
  mkWorld (fs w) (clock w) k e (objects w) (redis_faults w) (s3_faults w)
          (metrics w) (trace w).

Definition with_objects (o : gmap string Object) (w : World) : World :=
  mkWorld (fs w) (clock w) (kv w) (expiry w) o (redis_faults w) (s3_faults w)
          (metrics w) (trace w).

Definition with_redis_faults (fl : list bool) (w : World) : World :=
  mkWorld (fs w) (clock w) (kv w) (expiry w) (objects w) fl (s3_faults w)
          (metrics w) (trace w).

Definition with_s3_faults (fl : list bool) (w : World) : World :=
  mkWorld (fs w) (clock w) (kv w) (expiry w) (objects w) (redis_faults w) fl
          (metrics w) (trace w).

Definition with_metrics (m : Metrics) (w : World) : World :=
  mkWorld (fs w) (clock w) (kv w) (expiry w) (objects w) (redis_faults w)
          (s3_faults w) m (trace w).

Definition log (ev : Event) (w : World) : World :=
  mkWorld (fs w) (clock w) (kv w) (expiry w) (objects w) (redis_faults w)
          (s3_faults w) (metrics w) (trace w ++ [ev]).

(** The next entry of a fault plan; a plan that has run out means that
    the calls go through. *)
Definition next_fault (plan : list bool) : bool * list bool :=
  match plan with
  | [] => (false, [])
  | b :: plan' => (b, plan')
  end.

Module metrics_.

Definition UploadFailures_Inc (w : World) : World :=
    let m := metrics w in
    with_metrics (mkMetrics (S (UploadFailures m)) (RedisErrors m)
                            (ChunksUploaded m) (FilesDetected m)) w.

Definition RedisErrors_Inc (w : World) : World :=
    let m := metrics w in
    with_metrics (mkMetrics (UploadFailures m) (S (RedisErrors m))
                            (ChunksUploaded m) (FilesDetected m)) w.

Definition ChunksUploaded_Inc (w : World) : World :=
    let m := metrics w in
    with_metrics (mkMetrics (UploadFailures m) (RedisErrors m)
                            (S (ChunksUploaded m)) (FilesDetected m)) w.

Definition FilesDetected_Inc (w : World) : World :=
    let m := metrics w in
    with_metrics (mkMetrics (UploadFailures m) (RedisErrors m)
                            (ChunksUploaded m) (S (FilesDetected m))) w.

End metrics_.

(** ** The Redis client (go-redis), as the adapter uses it *)
Module redis.

  (** [Get(key).Result()]: the value; [redis.Nil] when the key is not
      there; the failure when the call did not go through. *)
Definition Get (key : string) (w : World) : string * option error * World :=
    let '(down, plan) := next_fault (redis_faults w) in
    let w := with_redis_faults plan w in
    if down then (EmptyString, Some call_failed, w)
    else match kv w !! key with
         | Some v => (v, None, w)
         | None => (EmptyString, Some redis_Nil, w)
         end.

(** How the client writes a [time.Duration] into a command: in whole
    seconds or whole milliseconds, rounded towards zero, a positive
    duration below one unit counting as one. *)
Definition formatSec (dur : Z) : Z :=
  if (0 <? dur) && (dur <? Second) then 1 else Z.quot dur Second.

Definition formatMs (dur : Z) : Z :=
  if (0 <? dur) && (dur <? Millisecond) then 1 else Z.quot dur Millisecond.

Definition usePrecise (dur : Z) : bool :=
  (dur <? Second) || negb (Z.rem dur Second =? 0).

(** [redis.KeepTTL]. *)
Definition KeepTTL : Z := -1.

(** The time to live of [key] after [SET]: [PX] or [EX] for a positive
    expiration, [KEEPTTL] for [redis.KeepTTL], none otherwise. *)
Definition set_expiry (key : string) (expiration : Z) (e : gmap string Z) : gmap string Z :=
  if 0 <? expiration then
    if usePrecise expiration then <[key := formatMs expiration * Millisecond]> e
    else <[key := formatSec expiration * Second]> e
  else if expiration =? KeepTTL then e
  else delete key e.

  (** [Set(key, value, expiration).Err()]. *)
Definition Set_ (key value : string) (expiration : Z) (w : World)
    : option error * World :=
    let '(down, plan) := next_fault (redis_faults w) in
    let w := with_redis_faults plan w in
    if down then (Some call_failed, w)
    else (None, with_redis (<[key := value]> (kv w)) (set_expiry key expiration (expiry w)) w).

  (** [Expire(key, ttl).Err()]: [EXPIRE key seconds]. A key that is not
      there is left alone; a time that is not above 0 deletes the key. *)
Definition Expire (key : string) (ttl : Z) (w : World) : option error * World :=
    let '(down, plan) := next_fault (redis_faults w) in
    let w := with_redis_faults plan w in
    if down then (Some call_failed, w)
    else match kv w !! key with
         | Some _ =>
             if formatSec ttl <=? 0
             then (None, with_redis (delete key (kv w)) (delete key (expiry w)) w)
             else (None, with_redis (kv w) (<[key := formatSec ttl * Second]> (expiry w)) w)
         | None => (None, w)
         end.

  (** [Del(key).Err()]. *)
Definition Del (key : string) (w : World) : option error * World :=
    let '(down, plan) := next_fault (redis_faults w) in
    let w := with_redis_faults plan w in
    if down then (Some call_failed, w)
    else (None, with_redis (delete key (kv w)) (delete key (expiry w)) w).

(** [Scan(0, prefix*, 0).Iterator()], run to its end: the keys that
    begin with [prefix]. Redis fixes no order; the order here is that of
    the map. (Not a call of the processor or of the detector, so not in
    their log.) *)
Definition Scan (prefix : string) (w : World) : list string * option error * World :=
  let '(down, plan) := next_fault (redis_faults w) in
  let w := with_redis_faults plan w in
  if down then ([], Some call_failed, w)
  else (List.filter (String.prefix prefix) (map fst (map_to_list (kv w))), None, w).

End redis.

(** ** internal/redisstore: the Store adapter *)
Module redisstore.

Definition itoa (i : Z) : string := fmt.Sprintf_05d i.

Definition chunk_key (streamID : string) (chunkIdx : Z) : string :=
  "chunk_uploaded:" +:+ streamID +:+ ":" +:+ itoa chunkIdx.

Definition progress_key (streamID : string) : string := "stream_progress:" +:+ streamID.

Definition status_key (streamID : string) : string := "stream_status:" +:+ streamID.

(** The client writes [true] as [1]. *)
Definition SetChunkUploaded (streamID : string) (chunkIdx : Z) (w : World)
  : option error * World :=
  let key := chunk_key streamID chunkIdx in
  let '(err, w) := redis.Set_ key "1" 0 w in
  (err, log (EvSetChunkUploaded streamID chunkIdx err) w).

Definition IsChunkUploaded (streamID : string) (chunkIdx : Z) (w : World)
  : bool * option error * World :=
  let key := chunk_key streamID chunkIdx in
  let '(res, err, w) := redis.Get key w in
  let '(ok, err) :=
    match err with
    | Some redis_Nil => (false, None)
    | _ => (String.eqb res "1" || String.eqb res "true", err)
    end in
  (ok, err, log (EvIsChunkUploaded streamID chunkIdx ok err) w).

Definition SetStreamProgress (streamID : string) (chunkIdx : Z) (w : World)
  : option error * World :=
  let key := progress_key streamID in
  let '(err, w) := redis.Set_ key (strconv.Itoa chunkIdx) 0 w in
  (err, log (EvSetStreamProgress streamID chunkIdx err) w).

Definition SetStreamStatus (streamID status : string) (w : World)
  : option error * World :=
  let key := status_key streamID in
  let '(err, w) := redis.Set_ key status 0 w in
  (err, log (EvSetStreamStatus streamID status err) w).

Definition GetStreamStatus (streamID : string) (w : World)
  : string * option error * World :=
  let key := status_key streamID in
  let '(res, err, w) := redis.Get key w in
  (res, err, log (EvGetStreamStatus streamID res err) w).

Definition SetStreamTTL (streamID : string) (ttl : Z) (w : World)
  : option error * World :=
  let key := status_key streamID in
  let '(err, w) := redis.Expire key ttl w in
  (err, log (EvSetStreamTTL streamID ttl err) w).

Definition GetValue (key : string) (w : World) : string * option error * World :=
  let '(res, err, w) := redis.Get key w in
  (res, err, log (EvGetValue key res err) w).

Definition SetValue (key value : string) (ttl : Z) (w : World)
  : option error * World :=
  let '(err, w) := redis.Set_ key value ttl w in
  (err, log (EvSetValue key value ttl err) w).

Definition DeleteKey (key : string) (w : World) : option error * World :=
  let '(err, w) := redis.Del key w in
  (err, log (EvDeleteKey key err) w).

(** What [Get(key).Int()] can fail with: the error of the call, or the
    error of [strconv.Atoi] on the value. *)
Inductive IntError := RedisError (e : error) | ParseError (e : strconv.NumError).

Definition GetStreamProgress (streamID : string) (w : World)
  : Z * option IntError * World :=
  let key := progress_key streamID in
  let '(res, err, w) := redis.Get key w in
  match err with
  | Some e => (0, Some (RedisError e), w)
  | None =>
      let '(n, perr) := strconv.Atoi res in
      (n, option_map ParseError perr, w)
  end.

Fixpoint drop_chars (n : nat) (s : string) : string :=
  match n, s with
  | O, _ => s
  | S n', String _ s' => drop_chars n' s'
  | S _, EmptyString => EmptyString
  end.

(** One turn of the loop of [ScanIncompleteStreams] over the keys. *)
Definition scan_step (acc : list string * World) (key : string) : list string * World :=
  let '(streams, w) := acc in
  let '(status, err, w) := redis.Get key w in
  match err with
  | None =>
      if negb (String.eqb status "completed")
      then (streams ++ [drop_chars (String.length "stream_status:") key], w)
      else (streams, w)
  | Some _ => (streams, w)
  end.

Definition ScanIncompleteStreams (w : World) : list string * option error * World :=
  let '(keys, err, w) := redis.Scan "stream_status:" w in
  let '(streams, w) := fold_left scan_step keys ([], w) in
  (streams, err, w).

End redisstore.

(** ** internal/s3uploader: the Uploader adapter *)
Module s3uploader.

(** [PutObject] of the MinIO client: the object is written whole, or the
    call fails and the bucket is as before. *)
Definition PutObject (objectName : string) (data : bytes) (contentType : string)
  (w : World) : option error * World :=
  let '(down, plan) := next_fault (s3_faults w) in
  let w := with_s3_faults plan w in
  if down then (Some call_failed, w)
  else (None, with_objects (<[objectName := mkObject data contentType]> (objects w)) w).

Definition itoa (i : Z) : string := fmt.Sprintf_05d i.

Definition chunk_object (streamID : string) (chunkIdx : Z) : string :=
  streamID +:+ "/chunk-" +:+ itoa chunkIdx.

Definition metadata_object (streamID : string) : string :=
  streamID +:+ "/metadata.json".

Definition UploadChunk (streamID : string) (chunkIdx : Z) (data : bytes) (w : World)
  : option error * World :=
  let objectName := chunk_object streamID chunkIdx in
  let '(err, w) := PutObject objectName data EmptyString w in
  (err, log (EvUploadChunk streamID chunkIdx data err) w).

Definition UploadMetadata (streamID : string) (metadata : bytes) (w : World)
  : option error * World :=
  let objectName := metadata_object streamID in
  let '(err, w) := PutObject objectName metadata "application/json" w in
  (err, log (EvUploadMetadata streamID metadata err) w).

End s3uploader.

(** ** internal/chunker *)
Module chunker.

Record Chunk := mkChunk
  { Index : Z; Data : bytes; Checksum : string; Timestamp : Z }.

(** What [ChunkFile] gives its caller: the error of [os.Open], or the
    chunks that come out of the channel until it is closed. A negative
    chunk size makes [make] panic in the producer; with a chunk size of 0
    [io.ReadFull] reads nothing without an error, and the producer sends
    empty chunks for ever. *)
Inductive Result :=
| OpenError
| Chunks (cs : list Chunk)
| Panics
| Diverges.

Definition cut (now : Z -> Z) (idx : Z) (data : bytes) : Chunk :=
  mkChunk idx data (hex.EncodeToString (sha256.Sum256 data)) (now idx).

(** The producer's loop. [rest] is what is left to read and [bad] tells
    whether the stream ends in a read error. [io.ReadFull] fills the
    buffer, or comes back short: with [io.EOF] or [io.ErrUnexpectedEOF] at
    the end of the file, with the read error otherwise. *)
Fixpoint loop (fuel : nat) (now : Z -> Z) (chunkSize idx : Z) (rest : bytes)
  (bad : bool) : list Chunk :=
  match fuel with
  | O => []
  | S fuel' =>
      let buf := take_upto chunkSize rest in
      let n := len buf in
      if n <? chunkSize then
        if bad then []
        else if 0 <? n then [cut now idx buf] else []
      else
        cut now idx buf
          :: loop fuel' now chunkSize (wrap64 (idx + 1)) (drop_upto chunkSize rest) bad
  end.

(** Every full read takes [chunkSize > 0] bytes, so one more turn than
    there are bytes is enough for the loop to reach its [break]. *)
Definition ChunkFile (files : gmap string File) (now : Z -> Z) (filePath : string)
  (chunkSize : Z) : Result :=
  match files !! filePath with
  | None => OpenError
  | Some f =>
      if chunkSize <? 0 then Panics
      else if chunkSize =? 0 then Diverges
      else
        let '(data, bad) := readable f in
        Chunks (loop (S (length data)) now chunkSize 0 data bad)
  end.

End chunker.

(** ** internal/config *)
Record Config := mkConfig
  { ChunkSize : Z;
    StabilityThreshold : Z;
    WorkerCount : Z;
    VideoFileFormats : list string }.

(** How a run of a Go function ends. *)
Inductive Outcome (A : Type) :=
| Returns (a : A)
| Panics
| Diverges.
Arguments Returns {A} a.
Arguments Panics {A}.
Arguments Diverges {A}.

(** ** internal/app: the file processor *)
Module app.

(** [ChunkMeta] and [Metadata]. ([Duration] is never set, and
    [omitempty] keeps it out of the JSON text.) *)
Record ChunkMeta := mkChunkMeta
  { Index : Z; Checksum : string; Timestamp : Z }.

Record Metadata := mkMetadata
  { TotalSize : Z; Chunks : list ChunkMeta }.

(** [fileHash]: the first 16 hex digits of the SHA-256 of what
    [io.CopyN] could copy of the first 10 MiB; empty when the file does
    not open. *)
Definition fileHash (files : gmap string File) (path : string) : string :=
  match files !! path with
  | None => EmptyString
  | Some f =>
      let h := sha256.Sum256 (take_upto (10 * 1024 * 1024) (fst (readable f))) in
      String.substring 0 16 (hex.EncodeToString h)
  end.

Definition hash_key (streamID : string) : string := "file_hash:" +:+ streamID.

Definition ttl_7d : Z := 7 * 24 * Hour.

Section WithTimeFormat.

(** The text of a [time.Time] in JSON (RFC 3339, in the zone of the
    process). *)
Variable RFC3339 : Z -> string.

Definition quoted (s : string) : string :=
  String (ascii_of_nat 34) (s +:+ String (ascii_of_nat 34) EmptyString).

Definition marshal_ChunkMeta (m : ChunkMeta) : string :=
  "{" +:+ quoted "index" +:+ ":" +:+ strconv.Itoa (Index m) +:+ ","
      +:+ quoted "checksum" +:+ ":" +:+ quoted (Checksum m) +:+ ","
      +:+ quoted "timestamp" +:+ ":" +:+ quoted (RFC3339 (Timestamp m)) +:+ "}".

Fixpoint join (items : list string) : string :=
  match items with
  | [] => EmptyString
  | [x] => x
  | x :: rest => x +:+ "," +:+ join rest
  end.

(** [json.Marshal(meta)]; a nil slice is written [null]. The checksums
    are hex digits, which JSON leaves as they are. *)
Definition json_Marshal (meta : Metadata) : bytes :=
  bytes_of_string
    ("{" +:+ quoted "total_size" +:+ ":" +:+ strconv.Itoa (TotalSize meta) +:+ ","
         +:+ quoted "chunks" +:+ ":"
         +:+ match Chunks meta with
             | [] => "null"
             | ms => "[" +:+ join (map marshal_ChunkMeta ms) +:+ "]"
             end
         +:+ "}").

(** One turn of [for chunk := range chunks], from the lookup of the
    checkpoint to the progress write; [continue] leaves the turn with
    [chunkMetas] and [totalSize] as they were. *)
Definition process_chunk (streamID : string) (chunk : chunker.Chunk)
  (acc : list ChunkMeta * Z * World) : list ChunkMeta * Z * World :=
  let '(chunkMetas, totalSize, w) := acc in
  let '(uploaded, err, w) :=
    redisstore.IsChunkUploaded streamID (chunker.Index chunk) w in
  match err with
  | Some _ => (chunkMetas, totalSize, metrics_.RedisErrors_Inc w)
  | None =>
      if uploaded then (chunkMetas, totalSize, w)
      else
        let '(err, w) :=
          s3uploader.UploadChunk streamID (chunker.Index chunk) (chunker.Data chunk) w in
        match err with
        | Some _ => (chunkMetas, totalSize, metrics_.UploadFailures_Inc w)
        | None =>
            let '(err, w) :=
              redisstore.SetChunkUploaded streamID (chunker.Index chunk) w in
            let w := match err with
                     | Some _ => metrics_.RedisErrors_Inc w
                     | None => w
                     end in
            let chunkMetas :=
              (chunkMetas ++ [mkChunkMeta (chunker.Index chunk) (chunker.Checksum chunk)
                                          (chunker.Timestamp chunk)])%list in
            let totalSize := wrap64 (totalSize + len (chunker.Data chunk)) in
            let w := metrics_.ChunksUploaded_Inc w in
            let '(_, w) :=
              redisstore.SetStreamProgress streamID (chunker.Index chunk) w in
            (chunkMetas, totalSize, w)
        end
  end.

Fixpoint range_chunks (streamID : string) (chunks : list chunker.Chunk)
  (acc : list ChunkMeta * Z * World) : list ChunkMeta * Z * World :=
  match chunks with
  | [] => acc
  | chunk :: rest => range_chunks streamID rest (process_chunk streamID chunk acc)
  end.

(** After the loop: the metadata upload, the status, its time to live. *)
Definition finish (streamID : string) (acc : list ChunkMeta * Z * World) : World :=
  let '(chunkMetas, totalSize, w) := acc in
  let meta := mkMetadata totalSize chunkMetas in
  let metaBytes := json_Marshal meta in
  let '(err, w) := s3uploader.UploadMetadata streamID metaBytes w in
  let w := match err with
           | Some _ => metrics_.UploadFailures_Inc w
           | None => w
           end in
  let '(_, w) := redisstore.SetStreamStatus streamID "completed" w in
  let '(_, w) := redisstore.SetStreamTTL streamID ttl_7d w in
  w.

(** The reset of a stream whose file has another hash than the stored one. *)
Definition reset_if_changed (streamID prevHash hash : string) (w : World) : World :=
  if negb (String.eqb prevHash EmptyString) && negb (String.eqb prevHash hash) then
    let '(_, w) := redisstore.DeleteKey (redisstore.status_key streamID) w in
    let '(_, w) := redisstore.SetStreamProgress streamID 0 w in
    w
  else w.

Definition processFile (cfg : Config) (file : string) (w : World) : Outcome World :=
  let streamID := filepath.Base file in
  let hash := fileHash (fs w) file in
  if String.eqb hash EmptyString then Returns w
  else
    let hashKey := hash_key streamID in
    let '(prevHash, _, w) := redisstore.GetValue hashKey w in
    let '(status, _, w) := redisstore.GetStreamStatus streamID w in
    if String.eqb prevHash hash && String.eqb status "completed" then Returns w
    else
      let w := reset_if_changed streamID prevHash hash w in
      let '(_, w) := redisstore.SetValue hashKey hash ttl_7d w in
      match chunker.ChunkFile (fs w) (clock w) file (ChunkSize cfg) with
      | chunker.OpenError => Returns (metrics_.UploadFailures_Inc w)
      | chunker.Panics => Panics
      | chunker.Diverges => Diverges
      | chunker.Chunks chunks =>
          Returns (finish streamID (range_chunks streamID chunks ([], 0, w)))
      end.

(** [processFile] when the directory holds [later] by the time the chunker
    opens the file: since [fileHash] read it, the file may have gone or
    changed. [processFile] is the run in which it has not. *)
Definition processFile_at (later : gmap string File) (cfg : Config) (file : string)
  (w : World) : Outcome World :=
  let streamID := filepath.Base file in
  let hash := fileHash (fs w) file in
  if String.eqb hash EmptyString then Returns w
  else
    let hashKey := hash_key streamID in
    let '(prevHash, _, w) := redisstore.GetValue hashKey w in
    let '(status, _, w) := redisstore.GetStreamStatus streamID w in
    if String.eqb prevHash hash && String.eqb status "completed" then Returns w
    else
      let w := reset_if_changed streamID prevHash hash w in
      let '(_, w) := redisstore.SetValue hashKey hash ttl_7d w in
      match chunker.ChunkFile later (clock w) file (ChunkSize cfg) with
      | chunker.OpenError => Returns (metrics_.UploadFailures_Inc w)
      | chunker.Panics => Panics
      | chunker.Diverges => Diverges
      | chunker.Chunks chunks =>
          Returns (finish streamID (range_chunks streamID chunks ([], 0, w)))
      end.

End WithTimeFormat.

End app.

(** ** internal/watcher: the stability detector *)
Module watcher.

(** The two maps of the watcher, and what it has sent on [fileCh] (the
    workers take the paths out at the other end; a send to a full channel
    waits for them). *)
Record Watcher := mkWatcher
  { seen : gmap string Z;
    hashes : gmap string string;
    fileCh : list string }.

Definition fileHash (files : gmap string File) (path : string) : string :=
  match files !! path with
  | None => EmptyString
  | Some f =>
      let h := sha256.Sum256 (take_upto (10 * 1024 * 1024) (fst (readable f))) in
      String.substring 0 16 (hex.EncodeToString h)
  end.

Fixpoint ext_in (ext : string) (allowedExts : list string) : bool :=
  match allowedExts with
  | [] => false
  | allowed :: rest => if String.eqb ext allowed then true else ext_in ext rest
  end.

Definition isAllowedExt (file : string) (allowedExts : list string) : bool :=
  ext_in (strings.ToLower (filepath.Ext file)) allowedExts.

(** [filterFile]: true when the file is new or changed. *)
Definition filterFile (file : string) (w : World) : bool * World :=
  let hash := fileHash (fs w) file in
  let streamID := filepath.Base file in
  let hashKey := "file_hash:" +:+ streamID in
  let '(status, _, w) := redisstore.GetStreamStatus streamID w in
  let '(prevHash, _, w) := redisstore.GetValue hashKey w in
  if String.eqb prevHash hash && String.eqb status "completed" then (false, w)
  else (true, w).

(** The inner loop of [checkStableFiles] over the configured formats: at
    the first format that is the extension, filter, send, and [break]. *)
Fixpoint offer (ext file : string) (formats : list string) (st : Watcher * World)
  : Watcher * World :=
  match formats with
  | [] => st
  | allowed :: rest =>
      if String.eqb ext allowed then
        let '(wt, w) := st in
        let '(fresh, w) := filterFile file w in
        if fresh then
          (mkWatcher (seen wt) (hashes wt) (fileCh wt ++ [file]),
           metrics_.FilesDetected_Inc w)
        else (wt, w)
      else offer ext file rest st
  end.

(** One entry of [w.seen] in [checkStableFiles]. *)
Definition visit (cfg : Config) (now debounce : Z) (st : Watcher * World)
  (entry : string * Z) : Watcher * World :=
  let '(file, last) := entry in
  if debounce <? now - last then
    let ext := strings.ToLower (filepath.Ext file) in
    let '(wt, w) := offer ext file (VideoFileFormats cfg) st in
    (mkWatcher (delete file (seen wt)) (hashes wt) (fileCh wt), w)
  else st.

(** [for file, last := range w.seen] visits every entry once, in an order
    that Go does not fix: [order] is that order. *)
Definition checkStableFiles_in (order : list (string * Z)) (cfg : Config)
  (now debounce : Z) (st : Watcher * World) : Watcher * World :=
  fold_left (visit cfg now debounce) order st.

Definition checkStableFiles (cfg : Config) (now debounce : Z) (st : Watcher * World)
  : Watcher * World :=
  checkStableFiles_in (map_to_list (seen (fst st))) cfg now debounce st.

(** The event branch of the loop of [Start]: an event of one of the
    four kinds (Create, Write, Rename, Chmod) stamps the path. *)
Definition onEvent (name : string) (of_kind : bool) (now : Z) (wt : Watcher) : Watcher :=
  if of_kind then mkWatcher (<[name := now]> (seen wt)) (hashes wt) (fileCh wt)
  else wt.

(** [-2 * time.Duration(w.cfg.StabilityThreshold) * time.Second], in
    int64: how far back the scans stamp a file. *)
Definition backdate (cfg : Config) : Z :=
  wrap64 (wrap64 (-2 * StabilityThreshold cfg) * Second).

(** [scanExistingFiles]. [matches] is what [filepath.Glob] gave for the
    entries of the watched directory, [None] being its error. *)
Definition scanExistingFiles (cfg : Config) (now : Z) (matches : option (list string))
  (wt : Watcher) : Watcher :=
  match matches with
  | None => wt
  | Some files =>
      fold_left
        (fun wt file =>
           if isAllowedExt file (VideoFileFormats cfg) then
             mkWatcher (<[file := now + backdate cfg]> (seen wt))
                       (hashes wt) (fileCh wt)
           else wt)
        files wt
  end.

(** One file of the loop of [rescanFiles]. *)
Definition rescan_file (cfg : Config) (now : Z) (files : gmap string File)
  (wt : Watcher) (file : string) : Watcher :=
  if isAllowedExt file (VideoFileFormats cfg) then
    let hash := fileHash files file in
    match hashes wt !! file with
    | Some prevHash =>
        if negb (String.eqb prevHash hash) then
          mkWatcher (<[file := now + backdate cfg]> (seen wt))
                    (<[file := hash]> (hashes wt)) (fileCh wt)
        else wt
    | None =>
        mkWatcher (<[file := now + backdate cfg]> (seen wt))
                  (<[file := hash]> (hashes wt)) (fileCh wt)
    end
  else wt.

Definition rescanFiles (cfg : Config) (now : Z) (files : gmap string File)
  (matches : option (list string)) (wt : Watcher) : Watcher :=
  match matches with
  | None => wt
  | Some listed => fold_left (rescan_file cfg now files) listed wt
  end.

End watcher.

(** ** Vocabulary of the properties *)

(** The lengths that a file of [n] bytes is cut into. *)
Definition sizes (n s : Z) : list Z :=
  replicate (Z.to_nat (n / s)) s ++ (if n mod s =? 0 then [] else [n mod s]).

(** What a call to Redis leaves alone. *)
Definition redis_frame (w w' : World) : Prop :=
  fs w' = fs w /\ clock w' = clock w /\ objects w' = objects w
  /\ s3_faults w' = s3_faults w /\ metrics w' = metrics w.

(** What a call to the bucket leaves alone. *)
Definition s3_frame (w w' : World) : Prop :=
  fs w' = fs w /\ clock w' = clock w /\ kv w' = kv w /\ expiry w' = expiry w
  /\ redis_faults w' = redis_faults w /\ metrics w' = metrics w.

(** The next [n] calls of a fault plan go through. *)
Fixpoint goes_through (n : nat) (plan : list bool) : bool :=
  match n, plan with
  | O, _ => true
  | S _, [] => true
  | S n', b :: plan' => negb b && goes_through n' plan'
  end.

(** What the processor keeps of a chunk that it has uploaded. *)
Definition meta_of (c : chunker.Chunk) : app.ChunkMeta :=
  app.mkChunkMeta (chunker.Index c) (chunker.Checksum c) (chunker.Timestamp c).

(** The calls of one turn of the processor's loop for the chunk [c], and
    whether the turn uploaded the chunk. *)
Inductive turn (sid : string) (c : chunker.Chunk) : bool -> list Event -> Prop :=
| turn_lookup_failed ok e :
    turn sid c false [EvIsChunkUploaded sid (chunker.Index c) ok (Some e)]
| turn_already_uploaded :
    turn sid c false [EvIsChunkUploaded sid (chunker.Index c) true None]
| turn_upload_failed e :
    turn sid c false
      [EvIsChunkUploaded sid (chunker.Index c) false None;
       EvUploadChunk sid (chunker.Index c) (chunker.Data c) (Some e)]
| turn_uploaded e1 e2 :
    turn sid c true
      [EvIsChunkUploaded sid (chunker.Index c) false None;
       EvUploadChunk sid (chunker.Index c) (chunker.Data c) None;
       EvSetChunkUploaded sid (chunker.Index c) e1;
       EvSetStreamProgress sid (chunker.Index c) e2].

(** The calls of the whole loop over [cs], and the chunks [ups] that it
    uploaded. *)
Inductive turns (sid : string) : list chunker.Chunk -> list chunker.Chunk -> list Event -> Prop :=
| turns_done : turns sid [] [] []
| turns_skip c cs ups t ts :
    turn sid c false t -> turns sid cs ups ts -> turns sid (c :: cs) ups (t ++ ts)
| turns_upload c cs ups t ts :
    turn sid c true t -> turns sid cs ups ts -> turns sid (c :: cs) (c :: ups) (t ++ ts).

(** Every checkpoint write of the trace [t] comes right after the
    successful upload of the same chunk, and [P] holds of the chunk. *)
Definition checkpoint_follows_upload (P : string -> Z -> Prop) (t : list Event) : Prop :=
  forall pre post sid i e,
    t = pre ++ EvSetChunkUploaded sid i e :: post ->
    (exists pre' data, pre = pre' ++ [EvUploadChunk sid i data None]) /\ P sid i.

Definition is_checkpoint (ev : Event) : bool :=
  match ev with EvSetChunkUploaded _ _ _ => true | _ => false end.

Definition is_upload_chunk (ev : Event) : bool :=
  match ev with EvUploadChunk _ _ _ _ => true | _ => false end.

Definition is_upload_metadata (ev : Event) : bool :=
  match ev with EvUploadMetadata _ _ _ => true | _ => false end.

(** An upload of a chunk that returned no error. *)
Definition is_uploaded (ev : Event) : bool :=
  match ev with EvUploadChunk _ _ _ None => true | _ => false end.

(** The number of events of a kind in a trace. *)
Definition count (p : Event -> bool) (t : list Event) : nat :=
  length (List.filter p t).

(** The successful upload of the chunk [c] of the stream [sid]. *)
Definition uploaded_event (sid : string) (c : chunker.Chunk) : Event :=
  EvUploadChunk sid (chunker.Index c) (chunker.Data c) None.

(** The sum of the lengths of the data of chunks. *)
Definition total_len (cs : list chunker.Chunk) : Z :=
  fold_right (fun c acc => len (chunker.Data c) + acc) 0 cs.

(** The total size as the processor adds it up, in int64. *)
Definition added_up (ups : list chunker.Chunk) (total : Z) : Z :=
  fold_left (fun acc c => wrap64 (acc + len (chunker.Data c))) ups total.

(** The calls of the reset of a stream, made when the stored hash
    [prev] is not empty and is not the hash [h] of the file. *)
Definition reset_events (sid prev h : string) (reset : list Event) : Prop :=
  if negb (String.eqb prev EmptyString) && negb (String.eqb prev h)
  then exists e4 e5,
      reset = [EvDeleteKey (redisstore.status_key sid) e4;
               EvSetStreamProgress sid 0 e5]
  else reset = [].

(** The state of a tick that has not sent [file]: Redis and the files as
    at its start, no fault ahead, and [file] not among the paths sent. *)
Definition spares (file : string) (w0 : World) (wt0 : watcher.Watcher) (st : watcher.Watcher * World)
  : Prop :=
  kv (snd st) = kv w0 /\ fs (snd st) = fs w0
  /\ forallb negb (redis_faults (snd st)) = true
  /\ exists sent, watcher.fileCh (fst st) = watcher.fileCh wt0 ++ sent /\ file ∉ sent.


(** Whether the checkpoint of chunk [i] of the stream reads as set. *)
Definition marked (store : gmap string string) (sid : string) (i : Z) : bool :=
  match store !! redisstore.chunk_key sid i with
  | Some v => String.eqb v "1" || String.eqb v "true"
  | None => false
  end.

(** A call that uploads chunk [i] of the stream [sid]. *)
Definition is_upload_of (sid : string) (i : Z) (ev : Event) : bool :=
  match ev with
  | EvUploadChunk s j _ _ => String.eqb s sid && (j =? i)
  | _ => false
  end.

(** From [w] to [w'] the checkpoint of chunk [i], set in [w], has stayed
    set, and no call has uploaded the chunk. *)
Definition kept (sid : string) (i : Z) (w w' : World) : Prop :=
  marked (kv w') sid i = true
  /\ exists t, trace w' = trace w ++ t /\ List.filter (is_upload_of sid i) t = [].

(** No fault ahead: every call to Redis and to the bucket goes through. *)
Definition all_clear (w : World) : Prop :=
  forallb negb (redis_faults w) = true /\ forallb negb (s3_faults w) = true.

(** A chunk whose checkpoint does not read as set. *)
Definition unmarked (store : gmap string string) (sid : string) (c : chunker.Chunk) : bool :=
  negb (marked store sid (chunker.Index c)).

(** An upload, of a chunk or of the metadata, that returned an error. *)
Definition failed_upload (ev : Event) : bool :=
  match ev with
  | EvUploadChunk _ _ _ (Some _) | EvUploadMetadata _ _ (Some _) => true
  | _ => false
  end.

(** A checkpoint call, lookup or write, that returned an error. *)
Definition failed_checkpoint_call (ev : Event) : bool :=
  match ev with
  | EvIsChunkUploaded _ _ _ (Some _) | EvSetChunkUploaded _ _ (Some _) => true
  | _ => false
  end.

(** The call that stores the hash of the file. *)
Definition is_hash_store (ev : Event) : bool :=
  match ev with EvSetValue _ _ _ _ => true | _ => false end.

(** The counters after the calls [t], from the counters [m] before them:
    a failed upload counts as an upload failure, a failed checkpoint call
    as a Redis error, an upload of a chunk without error as a chunk
    uploaded. *)
Definition tally (t : list Event) (m : Metrics) : Metrics :=
  mkMetrics (UploadFailures m + count failed_upload t)
            (RedisErrors m + count failed_checkpoint_call t)
            (ChunksUploaded m + count is_uploaded t)
            (FilesDetected m).

(** From [w] to [w'] the counters have followed the calls; [stored]
    tells whether the hash was stored on the way. *)
Definition counted (stored : bool) (w w' : World) : Prop :=
  exists t, trace w' = trace w ++ t /\ metrics w' = tally t (metrics w)
            /\ existsb is_hash_store t = stored.

(** The run got as far as the chunker, and the file was not there to be
    opened any more. *)
Definition chunker_open_failed (later : gmap string File) (file : string)
  (t : list Event) : bool :=
  existsb is_hash_store t
  && match later !! file with Some _ => false | None => true end.

(** An entry of the detector's map that has been quiet for longer than
    the threshold. *)
Definition stable (now debounce : Z) (entry : string * Z) : bool :=
  debounce <? now - snd entry.

(** The detector's map without the stable entries of [order]. *)
Definition forget (now debounce : Z) (order : list (string * Z)) (m : gmap string Z)
  : gmap string Z :=
  fold_left (fun m e => if stable now debounce e then delete (fst e) m else m) order m.

(** The file is recorded in Redis as completed with the hash it has now. *)
Definition done_with (w : World) (file : string) : bool :=
  String.eqb (default EmptyString (kv w !! ("file_hash:" +:+ filepath.Base file)))
             (watcher.fileHash (fs w) file)
  && String.eqb (default EmptyString (kv w !! redisstore.status_key (filepath.Base file)))
                "completed".

(** A stable entry with a configured extension. *)
Definition candidate (cfg : Config) (now debounce : Z) (entry : string * Z) : bool :=
  stable now debounce entry && watcher.isAllowedExt (fst entry) (VideoFileFormats cfg).

(** A candidate that is not done with. *)
Definition due (cfg : Config) (now debounce : Z) (w : World) (entry : string * Z) : bool :=
  candidate cfg now debounce entry && negb (done_with w (fst entry)).

(** The last character of a text. *)
Fixpoint last_char (s : string) : option ascii :=
  match s with
  | EmptyString => None
  | String c EmptyString => Some c
  | String _ s' => last_char s'
  end.

(** A text of lowercase hex digits. *)
Definition is_hex (c : ascii) : bool :=
  match String.index 0 (String c EmptyString) hex.hextable with
  | Some _ => true
  | None => false
  end.

Fixpoint all_hex (s : string) : bool :=
  match s with
  | EmptyString => true
  | String c s' => is_hex c && all_hex s'
  end.

(** ** Scenarios *)
Module scenario.

(** A stand-in for the text of a time: the count of seconds. *)
Definition unix_text (t : Z) : string := strconv.Itoa t.

(** The clock: chunk [i] is cut [i] seconds after the start. *)
Definition clock0 (i : Z) : Z := i + 1748363036.

Definition path : string := "/input_files/v.mp4".

Definition file16 : File := mkFile (bytes_of_string "1234567890abcdef") None.

Definition file8 : File := mkFile (bytes_of_string "somedata") None.

Definition cfg4 : Config := mkConfig 4 2 4 [".mp4"; ".mkv"].

(** Empty Redis, empty bucket, one file in the directory; [s3_plan] says
    which calls of PutObject fail. *)
Definition fresh (f : File) (s3_plan : list bool) : World :=
  mkWorld {[ path := f ]} clock0 ∅ ∅ ∅ [] s3_plan (mkMetrics 0 0 0 0) [].

Definition run (w : World) : World :=
  match app.processFile unix_text cfg4 path w with
  | Returns w' => w'
  | _ => w
  end.

Definition returned {A} (o : Outcome A) : bool :=
  match o with Returns _ => true | _ => false end.

(** The calls that took [w] to [w']. *)
Definition events_since (w w' : World) : list Event :=
  drop (length (trace w)) (trace w').

(** The world that a completed first run on [file16] leaves. *)
Definition after_first_run : World := run (fresh file16 []).

(** The same world after the file was overwritten with [file8]. *)
Definition after_overwrite : World :=
  mkWorld {[ path := file8 ]} clock0 (kv after_first_run) (expiry after_first_run)
          (objects after_first_run) [] [] (metrics after_first_run)
          (trace after_first_run).

(** The world after a run in which the upload of chunk 1 failed. *)
Definition after_failed_upload : World := run (fresh file8 [false; true]).

(** The last chunk of [file16] for a chunk size of 5. *)
Definition chunk_f : chunker.Chunk :=
  chunker.cut clock0 3 (bytes_of_string "f").

(** [file16] in the directory, while Redis holds the hash of another
    content, the status completed and a progress of 7, and no checkpoint. *)
Definition rehashed : World :=
  mkWorld {[ path := file16 ]} clock0
          (<[ app.hash_key "v.mp4" := "0123456789abcdef" ]>
             (<[ redisstore.status_key "v.mp4" := "completed" ]>
                {[ redisstore.progress_key "v.mp4" := "7" ]}))
          ∅ ∅ [] [] (mkMetrics 0 0 0 0) [].

(** A run that was cut short: chunk 1 of [file16] is checkpointed, the
    status and the hash are not there. *)
Definition interrupted : World :=
  mkWorld {[ path := file16 ]} clock0 {[ redisstore.chunk_key "v.mp4" 1 := "1" ]} ∅ ∅
          [] [] (mkMetrics 0 0 0 0) [].

(** An empty file in the directory. *)
Definition empty_file : World :=
  mkWorld {[ path := mkFile [] None ]} clock0 ∅ ∅ ∅ [] [] (mkMetrics 0 0 0 0) [].

(** [file16] with a read error at offset 10. *)
Definition file16_broken : File := mkFile (bytes_of_string "1234567890abcdef") (Some 10%nat).

(** Ten mebibytes of zeros. *)
Definition ten_mebibytes : bytes := replicate (Z.to_nat (10 * 1024 * 1024)) x00.

(** Two files that begin with them and end differently. *)
Definition long_files : gmap string File :=
  <["a.mp4" := mkFile (ten_mebibytes ++ [x01]) None]>
    (<["b.mp4" := mkFile (ten_mebibytes ++ [x02; x03]) None]> ∅).

(** A watcher with nothing in its maps. *)
Definition idle : watcher.Watcher := watcher.mkWatcher ∅ ∅ [].

(** A watcher that saw [path] at instant 0. *)
Definition watching : watcher.Watcher := watcher.mkWatcher {[ path := 0 ]} ∅ [].

End scenario.

(** * Properties *)

(** ** The Go library functions against known values *)

Example sha256_constants :
  firstn 3 sha256.K = [0x428a2f98; 0x71374491; 0xb5c0fbcf]
  /\ nth 63 sha256.K 0 = 0xc67178f2
  /\ sha256.ha sha256.init = 0x6a09e667
  /\ sha256.hh sha256.init = 0x5be0cd19.
Proof. vm_compute. repeat split; reflexivity. Qed.

Example sha256_empty :
  hex.EncodeToString (sha256.Sum256 [])
  = "e3b0c44298fc1c149afbf4c8996fb92427ae41e4649b934ca495991b7852b855".
Proof. vm_compute. reflexivity. Qed.

Example sha256_abc :
  hex.EncodeToString (sha256.Sum256 (bytes_of_string "abc"))
  = "ba7816bf8f01cfea414140de5dae2223b00361a396177a9cb410ff61f20015ad".
Proof. vm_compute. reflexivity. Qed.

Example sha256_two_blocks :
  hex.EncodeToString (sha256.Sum256 (bytes_of_string
    "abcdbcdecdefdefgefghfghighijhijkijkljklmklmnlmnomnopnopq"))
  = "248d6a61d20638b8e5c026930c3e6039a33ce45964ff2167f6ecedd419db06c1".
Proof. vm_compute. reflexivity. Qed.

Example itoa_pads : map fmt.Sprintf_05d [0; 7; 12345; 123456] = ["00000"; "00007"; "12345"; "123456"].
Proof. reflexivity. Qed.

Example base_of_path :
  map filepath.Base ["/in/test.mp4"; "v.mp4"; "a/b/"; "///"; EmptyString]
  = ["test.mp4"; "v.mp4"; "b"; "/"; "."].
Proof. reflexivity. Qed.

Example ext_of_path :
  map filepath.Ext ["/in/test.MP4"; "a.b/c"; "x.tar.gz"] = [".MP4"; EmptyString; ".gz"].
Proof. reflexivity. Qed.

(** ** Lists and integers *)

Lemma len_nonneg {A} (l : list A) : 0 <= len l.
Proof. unfold len. lia. Qed.

Lemma len_app {A} (l1 l2 : list A) : len (l1 ++ l2) = len l1 + len l2.
Proof. unfold len. rewrite length_app. lia. Qed.

Lemma take_drop_upto {A} (n : Z) (l : list A) :
  take_upto n l ++ drop_upto n l = l.
Proof.
  revert n. induction l as [|x l IH]; intros n; simpl; [done|].
  destruct (n <=? 0); simpl; [done|]. by rewrite IH.
Qed.

Lemma len_take_upto {A} (n : Z) (l : list A) :
  len (take_upto n l) = Z.min (Z.max 0 n) (len l).
Proof.
  revert n. induction l as [|x l IH]; intros n; simpl.
  - unfold len; simpl. lia.
  - destruct (Z.leb_spec n 0).
    + unfold len; simpl. lia.
    + unfold len in *; simpl. specialize (IH (n - 1)). lia.
Qed.

Lemma len_drop_upto {A} (n : Z) (l : list A) :
  len (drop_upto n l) = len l - Z.min (Z.max 0 n) (len l).
Proof.
  pose proof (take_drop_upto n l) as H.
  apply (f_equal len) in H. rewrite len_app, len_take_upto in H. lia.
Qed.

Lemma len_cons {A} (x : A) (l : list A) : len (x :: l) = 1 + len l.
Proof. unfold len. simpl length. lia. Qed.

Lemma wrap64_small (x : Z) : - 2 ^ 63 <= x <= max_int64 -> wrap64 x = x.
Proof.
  unfold wrap64, max_int64. intros H.
  rewrite Z.mod_small; lia.
Qed.

(** Rounding up a quotient. *)
Lemma ceil_div (n s : Z) :
  0 <= n -> 0 < s ->
  (n + s - 1) / s = n / s + (if n mod s =? 0 then 0 else 1).
Proof.
  intros Hn Hs.
  pose proof (Z.div_mod n s ltac:(lia)) as Hdm.
  pose proof (Z.mod_pos_bound n s Hs) as Hb.
  destruct (Z.eqb_spec (n mod s) 0) as [E|E].
  - symmetry. apply (Z.div_unique _ _ _ (s - 1)); lia.
  - symmetry. apply (Z.div_unique _ _ _ (n mod s - 1)); lia.
Qed.

(** ** The chunk producer *)
Module chunker_facts.
Import chunker.

Lemma sizes_short (n s : Z) : 0 <= n < s -> sizes n s = if n =? 0 then [] else [n].
Proof.
  intros H. unfold sizes.
  rewrite Z.div_small, Z.mod_small by lia. reflexivity.
Qed.

Lemma sizes_step (n s : Z) : 0 < s <= n -> sizes n s = s :: sizes (n - s) s.
Proof.
  intros H. unfold sizes.
  assert (n / s = (n - s) / s + 1) as Hq.
  { replace n with ((n - s) + 1 * s) at 1 by lia. apply Z.div_add. lia. }
  assert (n mod s = (n - s) mod s) as Hr.
  { replace n with ((n - s) + 1 * s) at 1 by lia. apply Z_mod_plus_full. }
  assert (0 <= (n - s) / s) by (apply Z.div_pos; lia).
  rewrite Hq, Hr.
  replace (Z.to_nat ((n - s) / s + 1)) with (S (Z.to_nat ((n - s) / s))) by lia.
  reflexivity.
Qed.

Lemma loop_sizes now s fuel : forall idx rest,
  0 < s -> (length rest < fuel)%nat ->
  map (fun c => len (Data c)) (loop fuel now s idx rest false) = sizes (len rest) s.
Proof.
  induction fuel as [|fuel IH]; intros idx rest Hs Hf; [lia|].
  simpl. pose proof (len_take_upto s rest) as Ht.
  pose proof (len_nonneg rest) as Hn.
  destruct (Z.ltb_spec (len (take_upto s rest)) s) as [Hlt|Hge].
  - rewrite sizes_short by lia.
    assert (len (take_upto s rest) = len rest) as E by lia.
    rewrite E.
    destruct (Z.ltb_spec 0 (len rest)), (Z.eqb_spec (len rest) 0); try lia; [|done].
    simpl. by rewrite E.
  - rewrite sizes_step by lia. simpl. f_equal; [lia|].
    rewrite IH.
    + f_equal. rewrite len_drop_upto. lia.
    + done.
    + pose proof (len_drop_upto s rest). unfold len in *. lia.
Qed.

(** Fuel beyond the number of bytes changes nothing: the loop has reached
    its [break]. *)
Lemma loop_fuel now s fuel : forall fuel' idx rest bad,
  0 < s -> (length rest < fuel)%nat -> (length rest < fuel')%nat ->
  loop fuel now s idx rest bad = loop fuel' now s idx rest bad.
Proof.
  induction fuel as [|fuel IH]; intros fuel' idx rest bad Hs Hf Hf'; [lia|].
  destruct fuel' as [|fuel']; [lia|].
  simpl. pose proof (len_take_upto s rest) as Ht.
  pose proof (len_drop_upto s rest) as Hd.
  destruct (Z.ltb_spec (len (take_upto s rest)) s) as [Hlt|Hge]; [done|].
  f_equal. apply IH; [done|unfold len in *; lia..].
Qed.

Lemma loop_indices now s fuel : forall idx rest bad,
  0 < s -> 0 <= idx -> idx + len rest <= max_int64 ->
  map Index (loop fuel now s idx rest bad)
  = seqZ idx (len (loop fuel now s idx rest bad)).
Proof.
  induction fuel as [|fuel IH]; intros idx rest bad Hs Hi Hb; [done|].
  simpl. pose proof (len_take_upto s rest) as Ht.
  pose proof (len_nonneg rest) as Hn.
  destruct (Z.ltb_spec (len (take_upto s rest)) s) as [Hlt|Hge].
  - destruct bad; [done|]. destruct (0 <? _); done.
  - rewrite len_cons.
    rewrite seqZ_cons by (pose proof (len_nonneg (loop fuel now s (wrap64 (idx + 1)) (drop_upto s rest) bad)); lia).
    simpl. f_equal.
    rewrite wrap64_small by (unfold max_int64 in *; lia).
    rewrite IH.
    + f_equal; lia.
    + done.
    + lia.
    + rewrite len_drop_upto. lia.
Qed.

(** The chunks are the bytes that were read, in order; all of them when
    the stream ends at the end of the file. *)
Lemma loop_data now s fuel : forall idx rest,
  0 < s -> (length rest < fuel)%nat ->
  concat (map Data (loop fuel now s idx rest false)) = rest.
Proof.
  induction fuel as [|fuel IH]; intros idx rest Hs Hf; [lia|].
  simpl. pose proof (len_take_upto s rest) as Ht.
  pose proof (take_drop_upto s rest) as Htd.
  pose proof (len_drop_upto s rest) as Hd.
  pose proof (len_nonneg rest) as Hn.
  destruct (Z.ltb_spec (len (take_upto s rest)) s) as [Hlt|Hge].
  - assert (drop_upto s rest = []) as Hnil.
    { apply length_zero_iff_nil. unfold len in *. lia. }
    rewrite Hnil, app_nil_r in Htd.
    destruct (Z.ltb_spec 0 (len (take_upto s rest))).
    + simpl. by rewrite app_nil_r.
    + simpl. rewrite <- Htd. symmetry. apply length_zero_iff_nil.
      unfold len in *. lia.
  - simpl. rewrite IH; [done|done|]. unfold len in *. lia.
Qed.

Lemma loop_total now s fuel : forall idx rest bad,
  0 < s ->
  len (concat (map Data (loop fuel now s idx rest bad))) <= len rest.
Proof.
  induction fuel as [|fuel IH]; intros idx rest bad Hs.
  { simpl. apply len_nonneg. }
  simpl. pose proof (len_take_upto s rest) as Ht.
  pose proof (len_drop_upto s rest) as Hd.
  pose proof (len_nonneg rest) as Hn.
  destruct (Z.ltb_spec (len (take_upto s rest)) s) as [Hlt|Hge].
  - destruct bad; [done|].
    destruct (0 <? _); simpl; [|done].
    rewrite app_nil_r. lia.
  - simpl. rewrite len_app.
    specialize (IH (wrap64 (idx + 1)) (drop_upto s rest) bad Hs). lia.
Qed.

Lemma loop_nonempty now s fuel : forall idx rest bad c,
  0 < s -> c ∈ loop fuel now s idx rest bad -> 0 < len (Data c).
Proof.
  induction fuel as [|fuel IH]; intros idx rest bad c Hs Hc.
  { by apply elem_of_nil in Hc. }
  simpl in Hc.
  destruct (Z.ltb_spec (len (take_upto s rest)) s) as [Hlt|Hge].
  - destruct bad; [by apply elem_of_nil in Hc|].
    destruct (Z.ltb_spec 0 (len (take_upto s rest))).
    + apply list_elem_of_singleton in Hc. by subst.
    + by apply elem_of_nil in Hc.
  - apply elem_of_cons in Hc as [->|Hc]; [simpl; lia|]. eauto.
Qed.

Lemma loop_checksum now s fuel : forall idx rest bad c,
  c ∈ loop fuel now s idx rest bad ->
  Checksum c = hex.EncodeToString (sha256.Sum256 (Data c)).
Proof.
  induction fuel as [|fuel IH]; intros idx rest bad c Hc.
  { by apply elem_of_nil in Hc. }
  simpl in Hc.
  destruct (len (take_upto s rest) <? s).
  - destruct bad; [by apply elem_of_nil in Hc|].
    destruct (0 <? _).
    + apply list_elem_of_singleton in Hc. by subst.
    + by apply elem_of_nil in Hc.
  - apply elem_of_cons in Hc as [->|Hc]; [done|]. eauto.
Qed.

End chunker_facts.

Lemma readable_clean (f : File) : snd (readable f) = false -> fst (readable f) = content f.
Proof.
  unfold readable. destruct (io_error_at f) as [e|]; [|done].
  destruct (e <? length (content f))%nat; [discriminate|done].
Qed.

Lemma readable_prefix (f : File) : len (fst (readable f)) <= len (content f).
Proof.
  unfold readable. destruct (io_error_at f) as [e|]; [|simpl; lia].
  destruct (e <? length (content f))%nat; simpl; [|lia].
  unfold len. rewrite length_take. lia.
Qed.

Module chunker_props.
Import chunker chunker_facts.

Lemma len_sizes (n s : Z) :
  0 <= n -> 0 < s -> len (sizes n s) = (n + s - 1) / s.
Proof.
  intros Hn Hs. rewrite ceil_div by done. unfold sizes.
  rewrite len_app. unfold len at 1. rewrite length_replicate.
  assert (0 <= n / s) by (apply Z.div_pos; lia).
  destruct (n mod s =? 0); unfold len; simpl; lia.
Qed.

Lemma sizes_full (n s : Z) (k : nat) (x : Z) :
  sizes n s !! k = Some x -> Z.of_nat k < n / s -> x = s.
Proof.
  intros Hk Hlt. unfold sizes in Hk.
  rewrite lookup_app_l in Hk by (rewrite length_replicate; lia).
  by apply lookup_replicate in Hk as [-> _].
Qed.

Lemma sizes_last (n s : Z) :
  0 < n -> 0 < s ->
  last (sizes n s) = Some (if n mod s =? 0 then s else n mod s).
Proof.
  intros Hn Hs. unfold sizes.
  destruct (Z.eqb_spec (n mod s) 0) as [E|E].
  - rewrite app_nil_r.
    assert (0 < n / s).
    { apply Z.div_str_pos. split; [done|].
      destruct (Z.le_gt_cases s n); [done|].
      rewrite Z.mod_small in E; lia. }
    destruct (Z.to_nat (n / s)) as [|m] eqn:Em; [lia|].
    replace (S m) with (m + 1)%nat by lia.
    rewrite replicate_add. simpl. by rewrite last_snoc.
  - by rewrite last_snoc.
Qed.

Lemma ChunkFile_opens files now path chunkSize :
  is_Some (files !! path) -> 0 < chunkSize ->
  exists cs, ChunkFile files now path chunkSize = Chunks cs.
Proof.
  intros [f Hf] Hs. unfold ChunkFile. rewrite Hf.
  destruct (Z.ltb_spec chunkSize 0); [lia|].
  destruct (Z.eqb_spec chunkSize 0); [lia|].
  destruct (readable f). eauto.
Qed.

Lemma ChunkFile_within files now path chunkSize f cs :
  files !! path = Some f ->
  ChunkFile files now path chunkSize = Chunks cs ->
  len (concat (map Data cs)) <= len (content f)
  /\ (forall c, c ∈ cs -> 0 < len (Data c)).
Proof.
  unfold ChunkFile. intros -> Hrun.
  destruct (Z.ltb_spec chunkSize 0); [discriminate|].
  destruct (Z.eqb_spec chunkSize 0); [discriminate|].
  pose proof (readable_prefix f) as Hpre.
  destruct (readable f) as [data bad]. simpl in Hpre.
  injection Hrun as <-. split.
  - eapply Z.le_trans; [|exact Hpre].
    exact (loop_total now chunkSize (S (length data)) 0 data bad ltac:(lia)).
  - intros c Hc.
    apply (loop_nonempty now chunkSize (S (length data)) 0 data bad); [lia|exact Hc].
Qed.

(** C4. A file of N > 0 bytes that opens and reads without error is cut,
    for a chunk size S > 0, into ceil(N/S) chunks with the indices 0, 1,
    ..., ceil(N/S) - 1 in this order; the first floor(N/S) chunks have S
    bytes, and the last one has N mod S bytes when that is not 0, and S
    bytes otherwise. (N is the size of a file, so within int64.) *)
Theorem ChunkFile_count_and_sizes
  (files : gmap string File) (now : Z -> Z) (path : string) (f : File)
  (chunkSize : Z) :
  files !! path = Some f ->
  snd (readable f) = false ->
  0 < len (content f) <= max_int64 ->
  0 < chunkSize ->
  exists cs,
    ChunkFile files now path chunkSize = Chunks cs
    /\ len cs = (len (content f) + chunkSize - 1) / chunkSize
    /\ map Index cs = seqZ 0 ((len (content f) + chunkSize - 1) / chunkSize)
    /\ (forall (k : nat) c, cs !! k = Some c ->
          Z.of_nat k < len (content f) / chunkSize -> len (Data c) = chunkSize)
    /\ (exists c, last cs = Some c
          /\ len (Data c) = if len (content f) mod chunkSize =? 0 then chunkSize
                            else len (content f) mod chunkSize).
Proof.
  intros Hf Hclean [Hpos Hmax] Hs.
  unfold ChunkFile. rewrite Hf.
  destruct (Z.ltb_spec chunkSize 0); [lia|].
  destruct (Z.eqb_spec chunkSize 0); [lia|].
  pose proof (readable_clean f Hclean) as Hdata.
  destruct (readable f) as [data bad]. simpl in Hclean, Hdata. subst bad data.
  set (cs := loop _ _ _ _ _ _).
  assert (map (fun c => len (Data c)) cs = sizes (len (content f)) chunkSize) as Hsz.
  { apply loop_sizes; [done|lia]. }
  assert (len cs = (len (content f) + chunkSize - 1) / chunkSize) as Hlen.
  { rewrite <- len_sizes by lia. rewrite <- Hsz. unfold len. by rewrite length_map. }
  exists cs. split; [done|]. split; [done|]. split; [|split].
  - rewrite <- Hlen. apply loop_indices; lia.
  - intros k c Hk Hlt.
    apply (sizes_full (len (content f)) chunkSize k); [|done].
    rewrite <- Hsz, list_lookup_fmap, Hk. done.
  - pose proof (sizes_last (len (content f)) chunkSize Hpos Hs) as Hl.
    rewrite <- Hsz in Hl. rewrite fmap_last in Hl.
    destruct (last cs) as [c|]; [|done].
    exists c. split; [done|]. simpl in Hl. by injection Hl.
Qed.

(** C9. The checksum of every chunk that the producer emits is the
    lowercase hex text of the SHA-256 digest of the chunk's data. *)
Theorem ChunkFile_checksum
  (files : gmap string File) (now : Z -> Z) (path : string) (chunkSize : Z)
  (cs : list Chunk) (c : Chunk) :
  ChunkFile files now path chunkSize = Chunks cs ->
  c ∈ cs ->
  Checksum c = hex.EncodeToString (sha256.Sum256 (Data c)).
Proof.
  unfold ChunkFile. intros Hrun Hc.
  destruct (files !! path) as [f|]; [|discriminate].
  destruct (chunkSize <? 0); [discriminate|].
  destruct (chunkSize =? 0); [discriminate|].
  destruct (readable f) as [data bad].
  injection Hrun as <-.
  apply (loop_checksum now chunkSize (S (length data)) 0 data bad). exact Hc.
Qed.

End chunker_props.

(** ** The adapters, call by call *)

Lemma goes_through_next n plan :
  goes_through (S n) plan = true ->
  fst (next_fault plan) = false /\ goes_through n (snd (next_fault plan)) = true.
Proof.
  destruct plan as [|b plan]; simpl.
  - by destruct n.
  - intros [Hb H]%andb_true_iff. by destruct b.
Qed.

Lemma goes_through_all n plan :
  forallb negb plan = true -> goes_through n plan = true.
Proof.
  revert plan. induction n as [|n IH]; intros [|b plan]; simpl; try done.
  intros [Hb H]%andb_true_iff. rewrite Hb. simpl. auto.
Qed.

Ltac split_fault :=
  match goal with
  | |- context [next_fault ?p] =>
      let down := fresh "down" in
      let plan := fresh "plan" in
      destruct (next_fault p) as [down plan] eqn:?; destruct down
  end.

Module redisstore_facts.
Import redisstore.

Lemma GetValue_spec key w :
  exists res err w', GetValue key w = (res, err, w')
    /\ trace w' = trace w ++ [EvGetValue key res err]
    /\ kv w' = kv w /\ expiry w' = expiry w /\ redis_frame w w'
    /\ redis_faults w' = snd (next_fault (redis_faults w))
    /\ (err = None -> kv w !! key = Some res)
    /\ (fst (next_fault (redis_faults w)) = false ->
          res = default EmptyString (kv w !! key)).
Proof.
  unfold GetValue, redis.Get. split_fault.
  - do 3 eexists. repeat split; simpl; try reflexivity; discriminate.
  - simpl. destruct (kv w !! key) as [v|] eqn:E;
      do 3 eexists; repeat split; simpl; try reflexivity; try discriminate; done.
Qed.

Lemma GetStreamStatus_spec sid w :
  exists res err w', GetStreamStatus sid w = (res, err, w')
    /\ trace w' = trace w ++ [EvGetStreamStatus sid res err]
    /\ kv w' = kv w /\ expiry w' = expiry w /\ redis_frame w w'
    /\ redis_faults w' = snd (next_fault (redis_faults w))
    /\ (err = None -> kv w !! status_key sid = Some res)
    /\ (fst (next_fault (redis_faults w)) = false ->
          res = default EmptyString (kv w !! status_key sid)).
Proof.
  unfold GetStreamStatus, redis.Get. split_fault.
  - do 3 eexists. repeat split; simpl; try reflexivity; discriminate.
  - simpl. destruct (kv w !! status_key sid) as [v|] eqn:E;
      do 3 eexists; repeat split; simpl; try reflexivity; try discriminate; done.
Qed.

Lemma IsChunkUploaded_spec sid i w :
  exists ok err w', IsChunkUploaded sid i w = (ok, err, w')
    /\ trace w' = trace w ++ [EvIsChunkUploaded sid i ok err]
    /\ kv w' = kv w /\ expiry w' = expiry w /\ redis_frame w w'.
Proof.
  unfold IsChunkUploaded, redis.Get. split_fault.
  - do 3 eexists. repeat split; simpl; reflexivity.
  - simpl. destruct (kv w !! chunk_key sid i) as [v|] eqn:E;
      do 3 eexists; repeat split; simpl; reflexivity.
Qed.

Lemma SetChunkUploaded_spec sid i w :
  exists err w', SetChunkUploaded sid i w = (err, w')
    /\ trace w' = trace w ++ [EvSetChunkUploaded sid i err]
    /\ redis_frame w w'.
Proof.
  unfold SetChunkUploaded, redis.Set_. split_fault;
    do 2 eexists; repeat split; simpl; reflexivity.
Qed.

Lemma SetStreamProgress_spec sid i w :
  exists err w', SetStreamProgress sid i w = (err, w')
    /\ trace w' = trace w ++ [EvSetStreamProgress sid i err]
    /\ redis_frame w w'
    /\ (err = None -> kv w' !! progress_key sid = Some (strconv.Itoa i)).
Proof.
  unfold SetStreamProgress, redis.Set_. split_fault;
    do 2 eexists; repeat split; simpl; try reflexivity; try discriminate.
  intros _. apply lookup_insert_eq.
Qed.

Lemma SetStreamStatus_spec sid st w :
  exists err w', SetStreamStatus sid st w = (err, w')
    /\ trace w' = trace w ++ [EvSetStreamStatus sid st err]
    /\ redis_frame w w'
    /\ (err = None -> kv w' !! status_key sid = Some st)
    /\ (err <> None -> kv w' = kv w).
Proof.
  unfold SetStreamStatus, redis.Set_. split_fault;
    do 2 eexists; repeat split; simpl; try reflexivity; try discriminate; try done.
  intros _. apply lookup_insert_eq.
Qed.

Lemma formatSec_pos (ttl : Z) : 0 < ttl -> 0 < redis.formatSec ttl.
Proof.
  intros H. unfold redis.formatSec.
  destruct (Z.ltb_spec 0 ttl); [|lia].
  destruct (Z.ltb_spec ttl Second); cbn; [lia|].
  apply Z.quot_str_pos. unfold Second in *. lia.
Qed.

Lemma formatSec_whole (n : Z) : 0 < n -> redis.formatSec (n * Second) = n.
Proof.
  intros H. unfold redis.formatSec.
  destruct (Z.ltb_spec (n * Second) Second); [unfold Second in *; lia|].
  rewrite andb_false_r. apply Z.quot_mul. by unfold Second.
Qed.

Lemma SetStreamTTL_spec sid ttl w :
  0 < ttl ->
  exists err w', SetStreamTTL sid ttl w = (err, w')
    /\ trace w' = trace w ++ [EvSetStreamTTL sid ttl err]
    /\ kv w' = kv w /\ redis_frame w w'.
Proof.
  intros Hpos%formatSec_pos.
  unfold SetStreamTTL, redis.Expire. split_fault.
  - do 2 eexists; repeat split; simpl; reflexivity.
  - simpl. destruct (kv w !! status_key sid) eqn:E.
    + destruct (Z.leb_spec (redis.formatSec ttl) 0); [lia|].
      do 2 eexists; repeat split; simpl; reflexivity.
    + do 2 eexists; repeat split; simpl; reflexivity.
Qed.

Lemma ttl_7d_pos : 0 < app.ttl_7d.
Proof. reflexivity. Qed.

(** Seven days are whole seconds: the time to live is the time asked. *)
Lemma formatSec_7d :
  redis.formatSec app.ttl_7d * Second = app.ttl_7d
  /\ (redis.formatSec app.ttl_7d <=? 0) = false.
Proof. split; vm_compute; reflexivity. Qed.

Lemma set_expiry_7d key (e : gmap string Z) :
  redis.set_expiry key app.ttl_7d e = <[key := app.ttl_7d]> e.
Proof.
  unfold redis.set_expiry.
  replace (0 <? app.ttl_7d) with true by (vm_compute; reflexivity).
  replace (redis.usePrecise app.ttl_7d) with false by (vm_compute; reflexivity).
  by rewrite (proj1 formatSec_7d).
Qed.

Lemma SetValue_spec key v ttl w :
  exists err w', SetValue key v ttl w = (err, w')
    /\ trace w' = trace w ++ [EvSetValue key v ttl err]
    /\ redis_frame w w'
    /\ (err = None -> kv w' !! key = Some v).
Proof.
  unfold SetValue, redis.Set_. split_fault;
    do 2 eexists; repeat split; simpl; try reflexivity; try discriminate.
  intros _. apply lookup_insert_eq.
Qed.

Lemma DeleteKey_spec key w :
  exists err w', DeleteKey key w = (err, w')
    /\ trace w' = trace w ++ [EvDeleteKey key err]
    /\ redis_frame w w'
    /\ (err = None -> kv w' !! key = None).
Proof.
  unfold DeleteKey, redis.Del. split_fault;
    do 2 eexists; repeat split; simpl; try reflexivity; try discriminate.
  intros _. apply lookup_delete_eq.
Qed.

(** A lookup that returns a text that is not empty has found it in
    Redis, and returns no error. *)
Lemma GetValue_found key w :
  fst (fst (GetValue key w)) <> EmptyString ->
  snd (fst (GetValue key w)) = None
  /\ kv w !! key = Some (fst (fst (GetValue key w))).
Proof.
  unfold GetValue, redis.Get. split_fault; simpl; [done|].
  destruct (kv w !! key); simpl; done.
Qed.

Lemma GetStreamStatus_found sid w :
  fst (fst (GetStreamStatus sid w)) <> EmptyString ->
  snd (fst (GetStreamStatus sid w)) = None
  /\ kv w !! status_key sid = Some (fst (fst (GetStreamStatus sid w))).
Proof.
  unfold GetStreamStatus, redis.Get. split_fault; simpl; [done|].
  destruct (kv w !! status_key sid); simpl; done.
Qed.

(** A key that is not in Redis, looked up through each of the three
    lookups of the adapter. *)
Lemma GetValue_absent key w :
  kv w !! key = None ->
  fst (next_fault (redis_faults w)) = false ->
  fst (GetValue key w) = (EmptyString, Some redis_Nil).
Proof.
  intros Hk Hup. unfold GetValue, redis.Get.
  destruct (next_fault (redis_faults w)) as [down plan]. simpl in Hup. subst down.
  simpl. by rewrite Hk.
Qed.

Lemma GetStreamStatus_absent sid w :
  kv w !! status_key sid = None ->
  fst (next_fault (redis_faults w)) = false ->
  fst (GetStreamStatus sid w) = (EmptyString, Some redis_Nil).
Proof.
  intros Hk Hup. unfold GetStreamStatus, redis.Get.
  destruct (next_fault (redis_faults w)) as [down plan]. simpl in Hup. subst down.
  simpl. by rewrite Hk.
Qed.

Lemma IsChunkUploaded_absent sid i w :
  kv w !! chunk_key sid i = None ->
  fst (next_fault (redis_faults w)) = false ->
  fst (IsChunkUploaded sid i w) = (false, None).
Proof.
  intros Hk Hup. unfold IsChunkUploaded, redis.Get.
  destruct (next_fault (redis_faults w)) as [down plan]. simpl in Hup. subst down.
  simpl. by rewrite Hk.
Qed.

Lemma status_key_not_progress_key sid : status_key sid <> progress_key sid.
Proof. unfold status_key, progress_key. simpl. discriminate. Qed.

End redisstore_facts.

Module s3uploader_facts.
Import s3uploader.

Lemma UploadChunk_spec sid i data w :
  exists err w', UploadChunk sid i data w = (err, w')
    /\ trace w' = trace w ++ [EvUploadChunk sid i data err]
    /\ s3_frame w w'
    /\ objects w' = match err with
                    | None => <[chunk_object sid i := mkObject data EmptyString]> (objects w)
                    | Some _ => objects w
                    end.
Proof.
  unfold UploadChunk, PutObject. split_fault;
    do 2 eexists; repeat split; simpl; reflexivity.
Qed.

Lemma UploadMetadata_spec sid data w :
  exists err w', UploadMetadata sid data w = (err, w')
    /\ trace w' = trace w ++ [EvUploadMetadata sid data err]
    /\ s3_frame w w'
    /\ objects w' = match err with
                    | None => <[metadata_object sid := mkObject data "application/json"]> (objects w)
                    | Some _ => objects w
                    end.
Proof.
  unfold UploadMetadata, PutObject. split_fault;
    do 2 eexists; repeat split; simpl; reflexivity.
Qed.

End s3uploader_facts.

(** ** The file processor *)
Module app_facts.
Import app.

Section WithTimeFormat.
Variable RFC3339 : Z -> string.

Lemma process_chunk_spec sid c metas total w :
  exists b t metas' total' w',
    process_chunk sid c (metas, total, w) = (metas', total', w')
    /\ turn sid c b t
    /\ trace w' = trace w ++ t
    /\ fs w' = fs w /\ clock w' = clock w
    /\ if b then
         metas' = metas ++ [meta_of c]
         /\ total' = wrap64 (total + len (chunker.Data c))
         /\ objects w' = <[s3uploader.chunk_object sid (chunker.Index c)
                            := mkObject (chunker.Data c) EmptyString]> (objects w)
       else metas' = metas /\ total' = total /\ objects w' = objects w.
Proof.
  unfold process_chunk.
  destruct (redisstore_facts.IsChunkUploaded_spec sid (chunker.Index c) w)
    as (ok & err & w1 & -> & T1 & _ & _ & F1).
  destruct F1 as (Hfs1 & Hck1 & Hob1 & _).
  destruct err as [e|].
  { exists false. do 4 eexists. split; [reflexivity|].
    split; [apply turn_lookup_failed|]. simpl. by rewrite T1, Hfs1, Hck1, Hob1. }
  destruct ok.
  { exists false. do 4 eexists. split; [reflexivity|].
    split; [apply turn_already_uploaded|]. by rewrite T1, Hfs1, Hck1, Hob1. }
  destruct (s3uploader_facts.UploadChunk_spec sid (chunker.Index c) (chunker.Data c) w1)
    as (err & w2 & -> & T2 & F2 & Hob2).
  destruct F2 as (Hfs2 & Hck2 & _).
  destruct err as [e|].
  { exists false. do 4 eexists. split; [reflexivity|].
    split; [apply turn_upload_failed|]. simpl.
    rewrite T2, T1, Hfs2, Hfs1, Hck2, Hck1, Hob2, Hob1, <- app_assoc. done. }
  destruct (redisstore_facts.SetChunkUploaded_spec sid (chunker.Index c) w2)
    as (e1 & w3 & -> & T3 & F3).
  destruct F3 as (Hfs3 & Hck3 & Hob3 & _).
  set (w4 := metrics_.ChunksUploaded_Inc
               match e1 with Some _ => metrics_.RedisErrors_Inc w3 | None => w3 end).
  assert (trace w4 = trace w3 /\ fs w4 = fs w3 /\ clock w4 = clock w3
          /\ objects w4 = objects w3) as (T4 & Hfs4 & Hck4 & Hob4).
  { unfold w4. destruct e1; done. }
  destruct (redisstore_facts.SetStreamProgress_spec sid (chunker.Index c) w4)
    as (e2 & w5 & -> & T5 & F5 & _).
  destruct F5 as (Hfs5 & Hck5 & Hob5 & _).
  exists true. do 4 eexists. split; [reflexivity|].
  split; [apply (turn_uploaded sid c e1 e2)|].
  rewrite T5, T4, T3, T2, T1, Hfs5, Hfs4, Hfs3, Hfs2, Hfs1.
  rewrite Hck5, Hck4, Hck3, Hck2, Hck1, Hob5, Hob4, Hob3, Hob2, Hob1.
  rewrite <- !app_assoc. done.
Qed.

Lemma range_chunks_spec sid cs : forall metas total w,
  exists ups ts metas' total' w',
    range_chunks sid cs (metas, total, w) = (metas', total', w')
    /\ turns sid cs ups ts
    /\ trace w' = trace w ++ ts
    /\ fs w' = fs w /\ clock w' = clock w
    /\ metas' = metas ++ map meta_of ups
    /\ total' = added_up ups total
    /\ (forall k, is_Some (objects w !! k) -> is_Some (objects w' !! k))
    /\ (forall c, c ∈ ups ->
          is_Some (objects w' !! s3uploader.chunk_object sid (chunker.Index c))).
Proof.
  induction cs as [|c cs IH]; intros metas total w.
  { exists [], []. do 3 eexists. split; [reflexivity|].
    split; [constructor|]. rewrite !app_nil_r. repeat split; try done.
    intros c Hc. by apply elem_of_nil in Hc. }
  cbn [range_chunks].
  destruct (process_chunk_spec sid c metas total w)
    as (b & t & metas1 & total1 & w1 & -> & Hturn & T1 & Hfs1 & Hck1 & Hb).
  destruct (IH metas1 total1 w1)
    as (ups & ts & metas' & total' & w' & -> & Hturns & T & Hfs & Hck & Hm & Ht & Hmono & Hups).
  destruct b.
  - destruct Hb as (-> & -> & Hob).
    exists (c :: ups), (t ++ ts). do 3 eexists. split; [reflexivity|].
    split; [by apply turns_upload|].
    split_and!.
    + by rewrite T, T1, app_assoc.
    + congruence.
    + congruence.
    + rewrite Hm. simpl. by rewrite <- app_assoc.
    + done.
    + intros k Hk. apply Hmono. rewrite Hob.
      destruct (decide (s3uploader.chunk_object sid (chunker.Index c) = k)) as [->|Hne].
      * rewrite lookup_insert_eq. eauto.
      * by rewrite lookup_insert_ne.
    + intros c' Hc'. apply elem_of_cons in Hc' as [->|Hc']; [|by apply Hups].
      apply Hmono. rewrite Hob, lookup_insert_eq. eauto.
  - destruct Hb as (-> & -> & Hob).
    exists ups, (t ++ ts). do 3 eexists. split; [reflexivity|].
    split; [by apply turns_skip|].
    split_and!.
    + by rewrite T, T1, app_assoc.
    + congruence.
    + congruence.
    + done.
    + done.
    + intros k Hk. apply Hmono. by rewrite Hob.
    + done.
Qed.

Lemma finish_spec sid metas total w :
  exists e6 e7 e8,
    trace (finish RFC3339 sid (metas, total, w))
    = trace w ++ [EvUploadMetadata sid (json_Marshal RFC3339 (mkMetadata total metas)) e6;
                  EvSetStreamStatus sid "completed" e7;
                  EvSetStreamTTL sid ttl_7d e8]
    /\ fs (finish RFC3339 sid (metas, total, w)) = fs w
    /\ (forall k, is_Some (objects w !! k) ->
          is_Some (objects (finish RFC3339 sid (metas, total, w)) !! k))
    /\ (e7 = None ->
          kv (finish RFC3339 sid (metas, total, w)) !! redisstore.status_key sid
          = Some "completed").
Proof.
  unfold finish.
  destruct (s3uploader_facts.UploadMetadata_spec sid
              (json_Marshal RFC3339 (mkMetadata total metas)) w)
    as (e6 & w1 & -> & T1 & F1 & Hob1).
  destruct F1 as (Hfs1 & _).
  set (w2 := match e6 with Some _ => metrics_.UploadFailures_Inc w1 | None => w1 end).
  assert (trace w2 = trace w1 /\ fs w2 = fs w1 /\ objects w2 = objects w1)
    as (T2 & Hfs2 & Hob2) by (unfold w2; destruct e6; done).
  destruct (redisstore_facts.SetStreamStatus_spec sid "completed" w2)
    as (e7 & w3 & -> & T3 & F3 & Hst & _).
  destruct F3 as (Hfs3 & _ & Hob3 & _).
  destruct (redisstore_facts.SetStreamTTL_spec sid ttl_7d w3 redisstore_facts.ttl_7d_pos)
    as (e8 & w4 & -> & T4 & Hkv4 & F4).
  destruct F4 as (Hfs4 & _ & Hob4 & _).
  exists e6, e7, e8. split_and!.
  - rewrite T4, T3, T2, T1, <- !app_assoc. done.
  - congruence.
  - intros k Hk. rewrite Hob4, Hob3, Hob2, Hob1.
    destruct e6; [done|].
    destruct (decide (s3uploader.metadata_object sid = k)) as [->|Hne].
    + rewrite lookup_insert_eq. eauto.
    + by rewrite lookup_insert_ne.
  - intros He. rewrite Hkv4. auto.
Qed.

Lemma reset_if_changed_spec sid prev h w :
  exists reset,
    reset_events sid prev h reset
    /\ trace (reset_if_changed sid prev h w) = trace w ++ reset
    /\ fs (reset_if_changed sid prev h w) = fs w
    /\ clock (reset_if_changed sid prev h w) = clock w
    /\ objects (reset_if_changed sid prev h w) = objects w.
Proof.
  unfold reset_if_changed, reset_events.
  destruct (negb (String.eqb prev EmptyString) && negb (String.eqb prev h)).
  - destruct (redisstore_facts.DeleteKey_spec (redisstore.status_key sid) w)
      as (e4 & w1 & -> & T1 & F1 & _).
    destruct F1 as (Hfs1 & Hck1 & Hob1 & _).
    destruct (redisstore_facts.SetStreamProgress_spec sid 0 w1)
      as (e5 & w2 & -> & T2 & F2 & _).
    destruct F2 as (Hfs2 & Hck2 & Hob2 & _).
    eexists. split; [by exists e4, e5|].
    rewrite T2, T1, <- app_assoc. split_and!; [done|congruence..].
  - exists []. rewrite app_nil_r. done.
Qed.

(** With Redis answering, the reset leaves no status and a progress of 0. *)
Lemma reset_clears_status sid prev h w :
  prev <> EmptyString -> prev <> h ->
  goes_through 2 (redis_faults w) = true ->
  kv (reset_if_changed sid prev h w) !! redisstore.status_key sid = None
  /\ kv (reset_if_changed sid prev h w) !! redisstore.progress_key sid = Some "0".
Proof.
  intros Hne1 Hne2 Hup.
  apply goes_through_next in Hup as [Hup1 Hup2].
  apply goes_through_next in Hup2 as [Hup2 _].
  unfold reset_if_changed.
  destruct (String.eqb_spec prev EmptyString) as [|_]; [done|].
  destruct (String.eqb_spec prev h) as [|_]; [done|].
  simpl. unfold redisstore.DeleteKey, redisstore.SetStreamProgress, redis.Del, redis.Set_.
  destruct (next_fault (redis_faults w)) as [d1 p1]. simpl in Hup1, Hup2. subst d1.
  simpl. destruct (next_fault p1) as [d2 p2]. simpl in Hup2. subst d2.
  simpl. split.
  - rewrite lookup_insert_ne by (apply not_eq_sym, redisstore_facts.status_key_not_progress_key).
    apply lookup_delete_eq.
  - apply lookup_insert_eq.
Qed.

Lemma fileHash_nonempty files path f :
  files !! path = Some f -> fileHash files path <> EmptyString.
Proof.
  intros Hf. unfold fileHash, sha256.Sum256. rewrite Hf.
  generalize (sha256.blocks
    (S (length (sha256.pad (map byte_val (take_upto (10 * 1024 * 1024) (fst (readable f)))))))
    sha256.init (sha256.pad (map byte_val (take_upto (10 * 1024 * 1024) (fst (readable f)))))).
  intros s. unfold sha256.out, sha256.be_bytes. simpl. discriminate.
Qed.

Lemma fileHash_opens files path :
  fileHash files path <> EmptyString -> is_Some (files !! path).
Proof. unfold fileHash. destruct (files !! path); [eauto|done]. Qed.

(** The reset, call by call: what it logs, and the state it leaves
    according to what the two calls returned. *)
Lemma reset_effect sid prev h w :
  prev <> EmptyString -> prev <> h ->
  exists e4 e5,
    trace (reset_if_changed sid prev h w)
    = trace w ++ [EvDeleteKey (redisstore.status_key sid) e4;
                  EvSetStreamProgress sid 0 e5]
    /\ objects (reset_if_changed sid prev h w) = objects w
    /\ (e4 = None -> kv (reset_if_changed sid prev h w) !! redisstore.status_key sid = None)
    /\ (e4 <> None -> e5 <> None -> kv (reset_if_changed sid prev h w) = kv w)
    /\ (e5 = None ->
        kv (reset_if_changed sid prev h w) !! redisstore.progress_key sid = Some "0")
    /\ (goes_through 2 (redis_faults w) = true -> e4 = None /\ e5 = None).
Proof.
  intros Hne1 Hne2.
  assert (goes_through 2 (redis_faults w) = true ->
          fst (next_fault (redis_faults w)) = false
          /\ fst (next_fault (snd (next_fault (redis_faults w)))) = false) as Hg.
  { intros [A Hgo]%goes_through_next. by apply goes_through_next in Hgo as [B _]. }
  pose proof (redisstore_facts.status_key_not_progress_key sid) as Hsp.
  unfold reset_if_changed.
  destruct (String.eqb_spec prev EmptyString) as [|_]; [done|].
  destruct (String.eqb_spec prev h) as [|_]; [done|].
  cbn [negb andb].
  unfold redisstore.DeleteKey, redisstore.SetStreamProgress, redis.Del, redis.Set_.
  destruct (next_fault (redis_faults w)) as [d1 p1] eqn:E1.
  destruct d1; cbn; destruct (next_fault p1) as [d2 p2] eqn:E2; destruct d2; cbn;
    do 2 eexists; (split; [by rewrite <- app_assoc|]); (split; [done|]);
    split_and!; try done;
    try (intros _;
         first [ apply lookup_insert_eq
               | apply lookup_delete_eq
               | rewrite lookup_insert_ne by (by apply not_eq_sym); apply lookup_delete_eq ]);
    try (intros Hgo; destruct (Hg Hgo) as [A B]; cbn in A, B;
         rewrite ?E2 in B; cbn in B; done).
Qed.

(** The shape of every run on a file that opens, for a chunk size above
    0: either the run stops after the two lookups, or it goes through the
    whole loop and sets the status. *)
Lemma processFile_run cfg file w :
  0 < ChunkSize cfg ->
  fileHash (fs w) file <> EmptyString ->
  let sid := filepath.Base file in
  let h := fileHash (fs w) file in
  exists prev e1 st e2 w',
    processFile RFC3339 cfg file w = Returns w'
    /\ fs w' = fs w
    /\ (fst (next_fault (redis_faults w)) = false ->
          prev = default EmptyString (kv w !! hash_key sid))
    /\ (fst (next_fault (snd (next_fault (redis_faults w)))) = false ->
          st = default EmptyString (kv w !! redisstore.status_key sid))
    /\ ((prev = h /\ st = "completed"
          /\ trace w' = trace w ++ [EvGetValue (hash_key sid) prev e1;
                                      EvGetStreamStatus sid st e2]
          /\ kv w' = kv w /\ expiry w' = expiry w /\ objects w' = objects w
          /\ metrics w' = metrics w
          /\ e1 = None /\ e2 = None
          /\ kv w !! hash_key sid = Some h
          /\ kv w !! redisstore.status_key sid = Some "completed")
        \/ (~ (prev = h /\ st = "completed")
            /\ exists reset e3 cs ups ts e6 e7 e8,
                chunker.ChunkFile (fs w) (clock w) file (ChunkSize cfg) = chunker.Chunks cs
                /\ turns sid cs ups ts
                /\ reset_events sid prev h reset
                /\ trace w'
                   = trace w
                     ++ [EvGetValue (hash_key sid) prev e1; EvGetStreamStatus sid st e2]
                     ++ reset
                     ++ [EvSetValue (hash_key sid) h ttl_7d e3]
                     ++ ts
                     ++ [EvUploadMetadata sid
                           (json_Marshal RFC3339
                              (mkMetadata (added_up ups 0) (map meta_of ups))) e6;
                         EvSetStreamStatus sid "completed" e7;
                         EvSetStreamTTL sid ttl_7d e8]
                /\ (forall k, is_Some (objects w !! k) -> is_Some (objects w' !! k))
                /\ (forall c, c ∈ ups ->
                      is_Some (objects w' !! s3uploader.chunk_object sid (chunker.Index c)))
                /\ (e7 = None -> kv w' !! redisstore.status_key sid = Some "completed"))).
Proof.
  intros Hsize Hh sid h. unfold processFile. fold sid h.
  destruct (String.eqb_spec h EmptyString) as [E|_]; [done|].
  pose proof (redisstore_facts.GetValue_found (hash_key sid) w) as G1.
  destruct (redisstore_facts.GetValue_spec (hash_key sid) w)
    as (prev & e1 & w1 & E1 & T1 & Hkv1 & Hex1 & F1 & Hpl1 & _ & Hprev).
  rewrite E1 in G1 |- *. cbn [fst snd] in G1.
  destruct F1 as (Hfs1 & Hck1 & Hob1 & _ & Hme1).
  pose proof (redisstore_facts.GetStreamStatus_found sid w1) as G2.
  destruct (redisstore_facts.GetStreamStatus_spec sid w1)
    as (st & e2 & w2 & E2 & T2 & Hkv2 & Hex2 & F2 & _ & _ & Hst).
  rewrite E2 in G2 |- *. cbn [fst snd] in G2. rewrite Hkv1 in G2.
  destruct F2 as (Hfs2 & Hck2 & Hob2 & _ & Hme2).
  rewrite Hpl1, Hkv1 in Hst.
  exists prev, e1, st, e2.
  destruct (String.eqb prev h && String.eqb st "completed") eqn:Eb.
  - (* the hash is the stored one and the status is completed *)
    apply andb_true_iff in Eb as [Ep%String.eqb_eq Es%String.eqb_eq].
    exists w2. split_and!; [done|congruence|done|done|].
    destruct G1 as [G1 G1']; [by rewrite Ep|].
    destruct G2 as [G2 G2']; [by rewrite Es|].
    left. split_and!; try congruence.
    by rewrite T2, T1, <- app_assoc.
  - assert (~ (prev = h /\ st = "completed")) as Hne.
    { intros [Ep%String.eqb_eq Es%String.eqb_eq]. by rewrite Ep, Es in Eb. }
    destruct (reset_if_changed_spec sid prev h w2)
      as (reset & Hreset & T3 & Hfs3 & Hck3 & Hob3).
    set (w3 := reset_if_changed sid prev h w2) in *.
    destruct (redisstore_facts.SetValue_spec (hash_key sid) h ttl_7d w3)
      as (e3 & w4 & -> & T4 & F4 & _).
    destruct F4 as (Hfs4 & Hck4 & Hob4 & _).
    assert (fs w4 = fs w) as Hfs by congruence.
    assert (clock w4 = clock w) as Hck by congruence.
    rewrite Hfs, Hck.
    destruct (chunker_props.ChunkFile_opens (fs w) (clock w) file (ChunkSize cfg))
      as (cs & Hcs); [by apply fileHash_opens|done|].
    rewrite Hcs.
    destruct (range_chunks_spec sid cs [] 0 w4)
      as (ups & ts & metas' & total' & w5 & -> & Hturns & T5 & Hfs5 & _ & -> & -> & Hmono & Hups).
    destruct (finish_spec sid ([] ++ map meta_of ups) (added_up ups 0) w5)
      as (e6 & e7 & e8 & T6 & Hfs6 & Hmono6 & Hst6).
    eexists. split_and!; [reflexivity|congruence|done|done|].
    right. split; [done|].
    exists reset, e3, cs, ups, ts, e6, e7, e8. split_and!; try done.
    + rewrite T6, T5, T4, T3, T2, T1, <- !app_assoc. done.
    + intros k Hk. apply Hmono6, Hmono. by rewrite Hob4, Hob3, Hob2, Hob1.
    + intros c Hc. by apply Hmono6, Hups.
Qed.

End WithTimeFormat.

End app_facts.

(** ** Traces *)

Lemma app_eq_split {A} (l1 l2 pre post : list A) (x : A) :
  l1 ++ l2 = pre ++ x :: post ->
  (exists m, l1 = pre ++ x :: m /\ post = m ++ l2)
  \/ (exists m, pre = l1 ++ m /\ l2 = m ++ x :: post).
Proof.
  revert pre. induction l1 as [|a l1 IH]; intros pre H; simpl in H.
  - right. exists pre. done.
  - destruct pre as [|b pre]; simpl in H.
    + injection H as -> <-. left. exists l1. done.
    + injection H as -> H. apply IH in H as [(m & -> & ->)|(m & -> & ->)].
      * left. by exists m.
      * right. by exists m.
Qed.

Lemma cfu_app P t1 t2 :
  checkpoint_follows_upload P t1 -> checkpoint_follows_upload P t2 ->
  checkpoint_follows_upload P (t1 ++ t2).
Proof.
  intros H1 H2 pre post sid i e H.
  apply app_eq_split in H as [(m & -> & ->)|(m & -> & ->)].
  - by apply (H1 pre m sid i e).
  - destruct (H2 m post sid i e eq_refl) as [(pre' & data & ->) HP].
    split; [|done]. exists (t1 ++ pre'), data. by rewrite app_assoc.
Qed.

Lemma cfu_none P t :
  forallb (fun ev => negb (is_checkpoint ev)) t = true ->
  checkpoint_follows_upload P t.
Proof.
  intros H pre post sid i e ->.
  rewrite forallb_app in H. apply andb_true_iff in H as [_ H]. simpl in H. done.
Qed.

Lemma cfu_turn P sid c b t :
  turn sid c b t ->
  (b = true -> P sid (chunker.Index c)) ->
  checkpoint_follows_upload P t.
Proof.
  intros Ht HP. destruct Ht; try (apply cfu_none; reflexivity).
  intros pre post sid' i e H.
  destruct pre as [|? [|? [|? [|? pre]]]]; simplify_eq/=.
  - split; [|by apply HP].
    exists [EvIsChunkUploaded sid' (chunker.Index c) false None], (chunker.Data c). done.
  - by destruct pre.
Qed.

Lemma cfu_turns P sid cs ups ts :
  turns sid cs ups ts ->
  (forall c, c ∈ ups -> P sid (chunker.Index c)) ->
  checkpoint_follows_upload P ts.
Proof.
  induction 1 as [|c cs ups t ts Ht Hts IH|c cs ups t ts Ht Hts IH]; intros HP.
  - by apply cfu_none.
  - apply cfu_app; [|by apply IH]. by apply (cfu_turn P sid c false).
  - apply cfu_app.
    + apply (cfu_turn P sid c true); [done|]. intros _. apply HP. by left.
    + apply IH. intros c' Hc'. apply HP. by right.
Qed.

Lemma reset_events_no_checkpoint sid prev h reset :
  reset_events sid prev h reset ->
  forallb (fun ev => negb (is_checkpoint ev)) reset = true.
Proof.
  unfold reset_events.
  destruct (negb _ && negb _); [intros (e4 & e5 & ->)|intros ->]; reflexivity.
Qed.

Lemma reset_events_no_upload sid prev h reset :
  reset_events sid prev h reset ->
  List.filter is_upload_chunk reset = [] /\ List.filter is_upload_metadata reset = []
  /\ List.filter is_uploaded reset = [].
Proof.
  unfold reset_events.
  destruct (negb _ && negb _); [intros (e4 & e5 & ->)|intros ->]; done.
Qed.

Lemma turns_sublist sid cs ups ts : turns sid cs ups ts -> sublist ups cs.
Proof.
  induction 1; [constructor|by apply sublist_cons|by apply sublist_skip].
Qed.

Lemma turns_uploaded sid cs ups ts :
  turns sid cs ups ts ->
  List.filter is_uploaded ts = map (uploaded_event sid) ups.
Proof.
  induction 1 as [|c cs ups t ts Ht Hts IH|c cs ups t ts Ht Hts IH].
  - done.
  - rewrite List.filter_app, IH. by inversion Ht.
  - rewrite List.filter_app, IH. by inversion Ht.
Qed.

Lemma turns_no_metadata sid cs ups ts :
  turns sid cs ups ts -> List.filter is_upload_metadata ts = [].
Proof.
  induction 1 as [|c cs ups t ts Ht Hts IH|c cs ups t ts Ht Hts IH].
  - done.
  - rewrite List.filter_app, IH. by inversion Ht.
  - rewrite List.filter_app, IH. by inversion Ht.
Qed.

(** ** Sizes *)

Lemma total_len_concat cs : total_len cs = len (concat (map chunker.Data cs)).
Proof.
  induction cs as [|c cs IH]; [done|]. simpl. by rewrite len_app, IH.
Qed.

Lemma total_len_nonneg cs : 0 <= total_len cs.
Proof. rewrite total_len_concat. apply len_nonneg. Qed.

Lemma total_len_sublist ups cs : sublist ups cs -> total_len ups <= total_len cs.
Proof.
  induction 1 as [|c ups cs _ IH|c ups cs _ IH]; simpl; [lia|lia|].
  pose proof (len_nonneg (chunker.Data c)). lia.
Qed.

Lemma total_len_skipped ups cs :
  sublist ups cs ->
  (forall c, c ∈ cs -> 0 < len (chunker.Data c)) ->
  ups <> cs ->
  total_len ups < total_len cs.
Proof.
  induction 1 as [|c ups cs Hsub IH|c ups cs Hsub IH]; intros Hpos Hne; simpl.
  - done.
  - assert (total_len ups < total_len cs); [|lia].
    apply IH; [|congruence]. intros c' Hc'. apply Hpos. by right.
  - pose proof (total_len_sublist ups cs Hsub).
    assert (0 < len (chunker.Data c)) by (apply Hpos; by left). lia.
Qed.

Lemma added_up_exact ups : forall total,
  0 <= total -> total + total_len ups <= max_int64 ->
  added_up ups total = total + total_len ups.
Proof.
  induction ups as [|c ups IH]; intros total H0 Hmax; simpl.
  - unfold added_up. simpl. lia.
  - pose proof (len_nonneg (chunker.Data c)).
    pose proof (total_len_nonneg ups).
    unfold added_up in *. simpl in *.
    rewrite wrap64_small by (unfold max_int64 in *; lia).
    rewrite IH; lia.
Qed.

(** ** The claims about the file processor *)
Module app_props.
Import app app_facts.

Section WithTimeFormat.
Variable RFC3339 : Z -> string.

(** C2. In a run of the processor (chunk size above 0), every call of
    SetChunkUploaded(stream_id, i) comes right after a call of
    UploadChunk(stream_id, i, data) that returned no error; and the object
    of that chunk is in the bucket when the run ends. *)
Theorem checkpoint_only_after_upload (cfg : Config) (file : string) (w : World) :
  0 < ChunkSize cfg ->
  exists w' t,
    processFile RFC3339 cfg file w = Returns w'
    /\ trace w' = trace w ++ t
    /\ checkpoint_follows_upload
         (fun sid i => is_Some (objects w' !! s3uploader.chunk_object sid i)) t.
Proof.
  intros Hsize.
  destruct (String.eqb_spec (fileHash (fs w) file) EmptyString) as [E|E].
  { exists w, []. unfold processFile. rewrite E. simpl.
    split_and!; [done|by rewrite app_nil_r|by apply cfu_none]. }
  destruct (processFile_run RFC3339 cfg file w Hsize E)
    as (prev & e1 & st & e2 & w' & Hrun & _ & _ & _ & Hcases).
  exists w'.
  destruct Hcases as [(_ & _ & T & _)|(_ & Hfull)].
  - eexists. split_and!; [done|exact T|by apply cfu_none].
  - destruct Hfull as (reset & e3 & cs & ups & ts & e6 & e7 & e8
                       & _ & Hturns & Hreset & T & _ & Hups & _).
    eexists. split_and!; [done|exact T|].
    apply cfu_app; [by apply cfu_none|].
    apply cfu_app; [apply cfu_none; by eapply reset_events_no_checkpoint|].
    apply cfu_app; [by apply cfu_none|].
    apply cfu_app; [|by apply cfu_none].
    by eapply cfu_turns.
Qed.

(** C10. Every run either stops at its guard, which it does only when
    Redis holds the hash of the file and the status completed, after the
    two lookups that returned them and with no other call; or it goes
    through the loop, and then it uploads one metadata JSON, which lists
    the chunks that were uploaded without error in this run, and only
    them; its total_size is the sum of the lengths of those chunks, which
    is less than the size of the file as soon as a chunk of the file was
    skipped. *)
Theorem metadata_lists_uploaded_chunks
  (cfg : Config) (file : string) (w : World) (f : File) :
  0 < ChunkSize cfg ->
  fs w !! file = Some f ->
  len (content f) <= max_int64 ->
  exists w' t,
    processFile RFC3339 cfg file w = Returns w'
    /\ trace w' = trace w ++ t
    /\ ((kv w !! hash_key (filepath.Base file) = Some (fileHash (fs w) file)
         /\ kv w !! redisstore.status_key (filepath.Base file) = Some "completed"
         /\ t = [EvGetValue (hash_key (filepath.Base file)) (fileHash (fs w) file) None;
                 EvGetStreamStatus (filepath.Base file) "completed" None])
        \/ exists cs ups e,
            chunker.ChunkFile (fs w) (clock w) file (ChunkSize cfg) = chunker.Chunks cs
            /\ sublist ups cs
            /\ List.filter is_uploaded t = map (uploaded_event (filepath.Base file)) ups
            /\ List.filter is_upload_metadata t
               = [EvUploadMetadata (filepath.Base file)
                    (json_Marshal RFC3339
                       (mkMetadata (total_len ups) (map meta_of ups))) e]
            /\ (ups <> cs -> total_len ups < len (content f))).
Proof.
  intros Hsize Hf Hmax.
  destruct (processFile_run RFC3339 cfg file w Hsize (fileHash_nonempty _ _ _ Hf))
    as (prev & e1 & st & e2 & w' & Hrun & _ & _ & _ & Hcases).
  exists w'.
  destruct Hcases as [(Ep & Es & T & _ & _ & _ & _ & -> & -> & Hh & Hst)|(_ & Hfull)].
  - eexists. split_and!; [done|exact T|]. left. by rewrite Ep, Es.
  - destruct Hfull as (reset & e3 & cs & ups & ts & e6 & e7 & e8
                       & Hcs & Hturns & Hreset & T & _).
    eexists. split_and!; [done|exact T|]. right.
    destruct (chunker_props.ChunkFile_within _ _ _ _ _ _ Hf Hcs) as [Hle Hpos].
    pose proof (turns_sublist _ _ _ _ Hturns) as Hsub.
    pose proof (total_len_sublist _ _ Hsub) as Hsum.
    rewrite <- total_len_concat in Hle.
    destruct (reset_events_no_upload _ _ _ _ Hreset) as (_ & Hr2 & Hr3).
    exists cs, ups, e6. split_and!; [done|done| | |].
    + rewrite !List.filter_app, Hr3, (turns_uploaded _ _ _ _ Hturns). simpl.
      by rewrite app_nil_r.
    + rewrite !List.filter_app, Hr2, (turns_no_metadata _ _ _ _ Hturns). simpl.
      rewrite added_up_exact by lia. done.
    + intros Hne. pose proof (total_len_skipped _ _ Hsub Hpos Hne). lia.
Qed.

(** What the code does where C1 asks for more: a run that does not stop
    at the completed status writes that status after its loop, whatever
    the calls of the loop returned. *)
Lemma run_sets_completed_whatever_failed
  (cfg : Config) (file : string) (w : World) (f : File) :
  0 < ChunkSize cfg ->
  fs w !! file = Some f ->
  exists w' t,
    processFile RFC3339 cfg file w = Returns w'
    /\ trace w' = trace w ++ t
    /\ (length t = 2%nat
        \/ exists e7,
            EvSetStreamStatus (filepath.Base file) "completed" e7 ∈ t
            /\ (e7 = None ->
                  kv w' !! redisstore.status_key (filepath.Base file) = Some "completed")).
Proof.
  intros Hsize Hf.
  destruct (processFile_run RFC3339 cfg file w Hsize (fileHash_nonempty _ _ _ Hf))
    as (prev & e1 & st & e2 & w' & Hrun & _ & _ & _ & Hcases).
  exists w'.
  destruct Hcases as [(_ & _ & T & _)|(_ & Hfull)].
  - eexists. split_and!; [done|exact T|]. by left.
  - destruct Hfull as (reset & e3 & cs & ups & ts & e6 & e7 & e8
                       & _ & _ & _ & T & _ & _ & Hst).
    eexists. split_and!; [done|exact T|]. right. exists e7. split; [|done].
    rewrite !elem_of_app. do 4 right. set_solver.
Qed.

(** C8. When the value stored at file_hash:<stream_id> is not empty and
    is not the fingerprint of the file (and Redis answers the lookup of
    it), the run resets the stream right after its two lookups: it calls
    DeleteKey on stream_status:<stream_id> and then
    SetStreamProgress(stream_id, 0). In the state [w_r] that these calls
    leave, nothing has been uploaded yet, the status key is gone when
    DeleteKey returned no error and the progress is 0 when
    SetStreamProgress returned none, which is so when Redis answers the
    four calls. The rest of the run starts from that state: it stores the
    hash, and only then come the loop over the chunks, with its uploads,
    and the metadata. *)
Theorem hash_change_resets_before_upload
  (cfg : Config) (file : string) (w : World) (f : File) (prev : string) :
  0 < ChunkSize cfg ->
  fs w !! file = Some f ->
  kv w !! hash_key (filepath.Base file) = Some prev ->
  prev <> EmptyString ->
  prev <> fileHash (fs w) file ->
  goes_through 1 (redis_faults w) = true ->
  let sid := filepath.Base file in
  let h := fileHash (fs w) file in
  let w_r :=
    reset_if_changed sid prev h
      (snd (redisstore.GetStreamStatus sid (snd (redisstore.GetValue (hash_key sid) w)))) in
  exists e1 st e2 e4 e5 cs,
    trace w_r
    = trace w ++ [EvGetValue (hash_key sid) prev e1;
                  EvGetStreamStatus sid st e2;
                  EvDeleteKey (redisstore.status_key sid) e4;
                  EvSetStreamProgress sid 0 e5]
    /\ objects w_r = objects w
    /\ (e4 = None -> kv w_r !! redisstore.status_key sid = None)
    /\ (e5 = None -> kv w_r !! redisstore.progress_key sid = Some "0")
    /\ (goes_through 4 (redis_faults w) = true -> e4 = None /\ e5 = None)
    /\ chunker.ChunkFile (fs w) (clock w) file (ChunkSize cfg) = chunker.Chunks cs
    /\ processFile RFC3339 cfg file w
       = Returns (finish RFC3339 sid
                    (range_chunks sid cs
                       ([], 0, snd (redisstore.SetValue (hash_key sid) h ttl_7d w_r)))).
Proof.
  intros Hsize Hf Hprev Hne1 Hne2 Hup sid h. cbv zeta.
  pose proof (fileHash_nonempty _ _ _ Hf) as Hh.
  assert (goes_through 4 (redis_faults w) = true ->
          goes_through 2 (snd (next_fault (snd (next_fault (redis_faults w))))) = true)
    as Hgo.
  { intros [_ G]%goes_through_next. by apply goes_through_next in G as [_ G]. }
  apply goes_through_next in Hup as [Hup _].
  unfold processFile. fold sid h.
  destruct (String.eqb_spec h EmptyString) as [|_]; [done|].
  destruct (redisstore_facts.GetValue_spec (hash_key sid) w)
    as (prev' & e1 & w1 & E1 & T1 & Hkv1 & _ & F1 & Hp1 & _ & Hp).
  rewrite !E1. cbn [fst snd].
  specialize (Hp Hup). fold sid in Hprev. rewrite Hprev in Hp. simpl in Hp. subst prev'.
  destruct F1 as (Hfs1 & Hck1 & Hob1 & _).
  destruct (redisstore_facts.GetStreamStatus_spec sid w1)
    as (st & e2 & w2 & E2 & T2 & Hkv2 & _ & F2 & Hp2 & _).
  rewrite !E2. cbn [fst snd].
  destruct F2 as (Hfs2 & Hck2 & Hob2 & _).
  destruct (String.eqb_spec prev h) as [|_]; [done|]. cbn [andb].
  destruct (reset_effect sid prev h w2 Hne1 Hne2)
    as (e4 & e5 & T3 & Hob3 & Hdel & _ & Hset & Hboth).
  destruct (reset_if_changed_spec sid prev h w2) as (_ & _ & _ & Hfs3 & Hck3 & _).
  set (w_r := reset_if_changed sid prev h w2) in *.
  destruct (redisstore_facts.SetValue_spec (hash_key sid) h ttl_7d w_r)
    as (e3 & w4 & E4 & _ & F4 & _).
  rewrite E4. cbn [snd].
  destruct F4 as (Hfs4 & Hck4 & _).
  assert (fs w4 = fs w) as -> by congruence.
  assert (clock w4 = clock w) as -> by congruence.
  destruct (chunker_props.ChunkFile_opens (fs w) (clock w) file (ChunkSize cfg))
    as (cs & Hcs); [by eexists|done|].
  rewrite Hcs.
  exists e1, st, e2, e4, e5, cs. split_and!; try done.
  - by rewrite T3, T2, T1, <- !app_assoc.
  - congruence.
  - intros G. apply Hboth. rewrite Hp2, Hp1. by apply Hgo.
Qed.

(** A run on a file whose hash is the stored one and whose status is
    completed: two lookups, and nothing else. *)
Lemma processFile_completed (cfg : Config) (file : string) (w : World) (f : File) :
  fs w !! file = Some f ->
  kv w !! hash_key (filepath.Base file) = Some (fileHash (fs w) file) ->
  kv w !! redisstore.status_key (filepath.Base file) = Some "completed" ->
  goes_through 2 (redis_faults w) = true ->
  exists w',
    processFile RFC3339 cfg file w = Returns w'
    /\ trace w'
       = trace w ++ [EvGetValue (hash_key (filepath.Base file)) (fileHash (fs w) file) None;
                     EvGetStreamStatus (filepath.Base file) "completed" None]
    /\ kv w' = kv w /\ expiry w' = expiry w /\ objects w' = objects w
    /\ metrics w' = metrics w /\ fs w' = fs w.
Proof.
  intros Hf Hhash Hst Hup.
  apply goes_through_next in Hup as [Hup1 Hup2].
  apply goes_through_next in Hup2 as [Hup2 _].
  pose proof (fileHash_nonempty _ _ _ Hf) as Hh.
  unfold processFile.
  destruct (String.eqb_spec (fileHash (fs w) file) EmptyString) as [|_]; [done|].
  unfold redisstore.GetValue, redisstore.GetStreamStatus, redis.Get.
  destruct (next_fault (redis_faults w)) as [d1 p1]. simpl in Hup1, Hup2. subst d1.
  simpl. rewrite Hhash. simpl.
  destruct (next_fault p1) as [d2 p2]. simpl in Hup2. subst d2.
  simpl. rewrite Hst. rewrite String.eqb_refl. simpl.
  eexists. split; [reflexivity|]. simpl. rewrite <- app_assoc. done.
Qed.

(** C3. When the file is as it was, its hash is the value stored at
    file_hash:<stream_id> and the status is completed (the state that a
    completed first run leaves), and Redis answers the two lookups, the
    run makes no UploadChunk call and leaves the bucket and the checkpoint
    store as they were. *)
Theorem second_run_changes_nothing
  (cfg : Config) (file : string) (w : World) (f : File) :
  fs w !! file = Some f ->
  kv w !! hash_key (filepath.Base file) = Some (fileHash (fs w) file) ->
  kv w !! redisstore.status_key (filepath.Base file) = Some "completed" ->
  goes_through 2 (redis_faults w) = true ->
  exists w' t,
    processFile RFC3339 cfg file w = Returns w'
    /\ trace w' = trace w ++ t
    /\ count is_upload_chunk t = 0%nat
    /\ objects w' = objects w
    /\ kv w' = kv w /\ expiry w' = expiry w.
Proof.
  intros Hf Hhash Hst Hup.
  destruct (processFile_completed cfg file w f Hf Hhash Hst Hup)
    as (w' & Hrun & T & Hkv & Hex & Hob & _).
  exists w'. eexists. split_and!; [done|exact T|done..].
Qed.

(** C6, amended. In the same situation the run makes no UploadChunk call
    and no UploadMetadata call, and the status is still completed. *)
Theorem second_run_uploads_nothing
  (cfg : Config) (file : string) (w : World) (f : File) :
  fs w !! file = Some f ->
  kv w !! hash_key (filepath.Base file) = Some (fileHash (fs w) file) ->
  kv w !! redisstore.status_key (filepath.Base file) = Some "completed" ->
  goes_through 2 (redis_faults w) = true ->
  exists w' t,
    processFile RFC3339 cfg file w = Returns w'
    /\ trace w' = trace w ++ t
    /\ count is_upload_chunk t = 0%nat
    /\ count is_upload_metadata t = 0%nat
    /\ kv w' !! redisstore.status_key (filepath.Base file) = Some "completed".
Proof.
  intros Hf Hhash Hst Hup.
  destruct (processFile_completed cfg file w f Hf Hhash Hst Hup)
    as (w' & Hrun & T & Hkv & _).
  exists w'. eexists. split_and!; [done|exact T|done|done|].
  by rewrite Hkv.
Qed.

End WithTimeFormat.

End app_props.

(** ** The stability detector *)
Module watcher_props.
Import watcher.

Lemma next_fault_all_clear plan :
  forallb negb plan = true ->
  fst (next_fault plan) = false /\ forallb negb (snd (next_fault plan)) = true.
Proof.
  destruct plan as [|b plan]; simpl; [done|].
  intros [Hb H]%andb_true_iff. by destruct b.
Qed.

Lemma filterFile_frame file w :
  kv (snd (filterFile file w)) = kv w
  /\ fs (snd (filterFile file w)) = fs w
  /\ redis_faults (snd (filterFile file w))
     = snd (next_fault (snd (next_fault (redis_faults w)))).
Proof.
  unfold filterFile.
  destruct (redisstore_facts.GetStreamStatus_spec (filepath.Base file) w)
    as (st & e1 & w1 & -> & _ & Hkv1 & _ & F1 & Hp1 & _).
  destruct F1 as (Hfs1 & _).
  destruct (redisstore_facts.GetValue_spec ("file_hash:" +:+ filepath.Base file) w1)
    as (prev & e2 & w2 & -> & _ & Hkv2 & _ & F2 & Hp2 & _).
  destruct F2 as (Hfs2 & _).
  destruct (String.eqb prev _ && String.eqb st _); simpl;
    split_and!; congruence.
Qed.

(** The filter turns down a file whose hash is the stored one and whose
    status is completed. *)
Lemma filterFile_completed file w :
  kv w !! ("file_hash:" +:+ filepath.Base file) = Some (fileHash (fs w) file) ->
  kv w !! redisstore.status_key (filepath.Base file) = Some "completed" ->
  goes_through 2 (redis_faults w) = true ->
  fst (filterFile file w) = false.
Proof.
  intros Hhash Hst Hup.
  apply goes_through_next in Hup as [Hup1 Hup2].
  apply goes_through_next in Hup2 as [Hup2 _].
  unfold filterFile.
  destruct (redisstore_facts.GetStreamStatus_spec (filepath.Base file) w)
    as (st & e1 & w1 & -> & _ & Hkv1 & _ & F1 & Hp1 & _ & Hst1).
  destruct F1 as (Hfs1 & _).
  destruct (redisstore_facts.GetValue_spec ("file_hash:" +:+ filepath.Base file) w1)
    as (prev & e2 & w2 & -> & _ & _ & _ & _ & _ & _ & Hprev).
  rewrite Hp1, Hkv1 in Hprev.
  rewrite (Hst1 Hup1), (Hprev Hup2), Hst, Hhash. simpl.
  by rewrite String.eqb_refl.
Qed.

Lemma offer_spares file w0 wt0 ext file' formats st :
  kv w0 !! ("file_hash:" +:+ filepath.Base file) = Some (fileHash (fs w0) file) ->
  kv w0 !! redisstore.status_key (filepath.Base file) = Some "completed" ->
  spares file w0 wt0 st ->
  spares file w0 wt0 (offer ext file' formats st).
Proof.
  intros Hhash Hst. induction formats as [|allowed rest IH]; intros Hinv; [done|].
  simpl. destruct (String.eqb ext allowed); [|by apply IH].
  destruct st as [wt w]. destruct Hinv as (Hkv & Hfs & Hclear & sent & Hsent & Hnot).
  simpl in Hkv, Hfs, Hclear, Hsent.
  destruct (filterFile_frame file' w) as (Hkv' & Hfs' & Hplan').
  assert (forallb negb (redis_faults (snd (filterFile file' w))) = true) as Hclear'.
  { rewrite Hplan'.
    apply next_fault_all_clear in Hclear as [_ Hclear].
    by apply next_fault_all_clear in Hclear as [_ Hclear]. }
  destruct (filterFile file' w) as [fresh w'] eqn:Ef. simpl in Hkv', Hfs', Hclear'.
  destruct fresh.
  - split_and!; simpl; [congruence|congruence|done|].
    exists (sent ++ [file']). split; [by rewrite Hsent, app_assoc|].
    intros [Hin|Hin%list_elem_of_singleton]%elem_of_app; [done|]. subst file'.
    assert (fst (filterFile file w) = false) as Hno.
    { apply filterFile_completed; [by rewrite Hkv, Hfs|by rewrite Hkv|].
      by apply goes_through_all. }
    by rewrite Ef in Hno.
  - split_and!; simpl; [congruence|congruence|done|]. by exists sent.
Qed.

Lemma visit_spares file w0 wt0 cfg now debounce st entry :
  kv w0 !! ("file_hash:" +:+ filepath.Base file) = Some (fileHash (fs w0) file) ->
  kv w0 !! redisstore.status_key (filepath.Base file) = Some "completed" ->
  spares file w0 wt0 st ->
  spares file w0 wt0 (visit cfg now debounce st entry).
Proof.
  intros Hhash Hst Hinv. unfold visit. destruct entry as [file' last].
  destruct (debounce <? now - last); [|done].
  pose proof (offer_spares file w0 wt0 (strings.ToLower (filepath.Ext file')) file'
                (VideoFileFormats cfg) st Hhash Hst Hinv) as H.
  destruct (offer _ _ _ st) as [wt w]. exact H.
Qed.

Lemma tick_spares file w wt order cfg now debounce :
  kv w !! ("file_hash:" +:+ filepath.Base file) = Some (fileHash (fs w) file) ->
  kv w !! redisstore.status_key (filepath.Base file) = Some "completed" ->
  forallb negb (redis_faults w) = true ->
  spares file w wt (checkStableFiles_in order cfg now debounce (wt, w)).
Proof.
  intros Hhash Hst Hclear. unfold checkStableFiles_in.
  assert (spares file w wt (wt, w)) as Hinv.
  { split_and!; try done. exists []. split; [by rewrite app_nil_r|].
    apply not_elem_of_nil. }
  revert Hinv. generalize (wt, w) as st.
  induction order as [|entry order IH]; intros st Hinv; [done|].
  simpl. apply IH. by apply visit_spares.
Qed.

(** C5. A tick of the detector sends no path whose stored hash is the
    fingerprint of the file and whose status is completed (Redis
    answering the lookups of the tick), whatever the order in which the
    tick visits the paths it has seen. *)
Theorem completed_file_is_not_emitted
  (order : list (string * Z)) (cfg : Config) (now debounce : Z)
  (wt : Watcher) (w : World) (file : string) :
  kv w !! ("file_hash:" +:+ filepath.Base file) = Some (fileHash (fs w) file) ->
  kv w !! redisstore.status_key (filepath.Base file) = Some "completed" ->
  forallb negb (redis_faults w) = true ->
  exists sent,
    fileCh (fst (checkStableFiles_in order cfg now debounce (wt, w)))
    = fileCh wt ++ sent
    /\ file ∉ sent.
Proof.
  intros Hhash Hst Hclear.
  destruct (tick_spares file w wt order cfg now debounce Hhash Hst Hclear)
    as (_ & _ & _ & H).
  exact H.
Qed.

(** The same for the order that [checkStableFiles] takes. *)
Lemma checkStableFiles_spares_completed
  (cfg : Config) (now debounce : Z) (wt : Watcher) (w : World) (file : string) :
  kv w !! ("file_hash:" +:+ filepath.Base file) = Some (fileHash (fs w) file) ->
  kv w !! redisstore.status_key (filepath.Base file) = Some "completed" ->
  forallb negb (redis_faults w) = true ->
  exists sent,
    fileCh (fst (checkStableFiles cfg now debounce (wt, w))) = fileCh wt ++ sent
    /\ file ∉ sent.
Proof.
  intros Hhash Hst Hclear. unfold checkStableFiles. simpl.
  destruct (tick_spares file w wt (map_to_list (seen wt)) cfg now debounce
              Hhash Hst Hclear) as (_ & _ & _ & H).
  exact H.
Qed.

End watcher_props.

(** ** The claims on the scenarios *)
Module scenario_props.
Import scenario.

(** Scenario 1 of the specification: sixteen bytes, chunks of four. *)
Example first_run_of_scenario_1 :
  List.filter is_upload_chunk (trace (run (fresh file16 [])))
  = [EvUploadChunk "v.mp4" 0 (bytes_of_string "1234") None;
     EvUploadChunk "v.mp4" 1 (bytes_of_string "5678") None;
     EvUploadChunk "v.mp4" 2 (bytes_of_string "90ab") None;
     EvUploadChunk "v.mp4" 3 (bytes_of_string "cdef") None]
  /\ count is_upload_metadata (trace (run (fresh file16 []))) = 1%nat
  /\ kv (run (fresh file16 [])) !! "stream_status:v.mp4" = Some "completed"
  /\ kv (run (fresh file16 [])) !! "file_hash:v.mp4" = Some "8e9916c5340c43fa".
Proof.
  split; [vm_compute; reflexivity|].
  split; [vm_compute; reflexivity|].
  split; vm_compute; reflexivity.
Qed.

Lemma ChunkFile_count_and_sizes_witness :
  (0 < len (content file16) <= max_int64 /\ 0 < 5)
  /\ exists cs,
      chunker.ChunkFile {[ path := file16 ]} clock0 path 5 = chunker.Chunks cs
      /\ len cs = (len (content file16) + 5 - 1) / 5
      /\ map chunker.Index cs = seqZ 0 ((len (content file16) + 5 - 1) / 5)
      /\ (forall (k : nat) c, cs !! k = Some c ->
            Z.of_nat k < len (content file16) / 5 -> len (chunker.Data c) = 5)
      /\ (exists c, last cs = Some c
            /\ len (chunker.Data c)
               = if len (content file16) mod 5 =? 0 then 5
                 else len (content file16) mod 5).
Proof.
  assert (0 < len (content file16) <= max_int64) as Hsize.
  { vm_compute. split; [reflexivity|discriminate]. }
  split; [split; [exact Hsize|reflexivity]|].
  apply (chunker_props.ChunkFile_count_and_sizes {[ path := file16 ]} clock0 path file16 5).
  - reflexivity.
  - reflexivity.
  - exact Hsize.
  - reflexivity.
Defined.

Example ChunkFile_16_by_5 :
  match chunker.ChunkFile {[ path := file16 ]} clock0 path 5 with
  | chunker.Chunks cs =>
      map (fun c => (chunker.Index c, string_of_list_byte (chunker.Data c))) cs
  | _ => []
  end = [(0, "12345"); (1, "67890"); (2, "abcde"); (3, "f")].
Proof. vm_compute. reflexivity. Qed.

Lemma ChunkFile_checksum_witness :
  chunker.Checksum chunk_f
  = hex.EncodeToString (sha256.Sum256 (chunker.Data chunk_f)).
Proof.
  apply (chunker_props.ChunkFile_checksum {[ path := file16 ]} clock0 path 5
           [chunker.cut clock0 0 (bytes_of_string "12345");
            chunker.cut clock0 1 (bytes_of_string "67890");
            chunker.cut clock0 2 (bytes_of_string "abcde");
            chunk_f]
           chunk_f).
  - vm_compute. reflexivity.
  - do 3 apply list_elem_of_further. apply list_elem_of_here.
Defined.

Lemma checkpoint_only_after_upload_witness :
  0 < ChunkSize cfg4
  /\ exists w' t,
      app.processFile unix_text cfg4 path (fresh file16 [false; true]) = Returns w'
      /\ trace w' = trace (fresh file16 [false; true]) ++ t
      /\ checkpoint_follows_upload
           (fun sid i => is_Some (objects w' !! s3uploader.chunk_object sid i)) t.
Proof.
  split; [reflexivity|].
  apply (app_props.checkpoint_only_after_upload unix_text cfg4 path
           (fresh file16 [false; true])).
  reflexivity.
Defined.

Lemma second_run_changes_nothing_witness :
  (fs after_first_run !! path = Some file16
   /\ kv after_first_run !! app.hash_key (filepath.Base path)
      = Some (app.fileHash (fs after_first_run) path)
   /\ kv after_first_run !! redisstore.status_key (filepath.Base path)
      = Some "completed"
   /\ goes_through 2 (redis_faults after_first_run) = true)
  /\ exists w' t,
      app.processFile unix_text cfg4 path after_first_run = Returns w'
      /\ trace w' = trace after_first_run ++ t
      /\ count is_upload_chunk t = 0%nat
      /\ objects w' = objects after_first_run
      /\ kv w' = kv after_first_run /\ expiry w' = expiry after_first_run.
Proof.
  assert (fs after_first_run !! path = Some file16) as H1
    by (vm_compute; reflexivity).
  assert (kv after_first_run !! app.hash_key (filepath.Base path)
          = Some (app.fileHash (fs after_first_run) path)) as H2
    by (vm_compute; reflexivity).
  assert (kv after_first_run !! redisstore.status_key (filepath.Base path)
          = Some "completed") as H3
    by (vm_compute; reflexivity).
  assert (goes_through 2 (redis_faults after_first_run) = true) as H4
    by (vm_compute; reflexivity).
  split; [exact (conj H1 (conj H2 (conj H3 H4)))|].
  exact (app_props.second_run_changes_nothing unix_text cfg4 path after_first_run
           file16 H1 H2 H3 H4).
Defined.

(** C6 as it is written fails: after the first run of scenario 1 (status
    completed, hash stored, file as it was), the second run makes no
    UploadMetadata call, not one. *)
Lemma second_run_makes_no_metadata_call :
  kv after_first_run !! "stream_status:v.mp4" = Some "completed"
  /\ kv after_first_run !! "file_hash:v.mp4" = Some (app.fileHash (fs after_first_run) path)
  /\ app.processFile unix_text cfg4 path after_first_run = Returns (run after_first_run)
  /\ ~ (count is_upload_chunk (events_since after_first_run (run after_first_run)) = 0%nat
        /\ count is_upload_metadata (events_since after_first_run (run after_first_run)) = 1%nat
        /\ kv (run after_first_run) !! "stream_status:v.mp4" = Some "completed").
Proof.
  split; [vm_compute; reflexivity|].
  split; [vm_compute; reflexivity|].
  split; [vm_compute; reflexivity|].
  intros (_ & H & _). vm_compute in H. discriminate.
Qed.

Lemma second_run_uploads_nothing_witness :
  (fs after_first_run !! path = Some file16
   /\ kv after_first_run !! app.hash_key (filepath.Base path)
      = Some (app.fileHash (fs after_first_run) path)
   /\ kv after_first_run !! redisstore.status_key (filepath.Base path)
      = Some "completed"
   /\ goes_through 2 (redis_faults after_first_run) = true)
  /\ exists w' t,
      app.processFile unix_text cfg4 path after_first_run = Returns w'
      /\ trace w' = trace after_first_run ++ t
      /\ count is_upload_chunk t = 0%nat
      /\ count is_upload_metadata t = 0%nat
      /\ kv w' !! redisstore.status_key (filepath.Base path) = Some "completed".
Proof.
  assert (fs after_first_run !! path = Some file16) as H1
    by (vm_compute; reflexivity).
  assert (kv after_first_run !! app.hash_key (filepath.Base path)
          = Some (app.fileHash (fs after_first_run) path)) as H2
    by (vm_compute; reflexivity).
  assert (kv after_first_run !! redisstore.status_key (filepath.Base path)
          = Some "completed") as H3
    by (vm_compute; reflexivity).
  assert (goes_through 2 (redis_faults after_first_run) = true) as H4
    by (vm_compute; reflexivity).
  split; [exact (conj H1 (conj H2 (conj H3 H4)))|].
  exact (app_props.second_run_uploads_nothing unix_text cfg4 path after_first_run
           file16 H1 H2 H3 H4).
Defined.

Lemma metadata_lists_uploaded_chunks_witness :
  (0 < ChunkSize cfg4
   /\ fs (fresh file8 [false; true]) !! path = Some file8
   /\ len (content file8) <= max_int64)
  /\ exists w' t,
      app.processFile unix_text cfg4 path (fresh file8 [false; true]) = Returns w'
      /\ trace w' = trace (fresh file8 [false; true]) ++ t
      /\ ((kv (fresh file8 [false; true]) !! app.hash_key (filepath.Base path)
           = Some (app.fileHash (fs (fresh file8 [false; true])) path)
           /\ kv (fresh file8 [false; true]) !! redisstore.status_key (filepath.Base path)
              = Some "completed"
           /\ t = [EvGetValue (app.hash_key (filepath.Base path))
                     (app.fileHash (fs (fresh file8 [false; true])) path) None;
                   EvGetStreamStatus (filepath.Base path) "completed" None])
          \/ exists cs ups e,
              chunker.ChunkFile (fs (fresh file8 [false; true]))
                (clock (fresh file8 [false; true])) path (ChunkSize cfg4)
              = chunker.Chunks cs
              /\ sublist ups cs
              /\ List.filter is_uploaded t
                 = map (uploaded_event (filepath.Base path)) ups
              /\ List.filter is_upload_metadata t
                 = [EvUploadMetadata (filepath.Base path)
                      (app.json_Marshal unix_text
                         (app.mkMetadata (total_len ups) (map meta_of ups))) e]
              /\ (ups <> cs -> total_len ups < len (content file8))).
Proof.
  assert (0 < ChunkSize cfg4) as H1 by reflexivity.
  assert (fs (fresh file8 [false; true]) !! path = Some file8) as H2 by reflexivity.
  assert (len (content file8) <= max_int64) as H3 by (vm_compute; discriminate).
  split; [exact (conj H1 (conj H2 H3))|].
  exact (app_props.metadata_lists_uploaded_chunks unix_text cfg4 path
           (fresh file8 [false; true]) file8 H1 H2 H3).
Defined.

(** The run of that witness: chunk 1 is not uploaded, and the metadata
    has the one chunk that was, with a total size of 4 for a file of 8
    bytes. *)
Example metadata_after_failed_upload :
  option_map (fun o => string_of_list_byte (body o))
    (objects after_failed_upload !! "v.mp4/metadata.json")
  = Some (string_of_list_byte
      (app.json_Marshal unix_text
         (app.mkMetadata 4
            [app.mkChunkMeta 0
               "a6b46dd0d1ae5e86cbc8f37e75ceeb6760230c1ca4ffbcb0c97b96dd7d9c464b"
               1748363036]))).
Proof. vm_compute. reflexivity. Qed.

Lemma hash_change_resets_before_upload_witness :
  (0 < ChunkSize cfg4
   /\ fs rehashed !! path = Some file16
   /\ kv rehashed !! app.hash_key (filepath.Base path) = Some "0123456789abcdef"
   /\ "0123456789abcdef" <> EmptyString
   /\ "0123456789abcdef" <> app.fileHash (fs rehashed) path
   /\ goes_through 1 (redis_faults rehashed) = true)
  /\ (let sid := filepath.Base path in
      let h := app.fileHash (fs rehashed) path in
      let w_r :=
        app.reset_if_changed sid "0123456789abcdef" h
          (snd (redisstore.GetStreamStatus sid
                  (snd (redisstore.GetValue (app.hash_key sid) rehashed)))) in
      exists e1 st e2 e4 e5 cs,
        trace w_r
        = trace rehashed ++ [EvGetValue (app.hash_key sid) "0123456789abcdef" e1;
                             EvGetStreamStatus sid st e2;
                             EvDeleteKey (redisstore.status_key sid) e4;
                             EvSetStreamProgress sid 0 e5]
        /\ objects w_r = objects rehashed
        /\ (e4 = None -> kv w_r !! redisstore.status_key sid = None)
        /\ (e5 = None -> kv w_r !! redisstore.progress_key sid = Some "0")
        /\ (goes_through 4 (redis_faults rehashed) = true -> e4 = None /\ e5 = None)
        /\ chunker.ChunkFile (fs rehashed) (clock rehashed) path (ChunkSize cfg4)
           = chunker.Chunks cs
        /\ app.processFile unix_text cfg4 path rehashed
           = Returns (app.finish unix_text sid
                        (app.range_chunks sid cs
                           ([], 0, snd (redisstore.SetValue (app.hash_key sid) h app.ttl_7d
                                          w_r))))).
Proof.
  assert (0 < ChunkSize cfg4) as H1 by reflexivity.
  assert (fs rehashed !! path = Some file16) as H2 by reflexivity.
  assert (kv rehashed !! app.hash_key (filepath.Base path) = Some "0123456789abcdef")
    as H3 by (vm_compute; reflexivity).
  assert ("0123456789abcdef" <> EmptyString) as H4 by discriminate.
  assert ("0123456789abcdef" <> app.fileHash (fs rehashed) path) as H5
    by (vm_compute; discriminate).
  assert (goes_through 1 (redis_faults rehashed) = true) as H6 by reflexivity.
  split; [exact (conj H1 (conj H2 (conj H3 (conj H4 (conj H5 H6)))))|].
  exact (app_props.hash_change_resets_before_upload unix_text cfg4 path
           rehashed file16 "0123456789abcdef" H1 H2 H3 H4 H5 H6).
Defined.

(** The run of the witness: the reset comes before the hash is stored
    and before the first upload, and the uploads that follow are those of
    the four chunks of the file. *)
Example run_on_rehashed :
  take 8 (events_since rehashed (run rehashed))
  = [EvGetValue "file_hash:v.mp4" "0123456789abcdef" None;
     EvGetStreamStatus "v.mp4" "completed" None;
     EvDeleteKey "stream_status:v.mp4" None;
     EvSetStreamProgress "v.mp4" 0 None;
     EvSetValue "file_hash:v.mp4" (app.fileHash (fs rehashed) path) 604800000000000 None;
     EvIsChunkUploaded "v.mp4" 0 false None;
     EvUploadChunk "v.mp4" 0 (bytes_of_string "1234") None;
     EvSetChunkUploaded "v.mp4" 0 None]
  /\ count is_upload_chunk (events_since rehashed (run rehashed)) = 4%nat.
Proof. split; vm_compute; reflexivity. Qed.

Example run_after_overwrite :
  take 5 (events_since after_overwrite (run after_overwrite))
  = [EvGetValue "file_hash:v.mp4" "8e9916c5340c43fa" None;
     EvGetStreamStatus "v.mp4" "completed" None;
     EvDeleteKey "stream_status:v.mp4" None;
     EvSetStreamProgress "v.mp4" 0 None;
     EvSetValue "file_hash:v.mp4" "87d149cb424c0387" 604800000000000 None].
Proof. vm_compute. reflexivity. Qed.

Lemma completed_file_is_not_emitted_witness :
  (kv after_first_run !! ("file_hash:" +:+ filepath.Base path)
   = Some (watcher.fileHash (fs after_first_run) path)
   /\ kv after_first_run !! redisstore.status_key (filepath.Base path) = Some "completed"
   /\ forallb negb (redis_faults after_first_run) = true)
  /\ exists sent,
      watcher.fileCh
        (fst (watcher.checkStableFiles_in [(path, 0)] cfg4 (10 * Second) (2 * Second)
                (watching, after_first_run)))
      = watcher.fileCh watching ++ sent
      /\ path ∉ sent.
Proof.
  assert (kv after_first_run !! ("file_hash:" +:+ filepath.Base path)
          = Some (watcher.fileHash (fs after_first_run) path)) as H1
    by (vm_compute; reflexivity).
  assert (kv after_first_run !! redisstore.status_key (filepath.Base path)
          = Some "completed") as H2
    by (vm_compute; reflexivity).
  assert (forallb negb (redis_faults after_first_run) = true) as H3
    by (vm_compute; reflexivity).
  split; [exact (conj H1 (conj H2 H3))|].
  exact (watcher_props.completed_file_is_not_emitted [(path, 0)] cfg4 (10 * Second)
           (2 * Second) watching after_first_run path H1 H2 H3).
Defined.

(** Scenarios 5 and 6 of the specification at the tick: a file that was
    not processed is sent once and taken out of the map; the same file
    after its completed run is not sent. *)
Example tick_on_new_and_on_completed_file :
  watcher.fileCh
    (fst (watcher.checkStableFiles cfg4 (10 * Second) (2 * Second)
            (watching, fresh file16 []))) = [path]
  /\ watcher.seen
       (fst (watcher.checkStableFiles cfg4 (10 * Second) (2 * Second)
               (watching, fresh file16 []))) !! path = None
  /\ watcher.fileCh
       (fst (watcher.checkStableFiles cfg4 (10 * Second) (2 * Second)
               (watching, after_first_run))) = [].
Proof.
  split; [vm_compute; reflexivity|].
  split; vm_compute; reflexivity.
Qed.

(** C1 on the code: the upload of chunk 1 fails, its checkpoint is not
    written and its object is not in the bucket, and the run still sets
    the status to completed; the next run then stops at that status, and
    the chunk is not tried again. *)
Lemma failed_upload_still_completed :
  returned (app.processFile unix_text cfg4 path (fresh file8 [false; true])) = true
  /\ List.filter is_upload_chunk (trace after_failed_upload)
     = [EvUploadChunk "v.mp4" 0 (bytes_of_string "some") None;
        EvUploadChunk "v.mp4" 1 (bytes_of_string "data") (Some call_failed)]
  /\ objects after_failed_upload !! "v.mp4/chunk-00001" = None
  /\ kv after_failed_upload !! "chunk_uploaded:v.mp4:00001" = None
  /\ kv after_failed_upload !! "stream_status:v.mp4" = Some "completed"
  /\ events_since after_failed_upload (run after_failed_upload)
     = [EvGetValue "file_hash:v.mp4" "87d149cb424c0387" None;
        EvGetStreamStatus "v.mp4" "completed" None].
Proof.
  split; [vm_compute; reflexivity|].
  split; [vm_compute; reflexivity|].
  split; [vm_compute; reflexivity|].
  split; [vm_compute; reflexivity|].
  split; vm_compute; reflexivity.
Qed.

(** C7 on the code: for a key that Redis does not have, GetValue and
    GetStreamStatus return the empty string together with the error
    redis.Nil; IsChunkUploaded alone turns that error into nil. *)
Lemma lookup_of_absent_key :
  fst (redisstore.GetValue "file_hash:v.mp4" (fresh file16 []))
  = (EmptyString, Some redis_Nil)
  /\ fst (redisstore.GetStreamStatus "v.mp4" (fresh file16 []))
     = (EmptyString, Some redis_Nil)
  /\ fst (redisstore.IsChunkUploaded "v.mp4" 0 (fresh file16 []))
     = (false, None).
Proof.
  split; [vm_compute; reflexivity|].
  split; vm_compute; reflexivity.
Qed.

End scenario_props.

(** * Further properties of the code *)

(** ** Decimal text: strconv and the padded index *)
Module text_facts.

#[local] Arguments strconv.digit : simpl never.
#[local] Arguments strconv.is_digit : simpl never.

Lemma digit_is_digit (n : Z) : 0 <= n <= 9 -> strconv.is_digit (strconv.digit n) = true.
Proof.
  intros H. unfold strconv.is_digit, strconv.digit.
  assert (48 + Z.to_nat n < 256)%nat as Hlt by lia.
  rewrite (nat_ascii_embedding _ Hlt).
  apply andb_true_iff. split; apply Nat.leb_le; lia.
Qed.

Lemma digit_value (n : Z) :
  0 <= n <= 9 -> Z.of_nat (nat_of_ascii (strconv.digit n)) - 48 = n.
Proof.
  intros H. unfold strconv.digit.
  assert (48 + Z.to_nat n < 256)%nat as Hlt by lia.
  rewrite (nat_ascii_embedding _ Hlt). lia.
Qed.

Lemma digits_all_digits fuel : forall n acc,
  0 <= n -> strconv.all_digits acc = true ->
  strconv.all_digits (strconv.digits fuel n acc) = true.
Proof.
  induction fuel as [|fuel IH]; intros n acc Hn Hacc; cbn [strconv.digits]; [done|].
  assert (strconv.all_digits (String (strconv.digit (n mod 10)) acc) = true) as H.
  { cbn [strconv.all_digits].
    pose proof (Z.mod_pos_bound n 10 ltac:(lia)) as Hm.
    rewrite (digit_is_digit (n mod 10)) by lia. exact Hacc. }
  destruct (n / 10 =? 0); [done|].
  apply IH; [apply Z.div_pos; lia|done].
Qed.

Lemma digits_value fuel : forall n acc,
  0 <= n < 10 ^ Z.of_nat fuel ->
  strconv.value_from 0 (strconv.digits fuel n acc) = strconv.value_from n acc.
Proof.
  induction fuel as [|fuel IH]; intros n acc Hn.
  { simpl in *. by replace n with 0 by lia. }
  cbn [strconv.digits].
  pose proof (Z.mod_pos_bound n 10 ltac:(lia)) as Hm.
  pose proof (Z.div_mod n 10 ltac:(lia)) as Hdm.
  destruct (Z.eqb_spec (n / 10) 0) as [E|E].
  - cbn [strconv.value_from]. rewrite digit_value by lia. f_equal. lia.
  - rewrite IH.
    + cbn [strconv.value_from]. rewrite digit_value by lia. f_equal. lia.
    + split; [apply Z.div_pos; lia|].
      apply Z.div_lt_upper_bound; [lia|].
      rewrite Nat2Z.inj_succ, Z.pow_succ_r in Hn by lia. lia.
Qed.

Lemma enough_fuel (n : Z) : 0 <= n -> n < 10 ^ Z.of_nat (S (Z.to_nat (Z.log2 n))).
Proof.
  intros Hn. destruct (Z.eq_dec n 0) as [->|Hne]; [reflexivity|].
  pose proof (Z.log2_spec n ltac:(lia)) as [_ Hlt].
  pose proof (Z.log2_nonneg n) as Hl.
  rewrite Nat2Z.inj_succ, Z2Nat.id by done.
  eapply Z.lt_le_trans; [exact Hlt|].
  apply Z.pow_le_mono_l. lia.
Qed.

Lemma FormatUint_value (n : Z) :
  0 <= n -> strconv.value_from 0 (strconv.FormatUint n) = n.
Proof.
  intros Hn. unfold strconv.FormatUint.
  rewrite digits_value; [done|]. split; [done|by apply enough_fuel].
Qed.

Lemma FormatUint_digits (n : Z) :
  0 <= n -> strconv.all_digits (strconv.FormatUint n) = true.
Proof. intros Hn. by apply digits_all_digits. Qed.

Lemma digits_length fuel : forall n acc (k : nat),
  0 <= n < 10 ^ Z.of_nat (S k) ->
  (String.length acc < String.length (strconv.digits (S fuel) n acc)
   <= S k + String.length acc)%nat.
Proof.
  induction fuel as [|fuel IH]; intros n acc k Hn.
  - cbn [strconv.digits]. destruct (n / 10 =? 0); cbn [String.length]; lia.
  - change (strconv.digits (S (S fuel)) n acc)
      with (if n / 10 =? 0 then String (strconv.digit (n mod 10)) acc
            else strconv.digits (S fuel) (n / 10) (String (strconv.digit (n mod 10)) acc)).
    destruct (Z.eqb_spec (n / 10) 0) as [E|E]; [cbn [String.length]; lia|].
    destruct k as [|k].
    { exfalso. apply E. apply Z.div_small. change (10 ^ Z.of_nat 1) with 10 in Hn. lia. }
    assert (0 <= n / 10 < 10 ^ Z.of_nat (S k)) as Hq.
    { split; [apply Z.div_pos; lia|].
      apply Z.div_lt_upper_bound; [lia|].
      rewrite (Nat2Z.inj_succ (S k)), Z.pow_succ_r in Hn by lia. lia. }
    specialize (IH (n / 10) (String (strconv.digit (n mod 10)) acc) k Hq).
    cbn [String.length] in IH. lia.
Qed.

Lemma length_zeros k s : String.length (fmt.zeros k s) = (k + String.length s)%nat.
Proof. induction k as [|k IH]; simpl; [done|]. by rewrite IH. Qed.

Lemma value_zeros k s : strconv.value_from 0 (fmt.zeros k s) = strconv.value_from 0 s.
Proof. induction k as [|k IH]; simpl; done. Qed.

Lemma zeros_all_digits k s :
  strconv.all_digits s = true -> strconv.all_digits (fmt.zeros k s) = true.
Proof. intros H. induction k as [|k IH]; simpl; done. Qed.

Lemma append_cancel_l (s a b : string) : s +:+ a = s +:+ b -> a = b.
Proof. induction s as [|c s IH]; simpl; [done|]. intros H. injection H. exact IH. Qed.

Lemma all_digits_head s :
  strconv.all_digits s = true -> s <> EmptyString ->
  exists c rest, s = String c rest /\ c <> "-"%char /\ c <> "+"%char.
Proof.
  destruct s as [|c rest]; [done|]. simpl. intros [Hc _]%andb_true_iff _.
  exists c, rest. split; [done|]. split; intros ->; discriminate.
Qed.

Lemma FormatUint_nonempty (n : Z) : strconv.FormatUint n <> EmptyString.
Proof.
  unfold strconv.FormatUint.
  assert (forall fuel m a, a <> EmptyString -> strconv.digits fuel m a <> EmptyString) as H.
  { induction fuel as [|fuel IH]; intros m a Ha; simpl; [done|].
    destruct (m / 10 =? 0); [discriminate|]. by apply IH. }
  cbn [strconv.digits]. destruct (n / 10 =? 0); [discriminate|]. by apply H.
Qed.

(** [Atoi] reads back what [Itoa] writes, for every int. *)
Lemma Atoi_Itoa (n : Z) :
  - 2 ^ 63 <= n < 2 ^ 63 -> strconv.Atoi (strconv.Itoa n) = (n, None).
Proof.
  intros Hn. unfold strconv.Itoa, strconv.Atoi.
  destruct (Z.ltb_spec n 0) as [Hneg|Hpos].
  - pose proof (FormatUint_nonempty (- n)) as Hne.
    destruct (strconv.FormatUint (- n)) as [|c rest] eqn:E; [done|].
    rewrite <- E, FormatUint_digits, FormatUint_value by lia.
    destruct (Z.ltb_spec (2 ^ 63) (- n)); [lia|]. f_equal. lia.
  - destruct (all_digits_head (strconv.FormatUint n)) as (c & rest & E & Hm & Hp);
      [by apply FormatUint_digits|apply FormatUint_nonempty|].
    rewrite E.
    assert ((match String c rest with
             | String "-" r => (true, r)
             | String "+" r => (false, r)
             | _ => (false, String c rest)
             end) = (false, String c rest)) as ->.
    { destruct c as [[] [] [] [] [] [] [] []]; try reflexivity; by (exfalso; auto). }
    rewrite <- E, FormatUint_digits, FormatUint_value by lia.
    destruct (Z.leb_spec (2 ^ 63) n); [lia|done].
Qed.

Lemma itoa_value (i : Z) : 0 <= i -> strconv.value_from 0 (redisstore.itoa i) = i.
Proof.
  intros Hi. unfold redisstore.itoa, fmt.Sprintf_05d, fmt.pad0.
  destruct (Z.ltb_spec i 0); [lia|].
  rewrite value_zeros. by apply FormatUint_value.
Qed.

Lemma itoa_inj (i j : Z) : 0 <= i -> 0 <= j -> redisstore.itoa i = redisstore.itoa j -> i = j.
Proof.
  intros Hi Hj E. rewrite <- (itoa_value i Hi), <- (itoa_value j Hj). by rewrite E.
Qed.

Lemma chunk_key_inj sid i j :
  0 <= i -> 0 <= j -> redisstore.chunk_key sid i = redisstore.chunk_key sid j -> i = j.
Proof.
  intros Hi Hj E. apply itoa_inj; [done..|].
  unfold redisstore.chunk_key in E. by do 3 apply append_cancel_l in E.
Qed.

Lemma chunk_object_inj sid i j :
  0 <= i -> 0 <= j -> s3uploader.chunk_object sid i = s3uploader.chunk_object sid j -> i = j.
Proof.
  intros Hi Hj E. apply itoa_inj; [done..|].
  unfold s3uploader.chunk_object in E. by do 2 apply append_cancel_l in E.
Qed.

End text_facts.

Module itoa_props.
Import text_facts.

(** X1. The index in keys and object names: for an index from 0 on, only
    decimal digits, at least five of them and exactly five up to 99999,
    and the digits write the index itself (nothing is cut off). *)
Theorem itoa_is_the_padded_index (i : Z) :
  0 <= i ->
  strconv.all_digits (redisstore.itoa i) = true
  /\ strconv.value_from 0 (redisstore.itoa i) = i
  /\ (5 <= String.length (redisstore.itoa i))%nat
  /\ (i <= 99999 -> String.length (redisstore.itoa i) = 5%nat)
  /\ s3uploader.itoa i = redisstore.itoa i.
Proof.
  intros Hi. unfold redisstore.itoa, s3uploader.itoa, fmt.Sprintf_05d, fmt.pad0.
  destruct (Z.ltb_spec i 0); [lia|].
  split_and!.
  - apply zeros_all_digits. by apply FormatUint_digits.
  - rewrite value_zeros. by apply FormatUint_value.
  - rewrite length_zeros. lia.
  - intros Hle. rewrite length_zeros.
    assert (0 <= i < 10 ^ Z.of_nat 5) as Hb by (change (10 ^ Z.of_nat 5) with 100000; lia).
    pose proof (digits_length (Z.to_nat (Z.log2 i)) i EmptyString 4 Hb) as Hlen.
    unfold strconv.FormatUint. cbn [String.length] in Hlen. lia.
  - done.
Qed.

(** X2. Two indices from 0 on with the same text are the same index: the
    checkpoint keys and the object names of the chunks of a stream are
    pairwise different. *)
Theorem chunk_names_are_injective (sid : string) (i j : Z) :
  0 <= i -> 0 <= j ->
  (redisstore.chunk_key sid i = redisstore.chunk_key sid j -> i = j)
  /\ (s3uploader.chunk_object sid i = s3uploader.chunk_object sid j -> i = j).
Proof.
  intros Hi Hj. split; [by apply chunk_key_inj|by apply chunk_object_inj].
Qed.

End itoa_props.

(** ** The checkpoint adapter: what is written is what is read *)
Module redisstore_props.
Import redisstore.

(** The first pending call goes through: the plan after it. *)
Ltac pass H :=
  let H1 := fresh "Hpass" in
  apply goes_through_next in H as [H1 H];
  match type of H1 with
  | fst (next_fault ?p) = false =>
      let d := fresh "d" in
      let q := fresh "plan" in
      destruct (next_fault p) as [d q] eqn:?; cbn [fst snd] in H1, H; subst d
  end.

Lemma chunk_key_not_others sid i sid' :
  chunk_key sid i <> status_key sid' /\ chunk_key sid i <> progress_key sid'
  /\ chunk_key sid i <> app.hash_key sid'.
Proof. unfold chunk_key, status_key, progress_key, app.hash_key. simpl. done. Qed.

(** X3. A checkpoint that was written reads as set, and the write changes
    the checkpoint of no other chunk of the stream (Redis answering both
    calls). *)
Theorem checkpoint_round_trip (sid : string) (i j : Z) (w : World) :
  0 <= i -> 0 <= j ->
  goes_through 2 (redis_faults w) = true ->
  fst (SetChunkUploaded sid i w) = None
  /\ fst (IsChunkUploaded sid j (snd (SetChunkUploaded sid i w)))
     = (if decide (j = i) then true else marked (kv w) sid j, None).
Proof.
  intros Hi Hj Hup. pass Hup.
  unfold SetChunkUploaded, redis.Set_. rewrite Heqp. simpl. split; [done|].
  pass Hup.
  unfold IsChunkUploaded, redis.Get. simpl. rewrite Heqp0. simpl.
  destruct (decide (j = i)) as [->|Hne].
  - rewrite lookup_insert_eq. reflexivity.
  - rewrite lookup_insert_ne by (intros E; apply Hne; symmetry;
                                 by apply (text_facts.chunk_key_inj sid)).
    unfold marked. destruct (kv w !! chunk_key sid j); reflexivity.
Qed.

Lemma Set_pass key v exp w :
  fst (next_fault (redis_faults w)) = false ->
  redis.Set_ key v exp w
  = (None,
     with_redis (<[key := v]> (kv w)) (redis.set_expiry key exp (expiry w))
       (with_redis_faults (snd (next_fault (redis_faults w))) w)).
Proof.
  intros H. unfold redis.Set_. destruct (next_fault (redis_faults w)) as [d p].
  cbn in H. by subst d.
Qed.

Lemma Get_pass key w :
  fst (next_fault (redis_faults w)) = false ->
  redis.Get key w
  = (default EmptyString (kv w !! key),
     match kv w !! key with Some _ => None | None => Some redis_Nil end,
     with_redis_faults (snd (next_fault (redis_faults w))) w).
Proof.
  intros H. unfold redis.Get. destruct (next_fault (redis_faults w)) as [d p].
  cbn in H. subst d. cbn. by destruct (kv w !! key).
Qed.

Lemma Del_pass key w :
  fst (next_fault (redis_faults w)) = false ->
  redis.Del key w
  = (None,
     with_redis (delete key (kv w)) (delete key (expiry w))
       (with_redis_faults (snd (next_fault (redis_faults w))) w)).
Proof.
  intros H. unfold redis.Del. destruct (next_fault (redis_faults w)) as [d p].
  cbn in H. by subst d.
Qed.

Lemma Expire_pass key ttl w :
  fst (next_fault (redis_faults w)) = false ->
  0 < ttl ->
  redis.Expire key ttl w
  = (None,
     match kv w !! key with
     | Some _ => with_redis (kv w) (<[key := redis.formatSec ttl * Second]> (expiry w))
                   (with_redis_faults (snd (next_fault (redis_faults w))) w)
     | None => with_redis_faults (snd (next_fault (redis_faults w))) w
     end).
Proof.
  intros H Hpos%redisstore_facts.formatSec_pos.
  unfold redis.Expire. destruct (next_fault (redis_faults w)) as [d p].
  cbn in H. subst d. cbn. destruct (kv w !! key); [|done].
  by destruct (Z.leb_spec (redis.formatSec ttl) 0); [lia|].
Qed.

(** The seconds that the client sends for a time above 0: the whole
    seconds of it, and 1 for less than a second. *)
Lemma formatSec_bounds (ttl : Z) :
  0 < ttl ->
  1 <= redis.formatSec ttl
  /\ (ttl < Second -> redis.formatSec ttl = 1)
  /\ (Second <= ttl ->
      redis.formatSec ttl * Second <= ttl < (redis.formatSec ttl + 1) * Second).
Proof.
  intros Hpos. unfold redis.formatSec.
  destruct (Z.ltb_spec 0 ttl); [|lia].
  destruct (Z.ltb_spec ttl Second) as [Hlt|Hge]; cbn [andb].
  - split_and!; [lia|done|lia].
  - assert (0 < Second) as HS by (by unfold Second).
    rewrite Z.quot_div_nonneg by lia.
    pose proof (Z.mul_div_le ttl Second HS).
    pose proof (Z.mul_succ_div_gt ttl Second HS).
    assert (1 <= ttl / Second) by (apply Z.div_le_lower_bound; lia).
    split_and!; lia.
Qed.

(** X4. A value that was set is what the lookup returns, with no error;
    after DeleteKey the lookup returns the empty string with redis.Nil;
    and neither call touches another key (Redis answering the calls). *)
Theorem value_set_get_delete (key other value : string) (ttl : Z) (w : World) :
  other <> key ->
  goes_through 4 (redis_faults w) = true ->
  let w1 := snd (SetValue key value ttl w) in
  let w2 := snd (GetValue key w1) in
  let w3 := snd (DeleteKey key w2) in
  fst (SetValue key value ttl w) = None
  /\ fst (GetValue key w1) = (value, None)
  /\ fst (DeleteKey key w2) = None
  /\ fst (GetValue key w3) = (EmptyString, Some redis_Nil)
  /\ kv w3 !! other = kv w !! other.
Proof.
  intros Hne Hup. cbv zeta.
  apply goes_through_next in Hup as [H1 Hup].
  apply goes_through_next in Hup as [H2 Hup].
  apply goes_through_next in Hup as [H3 Hup].
  apply goes_through_next in Hup as [H4 _].
  unfold SetValue. rewrite (Set_pass _ _ _ _ H1). cbn [fst snd].
  unfold GetValue. rewrite Get_pass by exact H2. cbn [fst snd].
  unfold DeleteKey. rewrite Del_pass by exact H3. cbn [fst snd].
  rewrite Get_pass by exact H4. cbn.
  rewrite lookup_insert_eq, lookup_delete_eq. cbn.
  split_and!; try done.
  by rewrite lookup_delete_ne, lookup_insert_ne.
Qed.

(** X5. The status of a stream reads back as it was set, and setting it
    leaves the status of every other stream as it was (Redis answering
    the calls). *)
Theorem status_round_trip (sid sid' status : string) (w : World) :
  sid' <> sid ->
  goes_through 3 (redis_faults w) = true ->
  let w1 := snd (SetStreamStatus sid status w) in
  let w2 := snd (GetStreamStatus sid w1) in
  fst (SetStreamStatus sid status w) = None
  /\ fst (GetStreamStatus sid w1) = (status, None)
  /\ fst (fst (GetStreamStatus sid' w2)) = default EmptyString (kv w !! status_key sid').
Proof.
  intros Hne Hup. cbv zeta.
  apply goes_through_next in Hup as [H1 Hup].
  apply goes_through_next in Hup as [H2 Hup].
  apply goes_through_next in Hup as [H3 _].
  unfold SetStreamStatus. rewrite (Set_pass _ _ _ _ H1). cbn [fst snd].
  unfold GetStreamStatus. rewrite Get_pass by exact H2. cbn [fst snd].
  rewrite Get_pass by exact H3. cbn.
  rewrite lookup_insert_eq. cbn. split_and!; try done.
  rewrite lookup_insert_ne; [done|].
  unfold status_key. intros E. apply text_facts.append_cancel_l in E. congruence.
Qed.

(** X6. The progress of a stream reads back as the index that was set,
    for every int; a stream with no progress reads as 0 with redis.Nil,
    so that only the error tells it from a progress of 0. *)
Theorem progress_round_trip (sid : string) (i : Z) (w : World) :
  - 2 ^ 63 <= i < 2 ^ 63 ->
  goes_through 2 (redis_faults w) = true ->
  fst (GetStreamProgress sid (snd (SetStreamProgress sid i w))) = (i, None)
  /\ (kv w !! progress_key sid = None ->
      fst (GetStreamProgress sid w) = (0, Some (RedisError redis_Nil))).
Proof.
  intros Hi Hup.
  apply goes_through_next in Hup as [H1 Hup].
  apply goes_through_next in Hup as [H2 _].
  split.
  - unfold SetStreamProgress. rewrite (Set_pass _ _ _ _ H1). cbn [fst snd].
    unfold GetStreamProgress. rewrite Get_pass by exact H2. cbn.
    rewrite lookup_insert_eq. cbn. by rewrite text_facts.Atoi_Itoa.
  - intros Hnone. unfold GetStreamProgress. rewrite (Get_pass _ _ H1).
    by rewrite Hnone.
Qed.

(** X7. The time to live of the status, for a time above 0 and Redis
    answering the calls: SetStreamTTL on a stream that has no status
    creates nothing and returns no error; on a stream with a status it
    keeps the status and gives it a time to live of whole seconds, the
    time asked for rounded down, and one second when less than a second
    was asked for; and a later SetStreamStatus drops the time to live
    again. *)
Theorem status_ttl (sid status : string) (ttl : Z) (w : World) :
  0 < ttl ->
  goes_through 2 (redis_faults w) = true ->
  (kv w !! status_key sid = None ->
     fst (SetStreamTTL sid ttl w) = None
     /\ kv (snd (SetStreamTTL sid ttl w)) = kv w
     /\ expiry (snd (SetStreamTTL sid ttl w)) = expiry w)
  /\ (is_Some (kv w !! status_key sid) ->
       kv (snd (SetStreamTTL sid ttl w)) = kv w
       /\ (exists secs,
            expiry (snd (SetStreamTTL sid ttl w)) !! status_key sid = Some (secs * Second)
            /\ 1 <= secs
            /\ (ttl < Second -> secs = 1)
            /\ (Second <= ttl -> secs * Second <= ttl < (secs + 1) * Second))
       /\ expiry (snd (SetStreamStatus sid status (snd (SetStreamTTL sid ttl w))))
            !! status_key sid = None).
Proof.
  intros Hpos Hup.
  apply goes_through_next in Hup as [H1 Hup].
  apply goes_through_next in Hup as [H2 _].
  unfold SetStreamTTL. rewrite (Expire_pass _ _ _ H1 Hpos). split.
  - intros Hnone. rewrite Hnone. done.
  - intros [v Hv]. rewrite Hv. cbn [fst snd]. split_and!.
    + done.
    + exists (redis.formatSec ttl). split; [apply lookup_insert_eq|].
      by apply formatSec_bounds.
    + unfold SetStreamStatus. rewrite Set_pass by exact H2. cbn.
      apply lookup_delete_eq.
Qed.

Lemma prefix_append p s : String.prefix p (p +:+ s) = true.
Proof.
  induction p as [|c p IH]; simpl; [by destruct s|].
  destruct (ascii_dec c c); [done|congruence].
Qed.

Lemma prefix_split p k :
  String.prefix p k = true -> k = p +:+ drop_chars (String.length p) k.
Proof.
  revert k. induction p as [|c p IH]; intros k H; [done|].
  destruct k as [|c' k]; [done|]. simpl in *.
  destruct (ascii_dec c c') as [->|]; [|done].
  change (String c' k = String c' (p +:+ drop_chars (String.length p) k)).
  f_equal. by apply IH.
Qed.

Lemma drop_chars_append p s : drop_chars (String.length p) (p +:+ s) = s.
Proof. induction p as [|c p IH]; simpl; done. Qed.

(** The loop of [ScanIncompleteStreams]: Redis stays as it is; what is
    added comes from a key that holds a value other than completed; and
    without a failing call every such key adds its stream. *)
Lemma scan_loop keys : forall acc w,
  let r := fold_left scan_step keys (acc, w) in
  kv (snd r) = kv w
  /\ (forall s, s ∈ fst r ->
        s ∈ acc
        \/ exists key st, key ∈ keys /\ s = drop_chars 14 key
                          /\ kv w !! key = Some st /\ st <> "completed")
  /\ (forall s, s ∈ acc -> s ∈ fst r)
  /\ (forallb negb (redis_faults w) = true ->
      forall key st, key ∈ keys -> kv w !! key = Some st -> st <> "completed" ->
                     drop_chars 14 key ∈ fst r).
Proof.
  induction keys as [|key keys IH]; intros acc w; cbv zeta.
  { cbn. split_and!; try done; [by left|]. intros _ key st Hin. by apply elem_of_nil in Hin. }
  cbn [fold_left].
  assert (exists acc1 w1,
    scan_step (acc, w) key = (acc1, w1)
    /\ kv w1 = kv w
    /\ redis_faults w1 = snd (next_fault (redis_faults w))
    /\ (forall s, s ∈ acc1 ->
          s ∈ acc \/ exists st, s = drop_chars 14 key /\ kv w !! key = Some st
                               /\ st <> "completed")
    /\ (forall s, s ∈ acc -> s ∈ acc1)
    /\ (fst (next_fault (redis_faults w)) = false ->
        forall st, kv w !! key = Some st -> st <> "completed" ->
                   drop_chars 14 key ∈ acc1)) as (acc1 & w1 & -> & Hkv1 & Hp1 & Hs1 & Hm1 & Hc1).
  { unfold scan_step, redis.Get.
    destruct (next_fault (redis_faults w)) as [[] plan]; cbn.
    - do 2 eexists. split; [reflexivity|]. cbn. split_and!; try done.
      intros s Hs. by left.
    - destruct (kv w !! key) as [st|] eqn:Ek; cbn.
      + destruct (String.eqb_spec st "completed") as [->|Hne]; cbn.
        * do 2 eexists. split; [reflexivity|]. cbn. split_and!; try done.
          -- intros s Hs. by left.
          -- intros _ st [= <-] Hne. done.
        * do 2 eexists. split; [reflexivity|]. cbn. split_and!; try done.
          -- intros s [Hs|Hs%list_elem_of_singleton]%elem_of_app; [by left|].
             right. by exists st.
          -- intros s Hs. apply elem_of_app. by left.
          -- intros _ st' _ _. apply elem_of_app. right. by apply list_elem_of_singleton.
      + do 2 eexists. split; [reflexivity|]. cbn. split_and!; try done.
        intros s Hs. by left. }
  destruct (IH acc1 w1) as (Hkv & Hs & Hm & Hc). cbv zeta in *.
  split_and!.
  - congruence.
  - intros s Hin. apply Hs in Hin as [Hin|(k & st & Hk & -> & Hst & Hne)].
    + apply Hs1 in Hin as [Hin|(st & -> & Hst & Hne)]; [by left|].
      right. exists key, st. split_and!; try done. by left.
    + right. exists k, st. rewrite Hkv1 in Hst. split_and!; try done. by right.
  - intros s Hin. by apply Hm, Hm1.
  - intros Hclear k st Hin Hst Hne.
    destruct (watcher_props.next_fault_all_clear _ Hclear) as [Hf Hrest].
    apply elem_of_cons in Hin as [->|Hin].
    + apply Hm. by apply (Hc1 Hf st).
    + apply (Hc ltac:(by rewrite Hp1) k st); [done| |done]. by rewrite Hkv1.
Qed.

(** X9. ScanIncompleteStreams: every stream that it returns has a status
    in Redis that is not completed, whatever calls fail; and when no call
    fails it returns every such stream, with no error. Redis is left as
    it was. *)
Theorem scan_incomplete_streams (sid : string) (w : World) :
  let r := ScanIncompleteStreams w in
  kv (snd r) = kv w
  /\ (sid ∈ fst (fst r) ->
      exists status, kv w !! status_key sid = Some status /\ status <> "completed")
  /\ (forallb negb (redis_faults w) = true ->
      snd (fst r) = None
      /\ forall status, kv w !! status_key sid = Some status ->
                         status <> "completed" -> sid ∈ fst (fst r)).
Proof.
  cbv zeta. unfold ScanIncompleteStreams, redis.Scan.
  destruct (next_fault (redis_faults w)) as [down plan] eqn:Ef.
  destruct down.
  - cbn. split_and!; [done|by intros ?%elem_of_nil|].
    intros Hclear. apply watcher_props.next_fault_all_clear in Hclear as [Hf _].
    rewrite Ef in Hf. done.
  - set (keys := List.filter _ _).
    pose proof (scan_loop keys [] (with_redis_faults plan w)) as H. cbv zeta in H.
    destruct (fold_left scan_step keys _) as [streams w'].
    destruct H as (Hkv & Hs & _ & Hc). cbn [fst snd] in *.
    change (kv (with_redis_faults plan w)) with (kv w) in *.
    change (redis_faults (with_redis_faults plan w)) with plan in *.
    assert (forall key, key ∈ keys ->
              key = status_key (drop_chars 14 key)) as Hkeys.
    { intros key Hin. apply list_elem_of_In, List.filter_In in Hin as [_ Hp].
      by apply prefix_split in Hp. }
    split_and!; [done| |].
    + intros Hin. apply Hs in Hin as [Hin%elem_of_nil|(key & st & Hk & -> & Hst & Hne)];
        [done|].
      exists st. by rewrite <- (Hkeys key Hk).
    + intros Hclear. split; [done|]. intros st Hst Hne.
      apply watcher_props.next_fault_all_clear in Hclear as [_ Hrest].
      rewrite Ef in Hrest. cbn [snd] in Hrest.
      assert (status_key sid ∈ keys) as Hin.
      { apply list_elem_of_In, List.filter_In. split.
        - apply list_elem_of_In, list_elem_of_fmap.
          exists (status_key sid, st). split; [done|]. by apply elem_of_map_to_list.
        - apply prefix_append. }
      specialize (Hc Hrest (status_key sid) st Hin Hst Hne).
      exact Hc.
Qed.

End redisstore_props.

(** ** The object-store adapter *)
Module s3uploader_props.
Import s3uploader.

Lemma last_char_append a b : b <> EmptyString -> last_char (a +:+ b) = last_char b.
Proof.
  intros Hb. induction a as [|c a IH]; [done|].
  change (String c a +:+ b) with (String c (a +:+ b)).
  cbn [last_char]. destruct (a +:+ b) eqn:E; [|done].
  destruct a; [exact (False_ind _ (Hb E))|discriminate].
Qed.

Lemma last_char_digits s :
  strconv.all_digits s = true -> s <> EmptyString ->
  exists c, last_char s = Some c /\ strconv.is_digit c = true.
Proof.
  induction s as [|c s IH]; [done|]. intros [Hc Hs]%andb_true_iff _.
  destruct s as [|c' s]; [by exists c|].
  apply IH; [done|discriminate].
Qed.

Lemma itoa_nonempty i : 0 <= i -> itoa i <> EmptyString.
Proof.
  intros Hi E.
  assert (String.length (itoa i) = 0%nat) as Hl by (by rewrite E).
  unfold itoa, fmt.Sprintf_05d, fmt.pad0 in Hl.
  destruct (Z.ltb_spec i 0); [lia|].
  rewrite text_facts.length_zeros in Hl. lia.
Qed.

Lemma itoa_digits i : 0 <= i -> strconv.all_digits (itoa i) = true.
Proof.
  intros Hi. unfold itoa, fmt.Sprintf_05d, fmt.pad0.
  destruct (Z.ltb_spec i 0); [lia|].
  apply text_facts.zeros_all_digits. by apply text_facts.FormatUint_digits.
Qed.

Lemma chunk_object_not_metadata sid i sid' :
  0 <= i -> chunk_object sid i <> metadata_object sid'.
Proof.
  intros Hi E. apply (f_equal last_char) in E.
  unfold chunk_object, metadata_object in E.
  rewrite !last_char_append in E; try discriminate.
  - destruct (last_char_digits (itoa i)) as (c & Hc & Hd);
      [by apply itoa_digits|by apply itoa_nonempty|].
    rewrite Hc in E. simpl in E. injection E as ->. discriminate.
  - by apply itoa_nonempty.
Qed.


End s3uploader_props.

(** ** More on the chunk producer *)
Module chunker_more.
Import chunker chunker_facts.

Lemma loop_bounds now s fuel : forall idx rest bad c,
  0 < s -> c ∈ loop fuel now s idx rest bad -> 0 < len (Data c) <= s.
Proof.
  induction fuel as [|fuel IH]; intros idx rest bad c Hs Hc.
  { by apply elem_of_nil in Hc. }
  cbn [loop] in Hc. pose proof (len_take_upto s rest) as Ht.
  destruct (Z.ltb_spec (len (take_upto s rest)) s) as [Hlt|Hge].
  - destruct bad; [by apply elem_of_nil in Hc|].
    destruct (Z.ltb_spec 0 (len (take_upto s rest))).
    + apply list_elem_of_singleton in Hc. subst. cbn. lia.
    + by apply elem_of_nil in Hc.
  - apply elem_of_cons in Hc as [->|Hc]; [cbn; lia|]. eauto.
Qed.

Lemma take_upto_add {A} (l : list A) : forall a b,
  0 <= a -> 0 <= b ->
  take_upto (a + b) l = take_upto a l ++ take_upto b (drop_upto a l).
Proof.
  induction l as [|x l IH]; intros a b Ha Hb; [done|].
  cbn [take_upto drop_upto].
  destruct (Z.leb_spec a 0) as [H0|H0].
  - replace a with 0 by lia. by rewrite Z.add_0_l.
  - destruct (Z.leb_spec (a + b) 0); [lia|].
    cbn [app]. f_equal. replace (a + b - 1) with ((a - 1) + b) by lia.
    apply IH; lia.
Qed.

Lemma take_upto_take {A} (l : list A) : forall n,
  take_upto n l = take (Z.to_nat n) l.
Proof.
  induction l as [|x l IH]; intros n; [by destruct (Z.to_nat n)|].
  cbn [take_upto]. destruct (Z.leb_spec n 0).
  - replace (Z.to_nat n) with 0%nat by lia. done.
  - replace (Z.to_nat n) with (S (Z.to_nat (n - 1))) by lia.
    cbn [take]. by rewrite IH.
Qed.

(** With a read error at the end of the stream only full chunks come out. *)
Lemma loop_bad now s fuel : forall idx rest,
  0 < s -> (length rest < fuel)%nat ->
  map (fun c => len (Data c)) (loop fuel now s idx rest true)
  = replicate (Z.to_nat (len rest / s)) s
  /\ concat (map Data (loop fuel now s idx rest true))
     = take_upto (len rest / s * s) rest.
Proof.
  induction fuel as [|fuel IH]; intros idx rest Hs Hf; [lia|].
  cbn [loop]. pose proof (len_take_upto s rest) as Ht.
  pose proof (len_drop_upto s rest) as Hd.
  pose proof (take_drop_upto s rest) as Htd.
  pose proof (len_nonneg rest) as Hn.
  destruct (Z.ltb_spec (len (take_upto s rest)) s) as [Hlt|Hge].
  - rewrite Z.div_small by lia. cbn. by destruct rest.
  - assert (len rest / s = (len rest - s) / s + 1) as Hq.
    { replace (len rest) with ((len rest - s) + 1 * s) at 1 by lia.
      apply Z.div_add. lia. }
    assert (0 <= (len rest - s) / s) by (apply Z.div_pos; lia).
    destruct (IH (wrap64 (idx + 1)) (drop_upto s rest) Hs) as [IH1 IH2].
    { unfold len in *. lia. }
    replace (len (drop_upto s rest)) with (len rest - s) in IH1, IH2 by lia.
    cbn [map concat Data cut]. rewrite IH1, IH2. split.
    + rewrite Hq. replace (Z.to_nat ((len rest - s) / s + 1))
        with (S (Z.to_nat ((len rest - s) / s))) by lia.
      cbn. f_equal. lia.
    + rewrite Hq.
      replace (((len rest - s) / s + 1) * s) with (s + (len rest - s) / s * s) by lia.
      rewrite take_upto_add by nia. done.
Qed.

(** X11. When the file reads without error, the chunks' data put
    together in the order of emission are the file's bytes: nothing is
    lost, repeated or reordered. In particular an empty file gives no
    chunk at all. *)
Theorem chunks_reassemble_the_file
  (files : gmap string File) (now : Z -> Z) (path : string) (f : File)
  (chunkSize : Z) (cs : list Chunk) :
  files !! path = Some f ->
  snd (readable f) = false ->
  ChunkFile files now path chunkSize = Chunks cs ->
  concat (map Data cs) = content f
  /\ (content f = [] -> cs = []).
Proof.
  unfold ChunkFile. intros -> Hclean Hrun.
  destruct (Z.ltb_spec chunkSize 0); [discriminate|].
  destruct (Z.eqb_spec chunkSize 0); [discriminate|].
  pose proof (readable_clean f Hclean) as Hdata.
  destruct (readable f) as [data bad]. simpl in Hdata, Hclean. subst data bad.
  injection Hrun as <-.
  split; [exact (loop_data now chunkSize (S (length (content f))) 0 (content f)
                   ltac:(lia) ltac:(lia))|].
  intros ->. cbn.
  change (len (@nil Byte.byte)) with 0.
  destruct (Z.ltb_spec 0 chunkSize); [done|lia].
Qed.

(** X12. When reading fails at offset e inside the file, ChunkFile still
    delivers chunks and reports nothing: exactly the floor(e/S) full
    chunks read before the error, which together are the first
    floor(e/S)*S bytes of the file; the bytes of the chunk in which the
    error fell are dropped. *)
Theorem read_error_keeps_full_chunks
  (files : gmap string File) (now : Z -> Z) (path : string) (f : File)
  (chunkSize : Z) (e : nat) :
  files !! path = Some f ->
  io_error_at f = Some e ->
  (e < length (content f))%nat ->
  0 < chunkSize ->
  exists cs,
    ChunkFile files now path chunkSize = Chunks cs
    /\ map (fun c => len (Data c)) cs
       = replicate (Z.to_nat (Z.of_nat e / chunkSize)) chunkSize
    /\ concat (map Data cs)
       = take (Z.to_nat (Z.of_nat e / chunkSize * chunkSize)) (content f).
Proof.
  intros Hf He Hlt Hs. unfold ChunkFile, readable. rewrite Hf, He.
  destruct (Z.ltb_spec chunkSize 0); [lia|].
  destruct (Z.eqb_spec chunkSize 0); [lia|].
  destruct (Nat.ltb_spec e (length (content f))); [|lia].
  eexists. split; [reflexivity|].
  destruct (loop_bad now chunkSize (S (length (take e (content f)))) 0
              (take e (content f)) Hs ltac:(lia)) as [H1 H2].
  assert (len (take e (content f)) = Z.of_nat e) as Hlen.
  { unfold len. rewrite length_take. lia. }
  rewrite Hlen in H1, H2. split; [exact H1|].
  rewrite H2. rewrite take_upto_take.
  assert (0 <= Z.of_nat e / chunkSize) by (apply Z.div_pos; lia).
  assert (Z.of_nat e / chunkSize * chunkSize <= Z.of_nat e).
  { rewrite Z.mul_comm. apply Z.mul_div_le. lia. }
  rewrite take_take. f_equal. lia.
Qed.

Lemma ChunkFile_numbered
  (files : gmap string File) (now : Z -> Z) (path : string) (f : File)
  (chunkSize : Z) (cs : list Chunk) :
  files !! path = Some f ->
  len (content f) <= max_int64 ->
  ChunkFile files now path chunkSize = Chunks cs ->
  (forall c, c ∈ cs -> 0 < len (Data c) <= chunkSize)
  /\ map Index cs = seqZ 0 (len cs).
Proof.
  unfold ChunkFile. intros -> Hmax Hrun.
  destruct (Z.ltb_spec chunkSize 0); [discriminate|].
  destruct (Z.eqb_spec chunkSize 0); [discriminate|].
  pose proof (readable_prefix f) as Hpre.
  destruct (readable f) as [data bad]. simpl in Hpre.
  injection Hrun as <-. split.
  - intros c Hc.
    apply (loop_bounds now chunkSize (S (length data)) 0 data bad c); [lia|exact Hc].
  - apply (loop_indices now chunkSize (S (length data)) 0 data bad); lia.
Qed.

(** X13. Whatever the file's state, every chunk delivered has at least
    one byte and at most chunk_size bytes, and the chunks are numbered
    0, 1, 2, ... in the order of emission. *)
Theorem chunks_are_bounded_and_numbered
  (files : gmap string File) (now : Z -> Z) (path : string) (f : File)
  (chunkSize : Z) (cs : list Chunk) :
  files !! path = Some f ->
  len (content f) <= max_int64 ->
  ChunkFile files now path chunkSize = Chunks cs ->
  (forall c, c ∈ cs -> 0 < len (Data c) <= chunkSize)
  /\ map Index cs = seqZ 0 (len cs).
Proof. apply ChunkFile_numbered. Qed.

End chunker_more.

(** ** The short hash of a file *)
Module hash_props.

Lemma hex_digits (b : byte) :
  is_hex (hex.digit (Z.shiftr (byte_val b) 4)) = true
  /\ is_hex (hex.digit (Z.land (byte_val b) 15)) = true.
Proof. destruct b; split; vm_compute; reflexivity. Qed.

Lemma EncodeToString_hex (l : bytes) : all_hex (hex.EncodeToString l) = true.
Proof.
  induction l as [|b l IH]; [done|].
  destruct (hex_digits b) as [H1 H2].
  cbn [hex.EncodeToString all_hex]. by rewrite H1, H2, IH.
Qed.

Lemma EncodeToString_length (l : bytes) :
  String.length (hex.EncodeToString l) = (2 * length l)%nat.
Proof. induction l as [|b l IH]; [done|]. cbn [hex.EncodeToString String.length length]. lia. Qed.

Lemma prefix_length (n : nat) : forall s,
  (n <= String.length s)%nat -> String.length (String.substring 0 n s) = n.
Proof.
  induction n as [|n IH]; intros [|c s] Hn; simpl in *; try done; try lia.
  rewrite IH; lia.
Qed.

Lemma prefix_hex (n : nat) : forall s,
  all_hex s = true -> all_hex (String.substring 0 n s) = true.
Proof.
  induction n as [|n IH]; intros [|c s]; try done.
  intros [Hc Hs]%andb_true_iff. cbn [String.substring all_hex].
  by rewrite Hc, IH.
Qed.

Lemma out_length (s : sha256.digest) : length (sha256.out s) = 32%nat.
Proof. done. Qed.

(** X14. The short hash is the empty text exactly when the file does not
    open; otherwise it is 16 lowercase hexadecimal digits. The watcher and
    the processor compute it in the same way. *)
Theorem fileHash_shape (files : gmap string File) (path : string) :
  (app.fileHash files path = EmptyString <-> files !! path = None)
  /\ (is_Some (files !! path) ->
      String.length (app.fileHash files path) = 16%nat
      /\ all_hex (app.fileHash files path) = true)
  /\ watcher.fileHash files path = app.fileHash files path.
Proof.
  split_and!; [| |done].
  - split.
    + intros E. destruct (files !! path) as [f|] eqn:Hf; [|done].
      by destruct (app_facts.fileHash_nonempty files path f Hf).
    + intros Hf. unfold app.fileHash. by rewrite Hf.
  - intros [f Hf]. unfold app.fileHash, sha256.Sum256. rewrite Hf. cbv zeta.
    split.
    + apply prefix_length. rewrite EncodeToString_length, out_length. lia.
    + apply prefix_hex, EncodeToString_hex.
Qed.

(** X15. The hash reads at most the first 10 MiB: two files that read
    without error and agree on their first 10 MiB have the same hash,
    whatever follows. A change beyond that offset is not seen. *)
Theorem fileHash_reads_ten_mebibytes
  (files : gmap string File) (p1 p2 : string) (head tail1 tail2 : bytes) :
  10 * 1024 * 1024 <= len head ->
  files !! p1 = Some (mkFile (head ++ tail1) None) ->
  files !! p2 = Some (mkFile (head ++ tail2) None) ->
  app.fileHash files p1 = app.fileHash files p2.
Proof.
  intros Hlen H1 H2. unfold app.fileHash. rewrite H1, H2. cbv zeta.
  cbn [readable io_error_at content fst].
  assert (forall t, take_upto (10 * 1024 * 1024) (head ++ t)
                    = take_upto (10 * 1024 * 1024) head) as Ht.
  { intros t. rewrite !chunker_more.take_upto_take.
    apply take_app_le. unfold len in Hlen. lia. }
  by rewrite !Ht.
Qed.

End hash_props.

(** ** The processor and the checkpoints it finds *)
Module resume_facts.
Import app.

#[local] Arguments redisstore.chunk_key : simpl never.
#[local] Arguments redisstore.progress_key : simpl never.
#[local] Arguments redisstore.status_key : simpl never.
#[local] Arguments hash_key : simpl never.
#[local] Arguments s3uploader.chunk_object : simpl never.
#[local] Arguments s3uploader.metadata_object : simpl never.
#[local] Arguments strconv.Itoa : simpl never.
#[local] Arguments marked : simpl never.
#[local] Arguments json_Marshal : simpl never.
#[local] Arguments wrap64 : simpl never.

Lemma marked_insert m sid i k v :
  marked m sid i = true ->
  (k = redisstore.chunk_key sid i -> v = "1") ->
  marked (<[k := v]> m) sid i = true.
Proof.
  unfold marked. intros Hm Hk.
  destruct (decide (k = redisstore.chunk_key sid i)) as [->|Hne].
  - rewrite lookup_insert_eq. by rewrite Hk.
  - by rewrite lookup_insert_ne.
Qed.

Lemma marked_delete m sid i k :
  marked m sid i = true -> k <> redisstore.chunk_key sid i ->
  marked (delete k m) sid i = true.
Proof. unfold marked. intros Hm Hk. by rewrite lookup_delete_ne. Qed.

Lemma kept_refl sid i w : marked (kv w) sid i = true -> kept sid i w w.
Proof. intros Hm. split; [done|]. exists []. by rewrite app_nil_r. Qed.

Lemma kept_trans sid i w1 w2 w3 :
  kept sid i w1 w2 -> kept sid i w2 w3 -> kept sid i w1 w3.
Proof.
  intros (_ & t1 & T1 & N1) (Hm & t2 & T2 & N2). split; [done|].
  exists (t1 ++ t2). split; [by rewrite T2, T1, app_assoc|].
  by rewrite List.filter_app, N1, N2.
Qed.

Lemma other_index sid i j : j <> i -> String.eqb sid sid && (j =? i) = false.
Proof. intros H. destruct (Z.eqb_spec j i); [done|]. by rewrite andb_false_r. Qed.

Ltac kept_by t :=
  cbn;
  split;
  [ try done
  | exists t; split;
    [ by rewrite <- ?app_assoc
    | cbn; rewrite ?other_index by done; done ] ].

Ltac logged :=
  eexists; split; [rewrite <- ?app_assoc; reflexivity|cbn; done].

Ltac still_marked Hm Hpk :=
  repeat (apply marked_insert; [|first [done | intros E; by destruct (Hpk E)]]);
  exact Hm.

Lemma process_chunk_kept sid c metas total w i :
  marked (kv w) sid i = true ->
  kept sid i w (snd (process_chunk sid c (metas, total, w))).
Proof.
  intros Hm. unfold kept, process_chunk, redisstore.IsChunkUploaded, redis.Get.
  destruct (next_fault (redis_faults w)) as [[] p1]; cbn.
  { kept_by [EvIsChunkUploaded sid (chunker.Index c) false (Some call_failed)]. }
  assert (forall v, kv w !! redisstore.chunk_key sid (chunker.Index c) = v ->
            match v with
            | Some v => String.eqb v "1" || String.eqb v "true" = false
            | None => True
            end -> chunker.Index c <> i) as Hne.
  { intros v Hv Hf E. subst i. unfold marked in Hm. rewrite Hv in Hm.
    destruct v; congruence. }
  assert (redisstore.progress_key sid <> redisstore.chunk_key sid i) as Hpk.
  { apply not_eq_sym, redisstore_props.chunk_key_not_others. }
  assert (chunker.Index c <> i ->
          kept sid i w
            (snd (let '(err, w0) :=
                    s3uploader.UploadChunk sid (chunker.Index c) (chunker.Data c)
                      (log (EvIsChunkUploaded sid (chunker.Index c) false None)
                         (with_redis_faults p1 w)) in
                  match err with
                  | Some _ => (metas, total, metrics_.UploadFailures_Inc w0)
                  | None =>
                      let '(err0, w1) :=
                        redisstore.SetChunkUploaded sid (chunker.Index c) w0 in
                      let '(_, w2) :=
                        redisstore.SetStreamProgress sid (chunker.Index c)
                          (metrics_.ChunksUploaded_Inc
                             match err0 with
                             | Some _ => metrics_.RedisErrors_Inc w1
                             | None => w1
                             end) in
                      ((metas ++ [mkChunkMeta (chunker.Index c) (chunker.Checksum c)
                                    (chunker.Timestamp c)])%list,
                       wrap64 (total + len (chunker.Data c)), w2)
                  end))) as Htail.
  { intros Hi. unfold kept, s3uploader.UploadChunk, s3uploader.PutObject. cbn.
    destruct (next_fault (s3_faults w)) as [[] p2]; cbn.
    { kept_by [EvIsChunkUploaded sid (chunker.Index c) false None;
               EvUploadChunk sid (chunker.Index c) (chunker.Data c) (Some call_failed)]. }
    unfold redisstore.SetChunkUploaded, redisstore.SetStreamProgress, redis.Set_. cbn.
    destruct (next_fault p1) as [[] p3]; cbn;
      destruct (next_fault p3) as [[] p4]; cbn;
      (split;
       [ still_marked Hm Hpk
       | eexists [_; _; _; _]; split;
         [ by rewrite <- !app_assoc
         | cbn; rewrite ?other_index by done; done ] ]). }
  destruct (kv w !! redisstore.chunk_key sid (chunker.Index c)) as [v|] eqn:Ev; cbn.
  - destruct (String.eqb v "1" || String.eqb v "true") eqn:Eok; cbn.
    { kept_by [EvIsChunkUploaded sid (chunker.Index c) true None]. }
    apply Htail, (Hne _ eq_refl Eok).
  - apply Htail, (Hne _ eq_refl I).
Qed.

Lemma range_chunks_kept sid i cs : forall metas total w,
  marked (kv w) sid i = true ->
  kept sid i w (snd (range_chunks sid cs (metas, total, w))).
Proof.
  induction cs as [|c cs IH]; intros metas total w Hm; [by apply kept_refl|].
  cbn [range_chunks].
  pose proof (process_chunk_kept sid c metas total w i Hm) as H1.
  destruct (process_chunk sid c (metas, total, w)) as [[metas1 total1] w1].
  cbn [snd] in H1. eapply kept_trans; [exact H1|]. apply IH, H1.
Qed.

Lemma GetValue_kept sid i key w :
  marked (kv w) sid i = true -> kept sid i w (snd (redisstore.GetValue key w)).
Proof.
  intros Hm. unfold kept, redisstore.GetValue, redis.Get.
  destruct (next_fault (redis_faults w)) as [[] p1]; cbn; [split; [done|logged]|].
  destruct (kv w !! key); cbn; (split; [done|logged]).
Qed.

Lemma GetStreamStatus_kept sid i sid' w :
  marked (kv w) sid i = true -> kept sid i w (snd (redisstore.GetStreamStatus sid' w)).
Proof.
  intros Hm. unfold kept, redisstore.GetStreamStatus, redis.Get.
  destruct (next_fault (redis_faults w)) as [[] p1]; cbn; [split; [done|logged]|].
  destruct (kv w !! redisstore.status_key sid'); cbn; (split; [done|logged]).
Qed.

Lemma SetValue_kept sid i sid' v ttl w :
  marked (kv w) sid i = true ->
  kept sid i w (snd (redisstore.SetValue (hash_key sid') v ttl w)).
Proof.
  intros Hm. unfold kept, redisstore.SetValue, redis.Set_.
  destruct (next_fault (redis_faults w)) as [[] p1]; cbn; [split; [done|logged]|].
  split; [|logged].
  apply marked_insert; [done|]. intros E.
  by destruct (redisstore_props.chunk_key_not_others sid i sid') as (_ & _ & []).
Qed.

Lemma reset_if_changed_kept sid i sid' prev h w :
  marked (kv w) sid i = true -> kept sid i w (reset_if_changed sid' prev h w).
Proof.
  intros Hm. unfold reset_if_changed.
  destruct (negb (String.eqb prev EmptyString) && negb (String.eqb prev h));
    [|by apply kept_refl].
  destruct (redisstore_props.chunk_key_not_others sid i sid') as (Hs & Hp & _).
  unfold kept, redisstore.DeleteKey, redisstore.SetStreamProgress, redis.Del, redis.Set_.
  destruct (next_fault (redis_faults w)) as [[] p1]; cbn;
    destruct (next_fault p1) as [[] p2]; cbn;
    (split; [|logged]);
    repeat first [ exact Hm
                 | apply marked_insert; [|intros E; by destruct Hp]
                 | apply marked_delete; [|by apply not_eq_sym] ].
Qed.

(** *** A run without faults *)

Ltac clear_step H :=
  match goal with
  | |- context [next_fault ?p] =>
      let d := fresh "d" in
      let q := fresh "q" in
      let Hd := fresh "Hd" in
      let Hq := fresh "Hq" in
      destruct (watcher_props.next_fault_all_clear p H) as [Hd Hq];
      destruct (next_fault p) as [d q]; cbn [fst snd] in Hd, Hq; subst d
  end.

Lemma process_chunk_clear sid c metas total w :
  all_clear w ->
  exists w',
    (if marked (kv w) sid (chunker.Index c) then
         process_chunk sid c (metas, total, w) = (metas, total, w')
         /\ kv w' = kv w /\ expiry w' = expiry w /\ objects w' = objects w
         /\ metrics w' = metrics w
         /\ trace w' = trace w ++ [EvIsChunkUploaded sid (chunker.Index c) true None]
       else
         process_chunk sid c (metas, total, w)
         = (metas ++ [meta_of c], wrap64 (total + len (chunker.Data c)), w')
         /\ kv w' = <[redisstore.progress_key sid := strconv.Itoa (chunker.Index c)]>
                      (<[redisstore.chunk_key sid (chunker.Index c) := "1"]> (kv w))
         /\ expiry w' = delete (redisstore.progress_key sid)
                          (delete (redisstore.chunk_key sid (chunker.Index c)) (expiry w))
         /\ objects w' = <[s3uploader.chunk_object sid (chunker.Index c)
                            := mkObject (chunker.Data c) EmptyString]> (objects w)
         /\ metrics w' = metrics (metrics_.ChunksUploaded_Inc w)
         /\ trace w' = trace w ++
              [EvIsChunkUploaded sid (chunker.Index c) false None;
               EvUploadChunk sid (chunker.Index c) (chunker.Data c) None;
               EvSetChunkUploaded sid (chunker.Index c) None;
               EvSetStreamProgress sid (chunker.Index c) None])
    /\ all_clear w' /\ fs w' = fs w /\ clock w' = clock w.
Proof.
  intros [Hr Hs]. unfold process_chunk, redisstore.IsChunkUploaded, redis.Get.
  clear_step Hr. cbn. unfold marked.
  destruct (kv w !! redisstore.chunk_key sid (chunker.Index c)) as [v|] eqn:Ev; cbn;
    [destruct (String.eqb v "1" || String.eqb v "true") eqn:Eok; cbn|].
  { eexists. split_and!; try reflexivity. by split. }
  all: unfold s3uploader.UploadChunk, s3uploader.PutObject; cbn;
    clear_step Hs; cbn;
    unfold redisstore.SetChunkUploaded, redisstore.SetStreamProgress, redis.Set_; cbn;
    clear_step Hq; cbn; clear_step Hq1; cbn;
    eexists; split_and!; try reflexivity; cbn; try done;
    try (by rewrite <- !app_assoc); by split.
Qed.

Lemma marked_after_upload m sid idx j x :
  0 <= idx -> 0 <= j ->
  marked (<[redisstore.progress_key sid := x]>
            (<[redisstore.chunk_key sid idx := "1"]> m)) sid j
  = marked m sid j || bool_decide (j = idx).
Proof.
  intros Hi Hj. unfold marked.
  rewrite lookup_insert_ne
    by (apply not_eq_sym, redisstore_props.chunk_key_not_others).
  case_bool_decide as E.
  - subst j. rewrite lookup_insert_eq. cbn. by rewrite orb_true_r.
  - rewrite lookup_insert_ne; [by rewrite orb_false_r|].
    intros E'. apply text_facts.chunk_key_inj in E'; [congruence|done..].
Qed.

Lemma bool_decide_or_cons (j x : Z) (l : list Z) :
  bool_decide (j = x) || bool_decide (j ∈ l) = bool_decide (j ∈ x :: l).
Proof.
  rewrite <- bool_decide_or. apply bool_decide_ext. by rewrite elem_of_cons.
Qed.

Lemma range_chunks_clear sid cs : forall metas total w,
  NoDup (map chunker.Index cs) ->
  Forall (fun c => 0 <= chunker.Index c) cs ->
  all_clear w ->
  exists w' ts,
    range_chunks sid cs (metas, total, w)
    = (metas ++ map meta_of (List.filter (unmarked (kv w) sid) cs),
       added_up (List.filter (unmarked (kv w) sid) cs) total, w')
    /\ all_clear w' /\ fs w' = fs w /\ clock w' = clock w
    /\ trace w' = trace w ++ ts
    /\ List.filter is_upload_chunk ts
       = map (uploaded_event sid) (List.filter (unmarked (kv w) sid) cs)
    /\ (forall j, 0 <= j ->
          marked (kv w') sid j
          = marked (kv w) sid j || bool_decide (j ∈ map chunker.Index cs))
    /\ (forall c, c ∈ List.filter (unmarked (kv w) sid) cs ->
          objects w' !! s3uploader.chunk_object sid (chunker.Index c)
          = Some (mkObject (chunker.Data c) EmptyString))
    /\ (forall name, (forall c, c ∈ cs -> name <> s3uploader.chunk_object sid (chunker.Index c)) ->
          objects w' !! name = objects w !! name)
    /\ (forall k, (forall c, c ∈ cs -> k <> redisstore.chunk_key sid (chunker.Index c)) ->
          k <> redisstore.progress_key sid ->
          kv w' !! k = kv w !! k /\ expiry w' !! k = expiry w !! k).
Proof.
  induction cs as [|c cs IH]; intros metas total w Hnd Hpos Hclear.
  { exists w, []. cbn. rewrite !app_nil_r. split_and!; try done.
    - intros j _. by rewrite orb_false_r.
    - intros c Hc. by apply elem_of_nil in Hc. }
  apply NoDup_cons in Hnd as [Hc Hnd]. apply Forall_cons in Hpos as [Hc0 Hpos].
  cbn [range_chunks map].
  destruct (process_chunk_clear sid c metas total w Hclear)
    as (w1 & Hstep & Hclear1 & Hfs1 & Hck1).
  assert (forall j, 0 <= j ->
            marked (kv w1) sid j
            = marked (kv w) sid j || bool_decide (j = chunker.Index c)) as Hm1.
  { intros j Hj. destruct (marked (kv w) sid (chunker.Index c)) eqn:Em.
    - destruct Hstep as (_ & -> & _). case_bool_decide as E; [|by rewrite orb_false_r].
      subst j. by rewrite Em.
    - destruct Hstep as (_ & -> & _). by apply marked_after_upload. }
  assert (List.filter (unmarked (kv w1) sid) cs = List.filter (unmarked (kv w) sid) cs)
    as Hsame.
  { apply List.filter_ext_in. intros c' Hc'. unfold unmarked. f_equal.
    rewrite Hm1.
    - case_bool_decide as E; [|by rewrite orb_false_r].
      destruct Hc. rewrite <- E. apply list_elem_of_fmap. exists c'. split; [done|].
      by apply list_elem_of_In.
    - rewrite Forall_forall in Hpos. apply Hpos. by apply list_elem_of_In. }
  destruct (marked (kv w) sid (chunker.Index c)) eqn:Em.
  - destruct Hstep as (-> & Hkv1 & Hex1 & Hob1 & _ & T1).
    destruct (IH metas total w1 Hnd Hpos Hclear1)
      as (w' & ts & -> & Hclear' & Hfs' & Hck' & T' & Hup & Hm' & Hobj & Hof & Hkf).
    rewrite Hsame in *.
    assert (List.filter (unmarked (kv w) sid) (c :: cs)
            = List.filter (unmarked (kv w) sid) cs) as ->.
    { cbn. unfold unmarked at 1. by rewrite Em. }
    exists w', (EvIsChunkUploaded sid (chunker.Index c) true None :: ts).
    split_and!; try done; try congruence.
    + by rewrite T', T1, <- app_assoc.
    + intros j Hj. rewrite Hm', Hm1 by done. rewrite <- orb_assoc. f_equal.
      apply bool_decide_or_cons.
    + intros name Hn. rewrite Hof, Hob1; [done|]. intros c' Hc'. apply Hn. by right.
    + intros k Hk Hp. destruct (Hkf k) as [-> ->]; [|done|by rewrite Hkv1, Hex1].
      intros c' Hc'. apply Hk. by right.
  - destruct Hstep as (-> & Hkv1 & Hex1 & Hob1 & _ & T1).
    destruct (IH (metas ++ [meta_of c]) (wrap64 (total + len (chunker.Data c))) w1
                Hnd Hpos Hclear1)
      as (w' & ts & -> & Hclear' & Hfs' & Hck' & T' & Hup & Hm' & Hobj & Hof & Hkf).
    rewrite Hsame in *.
    assert (List.filter (unmarked (kv w) sid) (c :: cs)
            = c :: List.filter (unmarked (kv w) sid) cs) as ->.
    { cbn. unfold unmarked at 1. by rewrite Em. }
    exists w', ([EvIsChunkUploaded sid (chunker.Index c) false None;
                 EvUploadChunk sid (chunker.Index c) (chunker.Data c) None;
                 EvSetChunkUploaded sid (chunker.Index c) None;
                 EvSetStreamProgress sid (chunker.Index c) None] ++ ts).
    split_and!; try done; try congruence.
    + by rewrite <- app_assoc.
    + by rewrite T', T1, <- app_assoc.
    + rewrite List.filter_app, Hup. done.
    + intros j Hj. rewrite Hm', Hm1 by done. rewrite <- orb_assoc. f_equal.
      apply bool_decide_or_cons.
    + intros c' [->|Hc']%elem_of_cons; [|by apply Hobj].
      rewrite Hof, Hob1; [apply lookup_insert_eq|].
      intros c' Hc' E. apply text_facts.chunk_object_inj in E; [|done|].
      * destruct Hc. rewrite E. apply list_elem_of_fmap. by exists c'.
      * rewrite Forall_forall in Hpos. by apply Hpos.
    + intros name Hn. rewrite Hof, Hob1.
      * apply lookup_insert_ne, not_eq_sym, Hn. by left.
      * intros c' Hc'. apply Hn. by right.
    + intros k Hk Hp. destruct (Hkf k) as [-> ->]; [|done|].
      { intros c' Hc'. apply Hk. by right. }
      rewrite Hkv1, Hex1.
      assert (k <> redisstore.chunk_key sid (chunker.Index c)) by (apply Hk; by left).
      rewrite !lookup_insert_ne, !lookup_delete_ne by done. done.
Qed.

Section WithTimeFormat.
Variable RFC3339 : Z -> string.

Lemma finish_kept sid i sid' metas total w :
  marked (kv w) sid i = true ->
  kept sid i w (finish RFC3339 sid' (metas, total, w)).
Proof.
  intros Hm.
  destruct (redisstore_props.chunk_key_not_others sid i sid') as (Hs & _ & _).
  unfold kept, finish, s3uploader.UploadMetadata, s3uploader.PutObject,
    redisstore.SetStreamStatus, redisstore.SetStreamTTL, redis.Set_, redis.Expire.
  rewrite (proj2 redisstore_facts.formatSec_7d), ?(proj1 redisstore_facts.formatSec_7d).
  destruct (next_fault (s3_faults w)) as [[] p1]; cbn;
    destruct (next_fault (redis_faults w)) as [[] p2]; cbn;
    destruct (next_fault p2) as [[] p3]; cbn;
    rewrite ?lookup_insert_eq; try destruct (kv w !! redisstore.status_key sid'); cbn;
    (split; [|logged]);
    repeat first [ exact Hm
                 | apply marked_insert; [|intros E; by destruct Hs] ].
Qed.

Lemma finish_clear sid metas total w :
  all_clear w ->
  let w' := finish RFC3339 sid (metas, total, w) in
  objects w' = <[s3uploader.metadata_object sid
                 := mkObject (json_Marshal RFC3339 (mkMetadata total metas))
                      "application/json"]> (objects w)
  /\ kv w' = <[redisstore.status_key sid := "completed"]> (kv w)
  /\ expiry w' = <[redisstore.status_key sid := ttl_7d]>
                   (delete (redisstore.status_key sid) (expiry w))
  /\ trace w' = trace w ++
       [EvUploadMetadata sid (json_Marshal RFC3339 (mkMetadata total metas)) None;
        EvSetStreamStatus sid "completed" None;
        EvSetStreamTTL sid ttl_7d None]
  /\ metrics w' = metrics w /\ fs w' = fs w /\ all_clear w'.
Proof.
  intros [Hr Hs]. cbv zeta.
  unfold finish, s3uploader.UploadMetadata, s3uploader.PutObject,
    redisstore.SetStreamStatus, redisstore.SetStreamTTL, redis.Set_, redis.Expire.
  rewrite (proj2 redisstore_facts.formatSec_7d), ?(proj1 redisstore_facts.formatSec_7d).
  clear_step Hs. cbn. clear_step Hr. cbn. clear_step Hq0. cbn.
  rewrite lookup_insert_eq. cbn.
  split_and!; try done; try (by rewrite <- !app_assoc); by split.
Qed.

Lemma filter_sublist {A} (p : A -> bool) (l : list A) : sublist (List.filter p l) l.
Proof.
  induction l as [|x l IH]; [done|]. cbn. destruct (p x); by constructor.
Qed.

Lemma hash_key_not_others sid sid' :
  hash_key sid <> redisstore.status_key sid'
  /\ hash_key sid <> redisstore.progress_key sid'.
Proof. unfold hash_key, redisstore.status_key, redisstore.progress_key. simpl. done. Qed.

Lemma reset_if_changed_clear sid prev h w :
  all_clear w ->
  let w' := reset_if_changed sid prev h w in
  all_clear w' /\ fs w' = fs w /\ clock w' = clock w /\ objects w' = objects w
  /\ (forall k, k <> redisstore.status_key sid -> k <> redisstore.progress_key sid ->
        kv w' !! k = kv w !! k /\ expiry w' !! k = expiry w !! k)
  /\ exists t, trace w' = trace w ++ t /\ List.filter is_upload_chunk t = [].
Proof.
  intros [Hr Hs]. cbv zeta. unfold reset_if_changed.
  destruct (negb (String.eqb prev EmptyString) && negb (String.eqb prev h)).
  - unfold redisstore.DeleteKey, redisstore.SetStreamProgress, redis.Del, redis.Set_.
    clear_step Hr. cbn. clear_step Hq. cbn.
    split_and!; [by split|done|done|done| |].
    + intros k Hk1 Hk2. by rewrite !lookup_insert_ne, !lookup_delete_ne.
    + eexists. split; [by rewrite <- app_assoc|done].
  - split_and!; [by split|done|done|done|done|]. exists []. by rewrite app_nil_r.
Qed.

Lemma SetValue_clear key v w :
  all_clear w ->
  exists w', redisstore.SetValue key v ttl_7d w = (None, w')
    /\ all_clear w' /\ fs w' = fs w /\ clock w' = clock w /\ objects w' = objects w
    /\ kv w' = <[key := v]> (kv w) /\ expiry w' = <[key := ttl_7d]> (expiry w)
    /\ trace w' = trace w ++ [EvSetValue key v ttl_7d None].
Proof.
  intros [Hr Hs]. unfold redisstore.SetValue, redis.Set_.
  clear_step Hr. cbn. eexists. split_and!; try reflexivity. by split.
Qed.

Lemma GetValue_clear key w :
  all_clear w ->
  exists e w',
    redisstore.GetValue key w = (default EmptyString (kv w !! key), e, w')
    /\ all_clear w' /\ fs w' = fs w /\ clock w' = clock w /\ objects w' = objects w
    /\ kv w' = kv w /\ expiry w' = expiry w
    /\ trace w' = trace w ++ [EvGetValue key (default EmptyString (kv w !! key)) e].
Proof.
  intros [Hr Hs]. unfold redisstore.GetValue, redis.Get. clear_step Hr. cbn.
  destruct (kv w !! key); do 2 eexists; split_and!; try reflexivity; by split.
Qed.

Lemma GetStreamStatus_clear sid w :
  all_clear w ->
  exists e w',
    redisstore.GetStreamStatus sid w
    = (default EmptyString (kv w !! redisstore.status_key sid), e, w')
    /\ all_clear w' /\ fs w' = fs w /\ clock w' = clock w /\ objects w' = objects w
    /\ kv w' = kv w /\ expiry w' = expiry w
    /\ trace w' = trace w ++
         [EvGetStreamStatus sid (default EmptyString (kv w !! redisstore.status_key sid)) e].
Proof.
  intros [Hr Hs]. unfold redisstore.GetStreamStatus, redis.Get. clear_step Hr. cbn.
  destruct (kv w !! redisstore.status_key sid);
    do 2 eexists; split_and!; try reflexivity; by split.
Qed.

Lemma processFile_clear cfg file w f :
  0 < ChunkSize cfg ->
  fs w !! file = Some f ->
  len (content f) <= max_int64 ->
  all_clear w ->
  ~ (kv w !! hash_key (filepath.Base file) = Some (fileHash (fs w) file)
     /\ kv w !! redisstore.status_key (filepath.Base file) = Some "completed") ->
  exists w' cs t,
    processFile RFC3339 cfg file w = Returns w'
    /\ chunker.ChunkFile (fs w) (clock w) file (ChunkSize cfg) = chunker.Chunks cs
    /\ trace w' = trace w ++ t
    /\ List.filter is_upload_chunk t
       = map (uploaded_event (filepath.Base file))
           (List.filter (unmarked (kv w) (filepath.Base file)) cs)
    /\ (forall c, c ∈ cs -> marked (kv w') (filepath.Base file) (chunker.Index c) = true)
    /\ (forall c, c ∈ List.filter (unmarked (kv w) (filepath.Base file)) cs ->
          objects w' !! s3uploader.chunk_object (filepath.Base file) (chunker.Index c)
          = Some (mkObject (chunker.Data c) EmptyString))
    /\ objects w' !! s3uploader.metadata_object (filepath.Base file)
       = Some (mkObject
                 (json_Marshal RFC3339
                    (mkMetadata
                       (total_len (List.filter (unmarked (kv w) (filepath.Base file)) cs))
                       (map meta_of (List.filter (unmarked (kv w) (filepath.Base file)) cs))))
                 "application/json")
    /\ kv w' !! redisstore.status_key (filepath.Base file) = Some "completed"
    /\ expiry w' !! redisstore.status_key (filepath.Base file) = Some ttl_7d
    /\ kv w' !! hash_key (filepath.Base file) = Some (fileHash (fs w) file)
    /\ expiry w' !! hash_key (filepath.Base file) = Some ttl_7d
    /\ all_clear w' /\ fs w' = fs w.
Proof.
  intros Hsize Hf Hmax Hclear Hguard. unfold processFile.
  set (sid := filepath.Base file) in *. set (h := fileHash (fs w) file) in *.
  pose proof (app_facts.fileHash_nonempty _ _ _ Hf) as Hh. fold h in Hh.
  destruct (String.eqb_spec h EmptyString) as [|_]; [done|].
  destruct (GetValue_clear (hash_key sid) w Hclear)
    as (e1 & w1 & -> & Hclear1 & Hfs1 & Hck1 & Hob1 & Hkv1 & Hex1 & T1).
  set (prev := default EmptyString (kv w !! hash_key sid)) in *.
  destruct (GetStreamStatus_clear sid w1 Hclear1)
    as (e2 & w2 & -> & Hclear2 & Hfs2 & Hck2 & Hob2 & Hkv2 & Hex2 & T2).
  rewrite Hkv1 in *.
  set (st := default EmptyString (kv w !! redisstore.status_key sid)) in *.
  assert (String.eqb prev h && String.eqb st "completed" = false) as ->.
  { apply not_true_is_false. intros [Ep%String.eqb_eq Es%String.eqb_eq]%andb_true_iff.
    apply Hguard. unfold prev, st in *.
    destruct (kv w !! hash_key sid); [|by destruct Hh].
    destruct (kv w !! redisstore.status_key sid); [|discriminate].
    cbn in *. by subst. }
  destruct (reset_if_changed_clear sid prev h w2 Hclear2)
    as (Hclear3 & Hfs3 & Hck3 & Hob3 & Hfr3 & t3 & T3 & N3).
  set (w3 := reset_if_changed sid prev h w2) in *.
  destruct (SetValue_clear (hash_key sid) h w3 Hclear3)
    as (w4 & -> & Hclear4 & Hfs4 & Hck4 & Hob4 & Hkv4 & Hex4 & T4).
  assert (fs w4 = fs w) as Hfs by congruence.
  assert (clock w4 = clock w) as Hck by congruence.
  rewrite Hfs, Hck.
  destruct (chunker_props.ChunkFile_opens (fs w) (clock w) file (ChunkSize cfg))
    as (cs & Hcs); [by eexists|done|].
  rewrite Hcs.
  destruct (chunker_more.ChunkFile_numbered _ _ _ _ _ _ Hf Hmax Hcs)
    as [_ Hidx].
  assert (NoDup (map chunker.Index cs)) as Hnd by (rewrite Hidx; apply NoDup_seqZ).
  assert (Forall (fun c => 0 <= chunker.Index c) cs) as Hpos.
  { apply Forall_forall. intros c Hc.
    assert (chunker.Index c ∈ seqZ 0 (len cs)) as Hin.
    { rewrite <- Hidx. apply list_elem_of_fmap. by exists c. }
    apply elem_of_seqZ in Hin. lia. }
  destruct (redisstore_props.chunk_key_not_others sid 0 sid) as (_ & _ & _).
  assert (forall j, kv w4 !! redisstore.chunk_key sid j
                    = kv w !! redisstore.chunk_key sid j) as Hck4'.
  { intros j. destruct (redisstore_props.chunk_key_not_others sid j sid) as (N1 & N2 & N3').
    rewrite Hkv4, lookup_insert_ne by done.
    destruct (Hfr3 (redisstore.chunk_key sid j) N1 N2) as [-> _]. by rewrite Hkv2. }
  assert (forall j, marked (kv w4) sid j = marked (kv w) sid j) as Hm4.
  { intros j. unfold marked. by rewrite Hck4'. }
  assert (List.filter (unmarked (kv w4) sid) cs = List.filter (unmarked (kv w) sid) cs)
    as Hsame.
  { apply List.filter_ext. intros c. unfold unmarked. by rewrite Hm4. }
  destruct (range_chunks_clear sid cs [] 0 w4 Hnd Hpos Hclear4)
    as (w5 & ts & -> & Hclear5 & Hfs5 & Hck5 & T5 & Hup & Hm5 & Hobj & Hof & Hkf).
  rewrite Hsame in *. set (ups := List.filter (unmarked (kv w) sid) cs) in *.
  destruct (finish_clear sid ([] ++ map meta_of ups) (added_up ups 0) w5 Hclear5)
    as (Hob6 & Hkv6 & Hex6 & T6 & _ & Hfs6 & Hclear6).
  set (w6 := finish RFC3339 sid ([] ++ map meta_of ups, added_up ups 0, w5)) in *.
  destruct (hash_key_not_others sid sid) as [Hhs Hhp].
  assert (added_up ups 0 = total_len ups) as Htotal.
  { rewrite added_up_exact; [lia|lia|].
    pose proof (total_len_sublist ups cs (filter_sublist _ _)).
    destruct (chunker_props.ChunkFile_within _ _ _ _ _ _ Hf Hcs) as [Hw _].
    rewrite <- total_len_concat in Hw. lia. }
  exists w6, cs,
    ([EvGetValue (hash_key sid) prev e1] ++ [EvGetStreamStatus sid st e2] ++ t3
     ++ [EvSetValue (hash_key sid) h ttl_7d None] ++ ts
     ++ [EvUploadMetadata sid
           (json_Marshal RFC3339
              (mkMetadata (added_up ups 0) ([] ++ map meta_of ups))) None;
         EvSetStreamStatus sid "completed" None;
         EvSetStreamTTL sid ttl_7d None]).
  split_and!; try done.
  - rewrite T6, T5, T4, T3, T2, T1, <- !app_assoc. reflexivity.
  - rewrite !List.filter_app, N3, Hup. cbn. by rewrite app_nil_r.
  - intros c Hc. rewrite Hkv6. apply marked_insert.
    + rewrite Hm5.
      * rewrite bool_decide_eq_true_2; [by rewrite orb_true_r|].
        apply list_elem_of_fmap. by exists c.
      * rewrite Forall_forall in Hpos. by apply Hpos.
    + intros E. by destruct (redisstore_props.chunk_key_not_others sid (chunker.Index c) sid)
        as ([] & _).
  - intros c Hc. rewrite Hob6, lookup_insert_ne; [by apply Hobj|].
    apply not_eq_sym, s3uploader_props.chunk_object_not_metadata.
    rewrite Forall_forall in Hpos. apply Hpos.
    apply list_elem_of_In, List.filter_In in Hc as [Hc _]. by apply list_elem_of_In.
  - rewrite Hob6, lookup_insert_eq, Htotal. done.
  - by rewrite Hkv6, lookup_insert_eq.
  - by rewrite Hex6, lookup_insert_eq.
  - rewrite Hkv6, lookup_insert_ne by (by apply not_eq_sym).
    destruct (Hkf (hash_key sid)) as [-> _]; [| done |by rewrite Hkv4, lookup_insert_eq].
    intros c _. apply not_eq_sym, redisstore_props.chunk_key_not_others.
  - rewrite Hex6, lookup_insert_ne, lookup_delete_ne by (by apply not_eq_sym).
    destruct (Hkf (hash_key sid)) as [_ ->]; [| done |by rewrite Hex4, lookup_insert_eq].
    intros c _. apply not_eq_sym, redisstore_props.chunk_key_not_others.
  - congruence.
Qed.

Lemma processFile_nothing_left
  (cfg : Config) (file : string) (w : World) (f : File) (cs : list chunker.Chunk) :
  0 < ChunkSize cfg ->
  fs w !! file = Some f ->
  len (content f) <= max_int64 ->
  all_clear w ->
  ~ (kv w !! hash_key (filepath.Base file) = Some (fileHash (fs w) file)
     /\ kv w !! redisstore.status_key (filepath.Base file) = Some "completed") ->
  chunker.ChunkFile (fs w) (clock w) file (ChunkSize cfg) = chunker.Chunks cs ->
  (forall c, c ∈ cs -> marked (kv w) (filepath.Base file) (chunker.Index c) = true) ->
  exists w' t,
    processFile RFC3339 cfg file w = Returns w'
    /\ trace w' = trace w ++ t
    /\ count is_upload_chunk t = 0%nat
    /\ objects w' !! s3uploader.metadata_object (filepath.Base file)
       = Some (mkObject (json_Marshal RFC3339 (mkMetadata 0 [])) "application/json")
    /\ json_Marshal RFC3339 (mkMetadata 0 [])
       = bytes_of_string ("{" +:+ quoted "total_size" +:+ ":0,"
                              +:+ quoted "chunks" +:+ ":null}")
    /\ kv w' !! redisstore.status_key (filepath.Base file) = Some "completed".
Proof.
  intros Hsize Hf Hmax Hclear Hguard Hcs Hall.
  destruct (processFile_clear cfg file w f Hsize Hf Hmax Hclear Hguard)
    as (w' & cs' & t & Hrun & Hcs' & T & Hup & _ & _ & Hmeta & Hst & _).
  rewrite Hcs in Hcs'. injection Hcs' as <-.
  assert (List.filter (unmarked (kv w) (filepath.Base file)) cs = []) as Hnone.
  { clear -Hall. induction cs as [|c cs IH]; [done|]. cbn.
    unfold unmarked at 1. rewrite Hall by (by left). cbn.
    apply IH. intros c' Hc'. apply Hall. by right. }
  rewrite Hnone in *. exists w', t. unfold count. rewrite Hup.
  split_and!; try done.
Qed.

Lemma processFile_kept cfg file w i :
  0 < ChunkSize cfg ->
  marked (kv w) (filepath.Base file) i = true ->
  exists w', processFile RFC3339 cfg file w = Returns w'
             /\ kept (filepath.Base file) i w w'.
Proof.
  intros Hsize Hm. unfold processFile.
  set (sid := filepath.Base file) in *. set (h := fileHash (fs w) file).
  destruct (String.eqb_spec h EmptyString) as [E|Hh].
  { eexists. split; [done|]. by apply kept_refl. }
  pose proof (GetValue_kept sid i (hash_key sid) w Hm) as K1.
  destruct (redisstore_facts.GetValue_spec (hash_key sid) w)
    as (prev & e1 & w1 & E1 & _ & _ & _ & F1 & _).
  rewrite E1 in K1 |- *. cbn [snd] in K1.
  pose proof (GetStreamStatus_kept sid i sid w1 (proj1 K1)) as K2.
  destruct (redisstore_facts.GetStreamStatus_spec sid w1)
    as (st & e2 & w2 & E2 & _ & _ & _ & F2 & _).
  rewrite E2 in K2 |- *. cbn [snd] in K2.
  pose proof (kept_trans _ _ _ _ _ K1 K2) as K12.
  destruct (String.eqb prev h && String.eqb st "completed"); [by eexists|].
  pose proof (reset_if_changed_kept sid i sid prev h w2 (proj1 K2)) as K3.
  destruct (app_facts.reset_if_changed_spec sid prev h w2) as (_ & _ & _ & F3 & C3 & _).
  set (w3 := reset_if_changed sid prev h w2) in *.
  pose proof (SetValue_kept sid i sid h ttl_7d w3 (proj1 K3)) as K4.
  destruct (redisstore_facts.SetValue_spec (hash_key sid) h ttl_7d w3)
    as (e3 & w4 & E4 & _ & F4 & _).
  rewrite E4 in K4 |- *. cbn [snd] in K4.
  destruct F1 as (Hfs1 & Hck1 & _), F2 as (Hfs2 & Hck2 & _), F4 as (Hfs4 & Hck4 & _).
  assert (fs w4 = fs w) as -> by congruence.
  assert (clock w4 = clock w) as -> by congruence.
  destruct (chunker_props.ChunkFile_opens (fs w) (clock w) file (ChunkSize cfg))
    as (cs & ->); [by apply app_facts.fileHash_opens|done|].
  pose proof (range_chunks_kept sid i cs [] 0 w4 (proj1 K4)) as K5.
  destruct (range_chunks sid cs ([], 0, w4)) as [[metas total] w5].
  cbn [snd] in K5.
  pose proof (finish_kept sid i sid metas total w5 (proj1 K5)) as K6.
  eexists. split; [done|].
  exact (kept_trans _ _ _ _ _ K12 (kept_trans _ _ _ _ _ K3
           (kept_trans _ _ _ _ _ K4 (kept_trans _ _ _ _ _ K5 K6)))).
Qed.

End WithTimeFormat.

End resume_facts.

Module resume_props.
Import app.

Section WithTimeFormat.
Variable RFC3339 : Z -> string.

(** X16. A chunk whose checkpoint reads as set when the run starts is not
    uploaded by the run, and its checkpoint still reads as set when the
    run ends: whatever calls fail, whether the file is still there or
    not, and also when the stored hash is another one than the file's, in
    which case the run resets the status and the progress but not the
    checkpoints. *)
Theorem checkpointed_chunk_is_not_uploaded
  (cfg : Config) (file : string) (w : World) (i : Z) :
  0 < ChunkSize cfg ->
  marked (kv w) (filepath.Base file) i = true ->
  exists w' t,
    processFile RFC3339 cfg file w = Returns w'
    /\ trace w' = trace w ++ t
    /\ List.filter (is_upload_of (filepath.Base file) i) t = []
    /\ marked (kv w') (filepath.Base file) i = true.
Proof.
  intros Hsize Hm.
  destruct (resume_facts.processFile_kept RFC3339 cfg file w i Hsize Hm)
    as (w' & Hrun & Hm' & t & T & N).
  by exists w', t.
Qed.

(** X17. Resuming: in a run without faults that does not stop at the
    completed status, the chunks uploaded are exactly the chunks of the
    file whose checkpoint did not read as set at the start, in the order
    of the file; when the run ends the checkpoint of every chunk of the
    file reads as set, and each uploaded chunk is in the bucket under its
    name with its data. *)
Theorem run_uploads_the_missing_chunks
  (cfg : Config) (file : string) (w : World) (f : File) :
  0 < ChunkSize cfg ->
  fs w !! file = Some f ->
  len (content f) <= max_int64 ->
  all_clear w ->
  ~ (kv w !! hash_key (filepath.Base file) = Some (fileHash (fs w) file)
     /\ kv w !! redisstore.status_key (filepath.Base file) = Some "completed") ->
  exists w' cs t,
    processFile RFC3339 cfg file w = Returns w'
    /\ chunker.ChunkFile (fs w) (clock w) file (ChunkSize cfg) = chunker.Chunks cs
    /\ trace w' = trace w ++ t
    /\ List.filter is_upload_chunk t
       = map (uploaded_event (filepath.Base file))
           (List.filter (unmarked (kv w) (filepath.Base file)) cs)
    /\ (forall c, c ∈ cs -> marked (kv w') (filepath.Base file) (chunker.Index c) = true)
    /\ (forall c, c ∈ List.filter (unmarked (kv w) (filepath.Base file)) cs ->
          objects w' !! s3uploader.chunk_object (filepath.Base file) (chunker.Index c)
          = Some (mkObject (chunker.Data c) EmptyString)).
Proof.
  intros Hsize Hf Hmax Hclear Hguard.
  destruct (resume_facts.processFile_clear RFC3339 cfg file w f Hsize Hf Hmax Hclear Hguard)
    as (w' & cs & t & Hrun & Hcs & T & Hup & Hm & Hobj & _).
  by exists w', cs, t.
Qed.

(** X18. What such a run leaves behind: the status completed and the
    file's hash, each with a time to live of seven days, and the metadata
    object, whose JSON lists the chunks uploaded in this run with the sum
    of their sizes. *)
Theorem clean_run_end_state
  (cfg : Config) (file : string) (w : World) (f : File) :
  0 < ChunkSize cfg ->
  fs w !! file = Some f ->
  len (content f) <= max_int64 ->
  all_clear w ->
  ~ (kv w !! hash_key (filepath.Base file) = Some (fileHash (fs w) file)
     /\ kv w !! redisstore.status_key (filepath.Base file) = Some "completed") ->
  exists w' cs,
    processFile RFC3339 cfg file w = Returns w'
    /\ chunker.ChunkFile (fs w) (clock w) file (ChunkSize cfg) = chunker.Chunks cs
    /\ kv w' !! redisstore.status_key (filepath.Base file) = Some "completed"
    /\ expiry w' !! redisstore.status_key (filepath.Base file) = Some (7 * 24 * Hour)
    /\ kv w' !! hash_key (filepath.Base file) = Some (fileHash (fs w) file)
    /\ expiry w' !! hash_key (filepath.Base file) = Some (7 * 24 * Hour)
    /\ objects w' !! s3uploader.metadata_object (filepath.Base file)
       = Some (mkObject
                 (json_Marshal RFC3339
                    (mkMetadata
                       (total_len (List.filter (unmarked (kv w) (filepath.Base file)) cs))
                       (map meta_of (List.filter (unmarked (kv w) (filepath.Base file)) cs))))
                 "application/json").
Proof.
  intros Hsize Hf Hmax Hclear Hguard.
  destruct (resume_facts.processFile_clear RFC3339 cfg file w f Hsize Hf Hmax Hclear Hguard)
    as (w' & cs & t & Hrun & Hcs & _ & _ & _ & _ & Hmeta & Hst & Hste & Hh & Hhe & _).
  by exists w', cs.
Qed.

(** X19. Running twice: after a run without faults that went through the
    file, a second run on the same file makes the two lookups and nothing
    else; Redis, the bucket and the counters stay as the first run left
    them. *)
Theorem second_run_after_clean_run
  (cfg : Config) (file : string) (w : World) (f : File) :
  0 < ChunkSize cfg ->
  fs w !! file = Some f ->
  len (content f) <= max_int64 ->
  all_clear w ->
  ~ (kv w !! hash_key (filepath.Base file) = Some (fileHash (fs w) file)
     /\ kv w !! redisstore.status_key (filepath.Base file) = Some "completed") ->
  exists w' w'',
    processFile RFC3339 cfg file w = Returns w'
    /\ processFile RFC3339 cfg file w' = Returns w''
    /\ trace w''
       = trace w' ++ [EvGetValue (hash_key (filepath.Base file)) (fileHash (fs w) file) None;
                      EvGetStreamStatus (filepath.Base file) "completed" None]
    /\ kv w'' = kv w' /\ expiry w'' = expiry w' /\ objects w'' = objects w'
    /\ metrics w'' = metrics w'.
Proof.
  intros Hsize Hf Hmax Hclear Hguard.
  destruct (resume_facts.processFile_clear RFC3339 cfg file w f Hsize Hf Hmax Hclear Hguard)
    as (w' & cs & t & Hrun & _ & _ & _ & _ & _ & _ & Hst & _ & Hh & _ & Hclear' & Hfs).
  destruct (app_props.processFile_completed RFC3339 cfg file w' f)
    as (w'' & Hrun' & T & Hkv & Hex & Hob & Hme & _).
  { by rewrite Hfs. }
  { by rewrite Hfs. }
  { done. }
  { apply goes_through_all, Hclear'. }
  exists w', w''. rewrite Hfs in T. by split_and!.
Qed.

(** X20. When no chunk of the file is left to upload, because the file
    gives no chunk or because the checkpoints of all its chunks read as
    set, a run without faults that does not stop at the completed status
    uploads no chunk; it still uploads a metadata object, with a total
    size of 0 and no chunk listed, and sets the status completed. *)
Theorem nothing_to_upload_gives_empty_metadata
  (cfg : Config) (file : string) (w : World) (f : File) (cs : list chunker.Chunk) :
  0 < ChunkSize cfg ->
  fs w !! file = Some f ->
  len (content f) <= max_int64 ->
  all_clear w ->
  ~ (kv w !! hash_key (filepath.Base file) = Some (fileHash (fs w) file)
     /\ kv w !! redisstore.status_key (filepath.Base file) = Some "completed") ->
  chunker.ChunkFile (fs w) (clock w) file (ChunkSize cfg) = chunker.Chunks cs ->
  (forall c, c ∈ cs -> marked (kv w) (filepath.Base file) (chunker.Index c) = true) ->
  exists w' t,
    processFile RFC3339 cfg file w = Returns w'
    /\ trace w' = trace w ++ t
    /\ count is_upload_chunk t = 0%nat
    /\ objects w' !! s3uploader.metadata_object (filepath.Base file)
       = Some (mkObject (json_Marshal RFC3339 (mkMetadata 0 [])) "application/json")
    /\ json_Marshal RFC3339 (mkMetadata 0 [])
       = bytes_of_string ("{" +:+ quoted "total_size" +:+ ":0,"
                              +:+ quoted "chunks" +:+ ":null}")
    /\ kv w' !! redisstore.status_key (filepath.Base file) = Some "completed".
Proof. apply resume_facts.processFile_nothing_left. Qed.

End WithTimeFormat.

End resume_props.

(** ** The counters of the processor *)
Module metrics_facts.
Import app.

#[local] Arguments redisstore.chunk_key : simpl never.
#[local] Arguments redisstore.progress_key : simpl never.
#[local] Arguments redisstore.status_key : simpl never.
#[local] Arguments hash_key : simpl never.
#[local] Arguments s3uploader.chunk_object : simpl never.
#[local] Arguments s3uploader.metadata_object : simpl never.
#[local] Arguments strconv.Itoa : simpl never.
#[local] Arguments json_Marshal : simpl never.
#[local] Arguments wrap64 : simpl never.

Lemma counted_refl w : counted false w w.
Proof.
  exists []. rewrite app_nil_r. split; [done|]. split; [|done].
  unfold tally, count. cbn. destruct (metrics w). cbn. f_equal; lia.
Qed.

Lemma counted_trans b1 b2 w1 w2 w3 :
  counted b1 w1 w2 -> counted b2 w2 w3 -> counted (b1 || b2) w1 w3.
Proof.
  intros (t1 & T1 & M1 & B1) (t2 & T2 & M2 & B2). exists (t1 ++ t2).
  split; [by rewrite T2, T1, app_assoc|]. split.
  - rewrite M2, M1. unfold tally, count. cbn.
    rewrite !List.filter_app, !length_app. f_equal; lia.
  - by rewrite existsb_app, B1, B2.
Qed.

Ltac tallied :=
  eexists; split;
  [ rewrite <- ?app_assoc; reflexivity
  | split;
    [ unfold tally, count; cbn;
      match goal with |- context [metrics ?w] => destruct (metrics w) end;
      cbn; f_equal; lia
    | reflexivity ] ].

Lemma process_chunk_counted sid c metas total w :
  counted false w (snd (process_chunk sid c (metas, total, w))).
Proof.
  unfold counted, process_chunk, redisstore.IsChunkUploaded, redis.Get.
  destruct (next_fault (redis_faults w)) as [[] p1]; cbn; [tallied|].
  assert (exists t,
            trace (snd (let '(err, w0) :=
                    s3uploader.UploadChunk sid (chunker.Index c) (chunker.Data c)
                      (log (EvIsChunkUploaded sid (chunker.Index c) false None)
                         (with_redis_faults p1 w)) in
                  match err with
                  | Some _ => (metas, total, metrics_.UploadFailures_Inc w0)
                  | None =>
                      let '(err0, w1) :=
                        redisstore.SetChunkUploaded sid (chunker.Index c) w0 in
                      let '(_, w2) :=
                        redisstore.SetStreamProgress sid (chunker.Index c)
                          (metrics_.ChunksUploaded_Inc
                             match err0 with
                             | Some _ => metrics_.RedisErrors_Inc w1
                             | None => w1
                             end) in
                      ((metas ++ [mkChunkMeta (chunker.Index c) (chunker.Checksum c)
                                    (chunker.Timestamp c)])%list,
                       wrap64 (total + len (chunker.Data c)), w2)
                  end)) = trace w ++ t
            /\ metrics (snd (let '(err, w0) :=
                    s3uploader.UploadChunk sid (chunker.Index c) (chunker.Data c)
                      (log (EvIsChunkUploaded sid (chunker.Index c) false None)
                         (with_redis_faults p1 w)) in
                  match err with
                  | Some _ => (metas, total, metrics_.UploadFailures_Inc w0)
                  | None =>
                      let '(err0, w1) :=
                        redisstore.SetChunkUploaded sid (chunker.Index c) w0 in
                      let '(_, w2) :=
                        redisstore.SetStreamProgress sid (chunker.Index c)
                          (metrics_.ChunksUploaded_Inc
                             match err0 with
                             | Some _ => metrics_.RedisErrors_Inc w1
                             | None => w1
                             end) in
                      ((metas ++ [mkChunkMeta (chunker.Index c) (chunker.Checksum c)
                                    (chunker.Timestamp c)])%list,
                       wrap64 (total + len (chunker.Data c)), w2)
                  end)) = tally t (metrics w)
            /\ existsb is_hash_store t = false) as Htail.
  { unfold s3uploader.UploadChunk, s3uploader.PutObject. cbn.
    destruct (next_fault (s3_faults w)) as [[] p2]; cbn; [tallied|].
    unfold redisstore.SetChunkUploaded, redisstore.SetStreamProgress, redis.Set_. cbn.
    destruct (next_fault p1) as [[] p3]; cbn;
      destruct (next_fault p3) as [[] p4]; cbn; tallied. }
  destruct (kv w !! redisstore.chunk_key sid (chunker.Index c)) as [v|]; cbn;
    [destruct (String.eqb v "1" || String.eqb v "true"); cbn; [tallied|]|];
    exact Htail.
Qed.

Lemma range_chunks_counted sid cs : forall metas total w,
  counted false w (snd (range_chunks sid cs (metas, total, w))).
Proof.
  induction cs as [|c cs IH]; intros metas total w; [apply counted_refl|].
  cbn [range_chunks].
  pose proof (process_chunk_counted sid c metas total w) as H1.
  destruct (process_chunk sid c (metas, total, w)) as [[metas1 total1] w1].
  cbn [snd] in H1. exact (counted_trans false false _ _ _ H1 (IH _ _ _)).
Qed.

Lemma GetValue_counted key w : counted false w (snd (redisstore.GetValue key w)).
Proof.
  unfold counted, redisstore.GetValue, redis.Get.
  destruct (next_fault (redis_faults w)) as [[] p1]; cbn; [tallied|].
  destruct (kv w !! key); cbn; tallied.
Qed.

Lemma GetStreamStatus_counted sid w :
  counted false w (snd (redisstore.GetStreamStatus sid w)).
Proof.
  unfold counted, redisstore.GetStreamStatus, redis.Get.
  destruct (next_fault (redis_faults w)) as [[] p1]; cbn; [tallied|].
  destruct (kv w !! redisstore.status_key sid); cbn; tallied.
Qed.

Lemma SetValue_counted key v ttl w :
  counted true w (snd (redisstore.SetValue key v ttl w)).
Proof.
  unfold counted, redisstore.SetValue, redis.Set_.
  destruct (next_fault (redis_faults w)) as [[] p1]; cbn; tallied.
Qed.

Lemma reset_if_changed_counted sid prev h w :
  counted false w (reset_if_changed sid prev h w).
Proof.
  unfold reset_if_changed.
  destruct (negb (String.eqb prev EmptyString) && negb (String.eqb prev h));
    [|apply counted_refl].
  unfold counted, redisstore.DeleteKey, redisstore.SetStreamProgress, redis.Del, redis.Set_.
  destruct (next_fault (redis_faults w)) as [[] p1]; cbn;
    destruct (next_fault p1) as [[] p2]; cbn; tallied.
Qed.

Section WithTimeFormat.
Variable RFC3339 : Z -> string.

Lemma finish_counted sid metas total w :
  counted false w (finish RFC3339 sid (metas, total, w)).
Proof.
  unfold counted, finish, s3uploader.UploadMetadata, s3uploader.PutObject,
    redisstore.SetStreamStatus, redisstore.SetStreamTTL, redis.Set_, redis.Expire.
  rewrite (proj2 redisstore_facts.formatSec_7d), ?(proj1 redisstore_facts.formatSec_7d).
  destruct (next_fault (s3_faults w)) as [[] p1]; cbn;
    destruct (next_fault (redis_faults w)) as [[] p2]; cbn;
    destruct (next_fault p2) as [[] p3]; cbn;
    rewrite ?lookup_insert_eq; try destruct (kv w !! redisstore.status_key sid); cbn;
    tallied.
Qed.

(** A run, when the directory holds [later] by the time the chunker opens
    the file: either the world it returns has counted its calls, or the
    chunker found no file, after the hash was stored, and the run counted
    one failure more. *)
Lemma processFile_at_counted later cfg file w :
  0 < ChunkSize cfg ->
  exists w4 b,
    counted b w w4
    /\ ((processFile_at RFC3339 later cfg file w = Returns w4
         /\ (b = true -> is_Some (later !! file)))
        \/ (processFile_at RFC3339 later cfg file w
            = Returns (metrics_.UploadFailures_Inc w4)
            /\ b = true /\ later !! file = None)).
Proof.
  intros Hsize. unfold processFile_at.
  set (sid := filepath.Base file) in *. set (h := fileHash (fs w) file).
  destruct (String.eqb_spec h EmptyString) as [E|Hh].
  { exists w, false. split; [apply counted_refl|]. left. by split. }
  pose proof (GetValue_counted (hash_key sid) w) as K1.
  destruct (redisstore.GetValue (hash_key sid) w) as [[prev e1] w1].
  cbn [snd] in K1.
  pose proof (GetStreamStatus_counted sid w1) as K2.
  destruct (redisstore.GetStreamStatus sid w1) as [[st e2] w2].
  cbn [snd] in K2.
  pose proof (counted_trans _ _ _ _ _ K1 K2) as K12. cbn [orb] in K12.
  destruct (String.eqb prev h && String.eqb st "completed").
  { exists w2, false. split; [exact K12|]. left. by split. }
  pose proof (reset_if_changed_counted sid prev h w2) as K3.
  set (w3 := reset_if_changed sid prev h w2) in *.
  pose proof (SetValue_counted (hash_key sid) h ttl_7d w3) as K4.
  destruct (redisstore.SetValue (hash_key sid) h ttl_7d w3) as [e3 w4].
  cbn [snd] in K4.
  pose proof (counted_trans _ _ _ _ _ K12 (counted_trans _ _ _ _ _ K3 K4)) as K14.
  cbn [orb] in K14.
  destruct (later !! file) as [f|] eqn:Hf.
  - destruct (chunker_props.ChunkFile_opens later (clock w4) file (ChunkSize cfg))
      as (cs & ->); [by rewrite Hf|done|].
    pose proof (range_chunks_counted sid cs [] 0 w4) as K5.
    destruct (range_chunks sid cs ([], 0, w4)) as [[metas total] w5].
    cbn [snd] in K5.
    pose proof (finish_counted sid metas total w5) as K6.
    eexists _, _. split.
    + exact (counted_trans _ _ _ _ _ K14 (counted_trans _ _ _ _ _ K5 K6)).
    + left. split; [done|]. intros _. by eexists.
  - exists w4, true. split; [exact K14|]. right.
    unfold chunker.ChunkFile. rewrite Hf. done.
Qed.

(** Nothing that a run does before the chunker changes the directory, so
    the run in which the file has stayed as it was is [processFile]. *)
Lemma processFile_at_same cfg file w :
  processFile_at RFC3339 (fs w) cfg file w = processFile RFC3339 cfg file w.
Proof.
  unfold processFile_at, processFile.
  set (sid := filepath.Base file) in *. set (h := fileHash (fs w) file).
  destruct (String.eqb h EmptyString); [done|].
  destruct (redisstore_facts.GetValue_spec (hash_key sid) w)
    as (prev & e1 & w1 & -> & _ & _ & _ & F1 & _).
  destruct (redisstore_facts.GetStreamStatus_spec sid w1)
    as (st & e2 & w2 & -> & _ & _ & _ & F2 & _).
  destruct (String.eqb prev h && String.eqb st "completed"); [done|].
  destruct (app_facts.reset_if_changed_spec sid prev h w2) as (_ & _ & _ & F3 & C3 & _).
  set (w3 := reset_if_changed sid prev h w2) in *.
  destruct (redisstore_facts.SetValue_spec (hash_key sid) h ttl_7d w3)
    as (e3 & w4 & -> & _ & F4 & _).
  destruct F1 as (Hfs1 & _), F2 as (Hfs2 & _), F4 as (Hfs4 & _).
  assert (fs w4 = fs w) as -> by congruence. done.
Qed.

End WithTimeFormat.

End metrics_facts.

Module processor_props.
Import app.

Lemma GetStreamStatus_not_completed sid w :
  kv w !! redisstore.status_key sid <> Some "completed" ->
  fst (fst (redisstore.GetStreamStatus sid w)) <> "completed".
Proof.
  intros Hst. unfold redisstore.GetStreamStatus, redis.Get.
  destruct (next_fault (redis_faults w)) as [[] p]; cbn; [done|].
  destruct (kv w !! redisstore.status_key sid) as [v|]; cbn; [|done].
  intros ->. done.
Qed.

Section WithTimeFormat.
Variable RFC3339 : Z -> string.

(** X21. The counters after a run, whatever fails in it, the file
    included: [later] is the directory by the time the chunker opens the
    file, which may have gone or changed since its hash was read. Upload
    failures go up by the number of uploads (of a chunk or of the
    metadata) that returned an error, and by one more when the run got as
    far as storing the hash and the chunker then found no file to open.
    Redis errors go up by the number of checkpoint lookups and checkpoint
    writes that returned an error, chunks uploaded by the number of chunk
    uploads that returned none. The errors of the other Redis calls
    (hash, status, progress, time to live) are not counted, and the run
    does not touch the counter of detected files. With the directory
    unchanged the run is [processFile]. *)
Theorem counters_follow_the_calls (later : gmap string File) (cfg : Config)
  (file : string) (w : World) :
  0 < ChunkSize cfg ->
  (exists w' t,
    processFile_at RFC3339 later cfg file w = Returns w'
    /\ trace w' = trace w ++ t
    /\ UploadFailures (metrics w')
       = (UploadFailures (metrics w) + count failed_upload t
          + (if chunker_open_failed later file t then 1 else 0))%nat
    /\ RedisErrors (metrics w')
       = (RedisErrors (metrics w) + count failed_checkpoint_call t)%nat
    /\ ChunksUploaded (metrics w')
       = (ChunksUploaded (metrics w) + count is_uploaded t)%nat
    /\ FilesDetected (metrics w') = FilesDetected (metrics w))
  /\ processFile_at RFC3339 (fs w) cfg file w = processFile RFC3339 cfg file w.
Proof.
  intros Hsize. split; [|apply metrics_facts.processFile_at_same].
  destruct (metrics_facts.processFile_at_counted RFC3339 later cfg file w Hsize)
    as (w4 & b & (t & T & M & B) & [(Hrun & Hb)|(Hrun & -> & Hf)]).
  - exists w4, t. unfold chunker_open_failed. rewrite B, M.
    assert ((b && match later !! file with Some _ => false | None => true end)
            = false) as ->.
    { destruct b; [|done]. destruct (Hb eq_refl) as [f ->]. done. }
    cbn. split_and!; try done; lia.
  - exists (metrics_.UploadFailures_Inc w4), t.
    unfold chunker_open_failed. rewrite B, Hf. cbn. rewrite M. cbn.
    split_and!; try done; lia.
Qed.

(** X22. The edges of a run. A file that does not open (it was removed
    since it was detected) ends the run at once: no call is made and
    nothing is counted. For a file that opens and whose status is not
    completed, a chunk size of 0 makes a run that does not end, and a
    negative chunk size a panic, whatever Redis answers. *)
Theorem processFile_edges (cfg : Config) (file : string) (w : World) :
  (fs w !! file = None -> processFile RFC3339 cfg file w = Returns w)
  /\ (is_Some (fs w !! file) ->
      kv w !! redisstore.status_key (filepath.Base file) <> Some "completed" ->
      (ChunkSize cfg = 0 -> processFile RFC3339 cfg file w = Diverges)
      /\ (ChunkSize cfg < 0 -> processFile RFC3339 cfg file w = Panics)).
Proof.
  split.
  { intros Hf. unfold processFile, fileHash. by rewrite Hf. }
  intros [f Hf] Hst.
  assert (exists w4,
    processFile RFC3339 cfg file w
    = match chunker.ChunkFile (fs w) (clock w) file (ChunkSize cfg) with
      | chunker.OpenError => Returns (metrics_.UploadFailures_Inc w4)
      | chunker.Chunks chunks =>
          Returns (finish RFC3339 (filepath.Base file)
                     (range_chunks (filepath.Base file) chunks ([], 0, w4)))
      | chunker.Panics => Panics
      | chunker.Diverges => Diverges
      end) as [w4 ->].
  { unfold processFile.
    set (sid := filepath.Base file) in *. set (h := fileHash (fs w) file).
    pose proof (app_facts.fileHash_nonempty _ _ _ Hf) as Hh. fold h in Hh.
    destruct (String.eqb_spec h EmptyString) as [|_]; [done|].
    destruct (redisstore_facts.GetValue_spec (hash_key sid) w)
      as (prev & e1 & w1 & -> & _ & Hkv1 & _ & F1 & _).
    pose proof (GetStreamStatus_not_completed sid w1) as Hst1.
    rewrite Hkv1 in Hst1. specialize (Hst1 Hst).
    destruct (redisstore_facts.GetStreamStatus_spec sid w1)
      as (st & e2 & w2 & E2 & _ & _ & _ & F2 & _).
    rewrite E2 in Hst1 |- *. cbn [fst] in Hst1.
    assert (String.eqb st "completed" = false) as -> by (by apply String.eqb_neq).
    rewrite andb_false_r.
    destruct (app_facts.reset_if_changed_spec sid prev h w2) as (_ & _ & _ & F3 & C3 & _).
    set (w3 := reset_if_changed sid prev h w2) in *.
    destruct (redisstore_facts.SetValue_spec (hash_key sid) h ttl_7d w3)
      as (e3 & w4 & -> & _ & F4 & _).
    destruct F1 as (Hfs1 & Hck1 & _), F2 as (Hfs2 & Hck2 & _), F4 as (Hfs4 & Hck4 & _).
    assert (fs w4 = fs w) as -> by congruence.
    assert (clock w4 = clock w) as -> by congruence.
    by exists w4. }
  unfold chunker.ChunkFile. rewrite Hf. split; intros Hc.
  - rewrite Hc. done.
  - destruct (Z.ltb_spec (ChunkSize cfg) 0); [done|lia].
Qed.

End WithTimeFormat.

End processor_props.

(** ** A tick of the detector, entry by entry *)
Module tick_facts.
Import watcher.

#[local] Arguments redisstore.status_key : simpl never.
#[local] Arguments fileHash : simpl never.
#[local] Arguments filepath.Base : simpl never.
#[local] Arguments filepath.Ext : simpl never.
#[local] Arguments strings.ToLower : simpl never.

Lemma offer_eq ext file formats wt w :
  offer ext file formats (wt, w)
  = if ext_in ext formats then
      if fst (filterFile file w)
      then (mkWatcher (seen wt) (hashes wt) (fileCh wt ++ [file]),
            metrics_.FilesDetected_Inc (snd (filterFile file w)))
      else (wt, snd (filterFile file w))
    else (wt, w).
Proof.
  induction formats as [|allowed rest IH]; [done|].
  cbn [offer ext_in]. destruct (String.eqb ext allowed); [|exact IH].
  by destruct (filterFile file w) as [[] w'].
Qed.

Lemma filterFile_world file w :
  kv (snd (filterFile file w)) = kv w
  /\ fs (snd (filterFile file w)) = fs w
  /\ objects (snd (filterFile file w)) = objects w
  /\ metrics (snd (filterFile file w)) = metrics w
  /\ (forallb negb (redis_faults w) = true ->
      forallb negb (redis_faults (snd (filterFile file w))) = true
      /\ fst (filterFile file w) = negb (done_with w file)).
Proof.
  unfold filterFile, done_with.
  destruct (redisstore_facts.GetStreamStatus_spec (filepath.Base file) w)
    as (st & e1 & w1 & -> & _ & Hkv1 & _ & F1 & Hp1 & _ & Hst1).
  destruct F1 as (Hfs1 & _ & Hob1 & _ & Hme1).
  destruct (redisstore_facts.GetValue_spec ("file_hash:" +:+ filepath.Base file) w1)
    as (prev & e2 & w2 & -> & _ & Hkv2 & _ & F2 & Hp2 & _ & Hprev).
  destruct F2 as (Hfs2 & _ & Hob2 & _ & Hme2).
  assert (kv w2 = kv w /\ fs w2 = fs w /\ objects w2 = objects w /\ metrics w2 = metrics w)
    as (K & F & O & M) by (split_and!; congruence).
  destruct (String.eqb prev (fileHash (fs w) file) && String.eqb st "completed") eqn:Eb;
    cbn [fst snd]; (split_and!; [done..|]); intros Hclear;
    apply watcher_props.next_fault_all_clear in Hclear as [Hc1 Hclear];
    pose proof Hclear as Hclear';
    apply watcher_props.next_fault_all_clear in Hclear as [Hc2 Hclear];
    rewrite <- Hp1 in Hc2; rewrite <- Hp1 in Hclear;
    specialize (Hst1 Hc1); specialize (Hprev Hc2); rewrite Hkv1 in Hprev;
    (split; [by rewrite Hp2|]); rewrite <- Hprev, <- Hst1, Eb; done.
Qed.

Lemma done_with_ext w w' file :
  kv w' = kv w -> fs w' = fs w -> done_with w' file = done_with w file.
Proof. intros K F. unfold done_with. by rewrite K, F. Qed.

(** What one entry does to the state of the tick. *)
Lemma visit_any cfg now debounce wt w entry :
  exists sent,
    fileCh (fst (visit cfg now debounce (wt, w) entry)) = fileCh wt ++ sent
    /\ (sent = [] \/ (sent = [fst entry] /\ candidate cfg now debounce entry = true))
    /\ hashes (fst (visit cfg now debounce (wt, w) entry)) = hashes wt
    /\ seen (fst (visit cfg now debounce (wt, w) entry))
       = (if stable now debounce entry then delete (fst entry) (seen wt) else seen wt)
    /\ kv (snd (visit cfg now debounce (wt, w) entry)) = kv w
    /\ fs (snd (visit cfg now debounce (wt, w) entry)) = fs w
    /\ objects (snd (visit cfg now debounce (wt, w) entry)) = objects w
    /\ FilesDetected (metrics (snd (visit cfg now debounce (wt, w) entry)))
       = (FilesDetected (metrics w) + length sent)%nat
    /\ (forallb negb (redis_faults w) = true ->
        forallb negb (redis_faults (snd (visit cfg now debounce (wt, w) entry))) = true
        /\ sent = if due cfg now debounce w entry then [fst entry] else []).
Proof.
  destruct entry as [file last]. unfold visit, due, candidate, stable. cbn [fst snd].
  destruct (debounce <? now - last) eqn:Es; cbn [andb].
  2:{ exists []. rewrite app_nil_r.
      split_and!; try done; try (by left); try (cbn; lia). }
  rewrite offer_eq. fold (isAllowedExt file (VideoFileFormats cfg)).
  destruct (isAllowedExt file (VideoFileFormats cfg)) eqn:Ea; cbn [andb].
  2:{ exists []. rewrite app_nil_r.
      split_and!; try done; try (by left); try (cbn; lia). }
  destruct (filterFile_world file w) as (K & F & O & M & Hclear).
  destruct (fst (filterFile file w)) eqn:Ef; cbn [fst snd].
  - exists [file].
    split_and!; try done; try (by right); try (cbn; rewrite M; lia).
    intros Hc. destruct (Hclear Hc) as [Hc' <-]. done.
  - exists []. rewrite app_nil_r.
    split_and!; try done; try (by left); try (cbn; rewrite M; lia).
    intros Hc. destruct (Hclear Hc) as [Hc' <-]. done.
Qed.

Lemma tick_any cfg now debounce order : forall wt w,
  exists sent,
    fileCh (fst (checkStableFiles_in order cfg now debounce (wt, w))) = fileCh wt ++ sent
    /\ sublist sent (map fst (List.filter (candidate cfg now debounce) order))
    /\ hashes (fst (checkStableFiles_in order cfg now debounce (wt, w))) = hashes wt
    /\ seen (fst (checkStableFiles_in order cfg now debounce (wt, w)))
       = forget now debounce order (seen wt)
    /\ kv (snd (checkStableFiles_in order cfg now debounce (wt, w))) = kv w
    /\ fs (snd (checkStableFiles_in order cfg now debounce (wt, w))) = fs w
    /\ objects (snd (checkStableFiles_in order cfg now debounce (wt, w))) = objects w
    /\ FilesDetected (metrics (snd (checkStableFiles_in order cfg now debounce (wt, w))))
       = (FilesDetected (metrics w) + length sent)%nat
    /\ (forallb negb (redis_faults w) = true ->
        sent = map fst (List.filter (due cfg now debounce w) order)).
Proof.
  induction order as [|entry order IH]; intros wt w.
  { exists []. cbn. rewrite app_nil_r. split_and!; try done; lia. }
  unfold checkStableFiles_in in *. cbn [fold_left].
  destruct (visit_any cfg now debounce wt w entry)
    as (s1 & C1 & Hs1 & H1 & S1 & K1 & F1 & O1 & M1 & Hc1).
  destruct (visit cfg now debounce (wt, w) entry) as [wt1 w1]. cbn [fst snd] in *.
  destruct (IH wt1 w1) as (s2 & C2 & Hs2 & H2 & S2 & K2 & F2 & O2 & M2 & Hc2).
  exists (s1 ++ s2). split_and!.
  - by rewrite C2, C1, app_assoc.
  - cbn [List.filter]. destruct Hs1 as [->|[-> ->]]; cbn.
    + destruct (candidate cfg now debounce entry); [by constructor|done].
    + by constructor.
  - congruence.
  - rewrite S2, S1. done.
  - congruence.
  - congruence.
  - congruence.
  - rewrite M2, M1, length_app. lia.
  - intros Hc. destruct (Hc1 Hc) as [Hc' ->]. rewrite (Hc2 Hc').
    cbn [List.filter].
    assert (List.filter (due cfg now debounce w1) order
            = List.filter (due cfg now debounce w) order) as ->.
    { apply List.filter_ext. intros e. unfold due. by rewrite (done_with_ext w w1). }
    by destruct (due cfg now debounce w entry).
Qed.

Lemma forget_lookup now debounce order : forall m file,
  forget now debounce order m !! file
  = if existsb (fun e => String.eqb (fst e) file && stable now debounce e) order
    then None else m !! file.
Proof.
  induction order as [|e order IH]; intros m file; [done|].
  unfold forget in *. cbn [fold_left existsb]. rewrite IH.
  destruct (existsb _ order); [by rewrite orb_true_r|]. rewrite orb_false_r.
  destruct (stable now debounce e); [|by rewrite andb_false_r].
  rewrite andb_true_r. destruct (String.eqb_spec (fst e) file) as [->|Hne].
  - apply lookup_delete_eq.
  - by apply lookup_delete_ne.
Qed.

Lemma in_filtered (P : string * Z -> bool) order (m : gmap string Z) file :
  order ≡ₚ map_to_list m ->
  file ∈ map fst (List.filter P order)
  <-> exists last, m !! file = Some last /\ P (file, last) = true.
Proof.
  intros Hperm. rewrite list_elem_of_fmap. split.
  - intros ([f last] & -> & Hin). apply list_elem_of_In, List.filter_In in Hin as [Hin HP].
    apply list_elem_of_In in Hin. rewrite Hperm in Hin.
    apply elem_of_map_to_list in Hin. by exists last.
  - intros (last & Hm & HP). exists (file, last). split; [done|].
    apply list_elem_of_In, List.filter_In. split; [|done].
    apply list_elem_of_In. rewrite Hperm. by apply elem_of_map_to_list.
Qed.

Lemma forget_seen now debounce order (m : gmap string Z) file :
  order ≡ₚ map_to_list m ->
  forget now debounce order m !! file
  = match m !! file with
    | Some last => if debounce <? now - last then None else Some last
    | None => None
    end.
Proof.
  intros Hperm. rewrite forget_lookup.
  destruct (existsb _ order) eqn:Ex.
  - apply existsb_exists in Ex as ([f last] & Hin & [Hf%String.eqb_eq Hs]%andb_true_iff).
    cbn in Hf. subst f. apply list_elem_of_In in Hin. rewrite Hperm in Hin.
    apply elem_of_map_to_list in Hin. rewrite Hin. unfold stable in Hs. cbn in Hs.
    by rewrite Hs.
  - destruct (m !! file) as [last|] eqn:Hm; [|done].
    destruct (debounce <? now - last) eqn:Hs; [|done].
    assert (existsb (fun e => String.eqb (fst e) file && stable now debounce e) order = true)
      as Hex; [|congruence].
    apply existsb_exists. exists (file, last). split.
    + apply list_elem_of_In. rewrite Hperm. by apply elem_of_map_to_list.
    + cbn. by rewrite String.eqb_refl.
Qed.

Lemma rescan_file_hashes cfg now files wt file :
  (isAllowedExt file (VideoFileFormats cfg) = true ->
   hashes (rescan_file cfg now files wt file) !! file = Some (fileHash files file))
  /\ (forall f, hashes wt !! f = Some (fileHash files f) ->
        hashes (rescan_file cfg now files wt file) !! f = Some (fileHash files f)
        /\ seen (rescan_file cfg now files wt file) !! f = seen wt !! f)
  /\ fileCh (rescan_file cfg now files wt file) = fileCh wt.
Proof.
  unfold rescan_file.
  destruct (isAllowedExt file (VideoFileFormats cfg)); [|by split_and!].
  destruct (hashes wt !! file) as [prev|] eqn:Hp.
  - destruct (String.eqb_spec prev (fileHash files file)) as [->|Hne]; cbn.
    + by split_and!.
    + split_and!; [intros _; apply lookup_insert_eq| |done].
      intros f Hf. assert (f <> file) by congruence.
      by rewrite !lookup_insert_ne.
  - cbn. split_and!; [intros _; apply lookup_insert_eq| |done].
    intros f Hf. assert (f <> file) by congruence.
    by rewrite !lookup_insert_ne.
Qed.

Lemma rescan_known cfg now files listed : forall wt,
  (forall f, f ∈ listed -> isAllowedExt f (VideoFileFormats cfg) = true ->
             hashes wt !! f = Some (fileHash files f)) ->
  fold_left (rescan_file cfg now files) listed wt = wt.
Proof.
  induction listed as [|file listed IH]; intros wt Hknown; [done|].
  cbn [fold_left].
  assert (rescan_file cfg now files wt file = wt) as ->.
  { unfold rescan_file.
    destruct (isAllowedExt file (VideoFileFormats cfg)) eqn:Ea; [|done].
    rewrite (Hknown file) by (done || by left). by rewrite String.eqb_refl. }
  apply IH. intros f Hf. apply Hknown. by right.
Qed.

Lemma rescan_learns cfg now files listed : forall wt,
  (forall f, f ∈ listed -> isAllowedExt f (VideoFileFormats cfg) = true ->
             hashes (fold_left (rescan_file cfg now files) listed wt) !! f
             = Some (fileHash files f))
  /\ (forall f, hashes wt !! f = Some (fileHash files f) ->
        hashes (fold_left (rescan_file cfg now files) listed wt) !! f
        = Some (fileHash files f)
        /\ seen (fold_left (rescan_file cfg now files) listed wt) !! f = seen wt !! f)
  /\ fileCh (fold_left (rescan_file cfg now files) listed wt) = fileCh wt.
Proof.
  induction listed as [|file listed IH]; intros wt.
  { split_and!; [|done|done]. intros f Hf. by apply elem_of_nil in Hf. }
  cbn [fold_left].
  destruct (rescan_file_hashes cfg now files wt file) as (H1 & H2 & H3).
  destruct (IH (rescan_file cfg now files wt file)) as (I1 & I2 & I3).
  split_and!.
  - intros f [->|Hf]%elem_of_cons Ha; [|by apply I1]. by apply I2, H1.
  - intros f Hf. destruct (H2 f Hf) as [Hh Hs]. destruct (I2 f Hh) as [Hh' Hs'].
    split; [done|congruence].
  - congruence.
Qed.

Lemma scan_stamps cfg now listed : forall wt file,
  seen (fold_left
          (fun wt file =>
             if isAllowedExt file (VideoFileFormats cfg) then
               mkWatcher (<[file := now + backdate cfg]> (seen wt))
                         (hashes wt) (fileCh wt)
             else wt) listed wt) !! file
  = if bool_decide (file ∈ listed) && isAllowedExt file (VideoFileFormats cfg)
    then Some (now + backdate cfg)
    else seen wt !! file.
Proof.
  induction listed as [|f listed IH]; intros wt file; [done|].
  cbn [fold_left]. rewrite IH.
  destruct (decide (file ∈ listed)) as [Hin|Hnin].
  - rewrite !bool_decide_eq_true_2 by (done || by right).
    destruct (isAllowedExt file (VideoFileFormats cfg)) eqn:Ea; [done|]. cbn.
    destruct (isAllowedExt f (VideoFileFormats cfg)) eqn:Ef; [|done]. cbn.
    apply lookup_insert_ne. congruence.
  - rewrite (bool_decide_eq_false_2 (file ∈ listed)) by done. cbn.
    destruct (decide (file = f)) as [->|Hne].
    + rewrite bool_decide_eq_true_2 by (by left).
      destruct (isAllowedExt f (VideoFileFormats cfg)); cbn; [apply lookup_insert_eq|done].
    + rewrite bool_decide_eq_false_2 by (rewrite elem_of_cons; tauto). cbn.
      destruct (isAllowedExt f (VideoFileFormats cfg)); cbn; [|done].
      by apply lookup_insert_ne.
Qed.

Lemma scanExistingFiles_stamps cfg now listed wt file :
  seen (scanExistingFiles cfg now (Some listed) wt) !! file
  = if bool_decide (file ∈ listed) && isAllowedExt file (VideoFileFormats cfg)
    then Some (now + backdate cfg)
    else seen wt !! file.
Proof. exact (scan_stamps cfg now listed wt file). Qed.

Lemma rescan_file_other cfg now files wt file f :
  f <> file -> hashes (rescan_file cfg now files wt file) !! f = hashes wt !! f.
Proof.
  intros Hne. unfold rescan_file.
  destruct (isAllowedExt file (VideoFileFormats cfg)); [|done].
  destruct (hashes wt !! file) as [prev|];
    [destruct (negb (String.eqb prev (fileHash files file)))|]; cbn; try done;
    by apply lookup_insert_ne.
Qed.

Lemma rescan_stamps cfg now files listed f : forall wt,
  f ∈ listed ->
  isAllowedExt f (VideoFileFormats cfg) = true ->
  hashes wt !! f <> Some (fileHash files f) ->
  seen (fold_left (rescan_file cfg now files) listed wt) !! f
  = Some (now + backdate cfg).
Proof.
  induction listed as [|file listed IH]; intros wt Hin Ha Hnew.
  { by apply elem_of_nil in Hin. }
  cbn [fold_left]. destruct (decide (f = file)) as [->|Hne].
  - assert (seen (rescan_file cfg now files wt file) !! file
            = Some (now + backdate cfg)
            /\ hashes (rescan_file cfg now files wt file) !! file
               = Some (fileHash files file)) as [Hs Hh].
    { unfold rescan_file. rewrite Ha.
      destruct (hashes wt !! file) as [prev|] eqn:Hp.
      - destruct (String.eqb_spec prev (fileHash files file)) as [->|_]; [done|].
        cbn. by rewrite !lookup_insert_eq.
      - cbn. by rewrite !lookup_insert_eq. }
    destruct (rescan_learns cfg now files listed (rescan_file cfg now files wt file))
      as (_ & I2 & _).
    destruct (I2 file Hh) as [_ ->]. done.
  - apply IH; [|done|].
    + apply elem_of_cons in Hin as [|]; [done|done].
    + by rewrite rescan_file_other.
Qed.

Lemma tick_seen order cfg now debounce wt w file :
  order ≡ₚ map_to_list (seen wt) ->
  seen (fst (checkStableFiles_in order cfg now debounce (wt, w))) !! file
  = match seen wt !! file with
    | Some last => if debounce <? now - last then None else Some last
    | None => None
    end.
Proof.
  intros Hperm.
  destruct (tick_any cfg now debounce order wt w) as (sent & _ & _ & _ & -> & _).
  by apply forget_seen.
Qed.

Lemma tick_sent order cfg now debounce wt w :
  forallb negb (redis_faults w) = true ->
  fileCh (fst (checkStableFiles_in order cfg now debounce (wt, w)))
  = fileCh wt ++ map fst (List.filter (due cfg now debounce w) order).
Proof.
  intros Hclear.
  destruct (tick_any cfg now debounce order wt w)
    as (sent & -> & _ & _ & _ & _ & _ & _ & _ & Hsent).
  by rewrite (Hsent Hclear).
Qed.

End tick_facts.

Module detector_props.
Import watcher.

(** X23. A tick, whatever Redis answers and in whatever order the map is
    visited: the paths sent are, in the order of the visit and each at
    most once per entry, entries that have been quiet for longer than the
    threshold and whose extension is configured; the counter of detected
    files goes up by one per path sent; Redis, the bucket and the table
    of hashes are left as they were. *)
Theorem tick_sends_only_stable_allowed_files
  (order : list (string * Z)) (cfg : Config) (now debounce : Z)
  (wt : Watcher) (w : World) :
  exists sent,
    fileCh (fst (checkStableFiles_in order cfg now debounce (wt, w))) = fileCh wt ++ sent
    /\ sublist sent (map fst (List.filter (candidate cfg now debounce) order))
    /\ (forall file, file ∈ sent ->
          exists last, (file, last) ∈ order /\ debounce < now - last
                       /\ isAllowedExt file (VideoFileFormats cfg) = true)
    /\ FilesDetected (metrics (snd (checkStableFiles_in order cfg now debounce (wt, w))))
       = (FilesDetected (metrics w) + length sent)%nat
    /\ kv (snd (checkStableFiles_in order cfg now debounce (wt, w))) = kv w
    /\ objects (snd (checkStableFiles_in order cfg now debounce (wt, w))) = objects w
    /\ hashes (fst (checkStableFiles_in order cfg now debounce (wt, w))) = hashes wt.
Proof.
  destruct (tick_facts.tick_any cfg now debounce order wt w)
    as (sent & C & Hsub & H & _ & K & _ & O & M & _).
  exists sent. split_and!; try done.
  intros file Hin. apply (elem_of_sublist _ _ _ Hin) in Hsub. rename Hsub into Hin'.
  clear Hin. rename Hin' into Hin.
  apply list_elem_of_fmap in Hin as ([f last] & -> & Hin).
  apply list_elem_of_In, List.filter_In in Hin as [Hin [Hs Ha]%andb_true_iff].
  exists last. split_and!; [by apply list_elem_of_In| |done].
  unfold stable in Hs. cbn in Hs. lia.
Qed.

(** X24. A tick takes out of the map every entry that has been quiet for
    longer than the threshold, sent or not, and leaves the younger
    entries with their stamps: also when Redis fails, and also for a
    file whose extension is not configured. *)
Theorem tick_forgets_stable_entries
  (order : list (string * Z)) (cfg : Config) (now debounce : Z)
  (wt : Watcher) (w : World) (file : string) :
  order ≡ₚ map_to_list (seen wt) ->
  seen (fst (checkStableFiles_in order cfg now debounce (wt, w))) !! file
  = match seen wt !! file with
    | Some last => if debounce <? now - last then None else Some last
    | None => None
    end.
Proof. apply tick_facts.tick_seen. Qed.

(** X25. A tick with Redis answering sends exactly the entries that are
    stable, have a configured extension and are not recorded as completed
    with the hash the file has now, in the order of the visit. *)
Theorem tick_sends_the_due_files
  (order : list (string * Z)) (cfg : Config) (now debounce : Z)
  (wt : Watcher) (w : World) :
  forallb negb (redis_faults w) = true ->
  fileCh (fst (checkStableFiles_in order cfg now debounce (wt, w)))
  = fileCh wt ++ map fst (List.filter (due cfg now debounce w) order).
Proof. apply tick_facts.tick_sent. Qed.

(** X26. A file that is in the watched directory at start-up and has a
    configured extension is stamped by the start-up scan as old enough,
    so that the first tick deals with it: with Redis answering and a
    threshold above 0 (and small enough for twice the threshold to be a
    Duration) the file is sent unless it is recorded as completed with
    its present hash, and the tick takes it out of the map. A file with
    another extension is not stamped. *)
Theorem startup_file_is_sent_at_first_tick
  (cfg : Config) (t0 now : Z) (listed : list string) (order : list (string * Z))
  (wt : Watcher) (w : World) (file : string) :
  0 < StabilityThreshold cfg ->
  2 * StabilityThreshold cfg * Second <= max_int64 ->
  t0 <= now ->
  file ∈ listed ->
  order ≡ₚ map_to_list (seen (scanExistingFiles cfg t0 (Some listed) wt)) ->
  forallb negb (redis_faults w) = true ->
  let wt1 := scanExistingFiles cfg t0 (Some listed) wt in
  let st := checkStableFiles_in order cfg now (StabilityThreshold cfg * Second) (wt1, w) in
  (isAllowedExt file (VideoFileFormats cfg) = false -> seen wt1 !! file = seen wt !! file)
  /\ (isAllowedExt file (VideoFileFormats cfg) = true ->
      seen wt1 !! file = Some (t0 - 2 * StabilityThreshold cfg * Second)
      /\ seen (fst st) !! file = None
      /\ (done_with w file = false -> file ∈ fileCh (fst st))).
Proof.
  intros HT Hmax Hnow Hin Hperm Hclear. cbv zeta.
  assert (backdate cfg = - (2 * StabilityThreshold cfg * Second)) as Hback.
  { unfold backdate, Second, max_int64 in *.
    rewrite (wrap64_small (-2 * StabilityThreshold cfg)) by (unfold max_int64; lia).
    rewrite wrap64_small by (unfold max_int64; lia). lia. }
  assert (forall a, isAllowedExt file (VideoFileFormats cfg) = a ->
            seen (scanExistingFiles cfg t0 (Some listed) wt) !! file
            = if a then Some (t0 - 2 * StabilityThreshold cfg * Second)
              else seen wt !! file) as Hstamp.
  { intros a Ha. rewrite tick_facts.scanExistingFiles_stamps.
    rewrite bool_decide_eq_true_2 by done. rewrite Ha, Hback. cbn [andb].
    destruct a; [f_equal; lia|done]. }
  split; [by apply Hstamp|]. intros Ha. specialize (Hstamp _ Ha). cbv beta iota in Hstamp.
  assert ((StabilityThreshold cfg * Second
           <? now - (t0 - 2 * StabilityThreshold cfg * Second)) = true) as Hs.
  { apply Z.ltb_lt. unfold Second. lia. }
  split_and!; [done| |].
  - rewrite (tick_facts.tick_seen order cfg now _ _ w file Hperm), Hstamp. by rewrite Hs.
  - intros Hd. rewrite (tick_facts.tick_sent order cfg now _ _ w Hclear).
    apply elem_of_app. right.
    apply (tick_facts.in_filtered _ _ _ _ Hperm).
    eexists. split; [exact Hstamp|]. unfold due, candidate, stable. cbn.
    by rewrite Hs, Ha, Hd.
Qed.

(** X27. A rescan of the directory stamps as old enough the listed files
    with a configured extension that the detector has no hash of, or
    another hash than the present one, and records their hash; a file
    whose recorded hash is the present one keeps its entry as it was. So
    a second rescan of an unchanged directory changes nothing. The
    rescan itself sends no path. *)
Theorem rescan_queues_only_changed_files
  (cfg : Config) (now1 now2 : Z) (files : gmap string File) (listed : list string)
  (wt : Watcher) :
  let wt1 := rescanFiles cfg now1 files (Some listed) wt in
  (forall f, f ∈ listed -> isAllowedExt f (VideoFileFormats cfg) = true ->
     hashes wt1 !! f = Some (fileHash files f)
     /\ (hashes wt !! f <> Some (fileHash files f) ->
         seen wt1 !! f = Some (now1 + backdate cfg)))
  /\ (forall f, hashes wt !! f = Some (fileHash files f) -> seen wt1 !! f = seen wt !! f)
  /\ rescanFiles cfg now2 files (Some listed) wt1 = wt1
  /\ fileCh wt1 = fileCh wt.
Proof.
  cbv zeta. unfold rescanFiles.
  destruct (tick_facts.rescan_learns cfg now1 files listed wt) as (H1 & H2 & H3).
  split_and!.
  - intros f Hf Ha. split; [by apply H1|]. intros Hnew.
    by apply tick_facts.rescan_stamps.
  - intros f Hf. by destruct (H2 f Hf).
  - by apply tick_facts.rescan_known.
  - done.
Qed.

(** X28. Debouncing: after an event on a path at time t0, a tick at a
    time no more than the threshold later does not send the path and
    keeps its stamp; a tick later than that takes the entry out and, with
    Redis answering, sends the path when its extension is configured and
    the file is not recorded as completed with its present hash. *)
Theorem event_is_debounced
  (cfg : Config) (t0 now debounce : Z) (order : list (string * Z))
  (wt : Watcher) (w : World) (file : string) :
  order ≡ₚ map_to_list (seen (onEvent file true t0 wt)) ->
  let st := checkStableFiles_in order cfg now debounce (onEvent file true t0 wt, w) in
  exists sent,
    fileCh (fst st) = fileCh wt ++ sent
    /\ (now - t0 <= debounce -> seen (fst st) !! file = Some t0 /\ file ∉ sent)
    /\ (debounce < now - t0 ->
        seen (fst st) !! file = None
        /\ (forallb negb (redis_faults w) = true ->
            isAllowedExt file (VideoFileFormats cfg) = true ->
            done_with w file = false -> file ∈ sent)).
Proof.
  intros Hperm. cbv zeta.
  assert (seen (onEvent file true t0 wt) !! file = Some t0) as Hstamp
    by apply lookup_insert_eq.
  pose proof (tick_facts.tick_seen order cfg now debounce _ w file Hperm) as Hseen.
  rewrite Hstamp in Hseen.
  destruct (tick_facts.tick_any cfg now debounce order (onEvent file true t0 wt) w)
    as (sent & C & Hsub & _ & _ & _ & _ & _ & _ & Hsent).
  exists sent. split; [exact C|]. split.
  - intros Hyoung. destruct (Z.ltb_spec debounce (now - t0)); [lia|].
    split; [done|]. intros Hin. apply (elem_of_sublist _ _ _ Hin) in Hsub.
    apply (tick_facts.in_filtered _ _ _ _ Hperm) in Hsub as (last & Hl & Hc).
    rewrite Hstamp in Hl. injection Hl as <-.
    unfold candidate, stable in Hc. cbn in Hc.
    apply andb_true_iff in Hc as [Hc%Z.ltb_lt _]. lia.
  - intros Hold. destruct (Z.ltb_spec debounce (now - t0)); [|lia].
    split; [done|]. intros Hclear Ha Hd. rewrite (Hsent Hclear).
    apply (tick_facts.in_filtered _ _ _ _ Hperm).
    exists t0. split; [done|]. unfold due, candidate, stable. cbn [fst snd].
    by rewrite Ha, Hd, (proj2 (Z.ltb_lt _ _) Hold).
Qed.

End detector_props.

(** ** The detector and the processor together *)
Module pipeline_props.
Import app.

Section WithTimeFormat.
Variable RFC3339 : Z -> string.

(** X29. A file that a run without faults has gone through is not sent
    again: in the state that the run leaves, a tick with Redis answering
    does not send the file, whatever the detector's maps hold and in
    whatever order they are visited (the file being as it was). *)
Theorem processed_file_is_not_sent_again
  (cfg : Config) (file : string) (w : World) (f : File)
  (order : list (string * Z)) (now debounce : Z) (wt : watcher.Watcher) :
  0 < ChunkSize cfg ->
  fs w !! file = Some f ->
  len (content f) <= max_int64 ->
  all_clear w ->
  ~ (kv w !! hash_key (filepath.Base file) = Some (fileHash (fs w) file)
     /\ kv w !! redisstore.status_key (filepath.Base file) = Some "completed") ->
  exists w' sent,
    processFile RFC3339 cfg file w = Returns w'
    /\ watcher.fileCh (fst (watcher.checkStableFiles_in order cfg now debounce (wt, w')))
       = watcher.fileCh wt ++ sent
    /\ file ∉ sent.
Proof.
  intros Hsize Hf Hmax Hclear Hguard.
  destruct (resume_facts.processFile_clear RFC3339 cfg file w f Hsize Hf Hmax Hclear Hguard)
    as (w' & cs & t & Hrun & _ & _ & _ & _ & _ & _ & Hst & _ & Hh & _ & [Hclear' _] & Hfs).
  exists w'. eexists. split; [exact Hrun|].
  split; [apply tick_facts.tick_sent, Hclear'|].
  intros Hin. apply list_elem_of_fmap in Hin as ([f' last] & E & Hin).
  cbn [fst] in E. subst f'.
  apply list_elem_of_In, List.filter_In in Hin as [_ Hdue].
  assert (done_with w' file = true) as Hd.
  { unfold done_with.
    change ("file_hash:" +:+ filepath.Base file) with (hash_key (filepath.Base file)).
    change (watcher.fileHash (fs w') file) with (fileHash (fs w') file).
    rewrite Hh, Hst, Hfs. cbn [default]. by rewrite !String.eqb_refl. }
  unfold due in Hdue. cbn [fst] in Hdue. rewrite Hd in Hdue.
  by rewrite andb_false_r in Hdue.
Qed.

(** X30. Stale checkpoints hide new content: after a run without faults
    on a file, let the file be overwritten with a content of another
    hash that gives no more chunks than the first one, Redis being as the
    run left it. A second run without faults then finds the checkpoint of
    every chunk set: it makes no UploadChunk call, uploads a metadata
    object with a total size of 0 and no chunk, and sets the status
    completed. *)
Theorem stale_checkpoints_hide_new_content
  (cfg : Config) (file : string) (w : World) (f : File) (cs1 : list chunker.Chunk) :
  0 < ChunkSize cfg ->
  fs w !! file = Some f ->
  len (content f) <= max_int64 ->
  all_clear w ->
  ~ (kv w !! hash_key (filepath.Base file) = Some (fileHash (fs w) file)
     /\ kv w !! redisstore.status_key (filepath.Base file) = Some "completed") ->
  chunker.ChunkFile (fs w) (clock w) file (ChunkSize cfg) = chunker.Chunks cs1 ->
  exists w',
    processFile RFC3339 cfg file w = Returns w'
    /\ forall (w2 : World) (f2 : File) (cs2 : list chunker.Chunk),
        kv w2 = kv w' ->
        fs w2 !! file = Some f2 ->
        len (content f2) <= max_int64 ->
        all_clear w2 ->
        fileHash (fs w2) file <> fileHash (fs w) file ->
        chunker.ChunkFile (fs w2) (clock w2) file (ChunkSize cfg) = chunker.Chunks cs2 ->
        (length cs2 <= length cs1)%nat ->
        exists w3 t,
          processFile RFC3339 cfg file w2 = Returns w3
          /\ trace w3 = trace w2 ++ t
          /\ count is_upload_chunk t = 0%nat
          /\ objects w3 !! s3uploader.metadata_object (filepath.Base file)
             = Some (mkObject (json_Marshal RFC3339 (mkMetadata 0 [])) "application/json")
          /\ kv w3 !! redisstore.status_key (filepath.Base file) = Some "completed".
Proof.
  intros Hsize Hf Hmax Hclear Hguard Hcs1.
  destruct (resume_facts.processFile_clear RFC3339 cfg file w f Hsize Hf Hmax Hclear Hguard)
    as (w' & cs & t & Hrun & Hcs & _ & _ & Hm & _ & _ & _ & _ & Hh & _).
  rewrite Hcs1 in Hcs. injection Hcs as <-.
  exists w'. split; [exact Hrun|].
  intros w2 f2 cs2 Hkv Hf2 Hmax2 Hclear2 Hne Hcs2 Hlen.
  destruct (chunker_more.ChunkFile_numbered _ _ _ _ _ _ Hf Hmax Hcs1) as [_ Hidx1].
  destruct (chunker_more.ChunkFile_numbered _ _ _ _ _ _ Hf2 Hmax2 Hcs2) as [_ Hidx2].
  assert (forall c, c ∈ cs2 ->
            marked (kv w2) (filepath.Base file) (chunker.Index c) = true) as Hall.
  { intros c2 Hc2.
    assert (chunker.Index c2 ∈ seqZ 0 (len cs2)) as Hin2.
    { rewrite <- Hidx2. apply list_elem_of_fmap. by exists c2. }
    assert (chunker.Index c2 ∈ map chunker.Index cs1) as Hin1.
    { rewrite Hidx1. apply elem_of_seqZ in Hin2. apply elem_of_seqZ.
      unfold len in *. lia. }
    apply list_elem_of_fmap in Hin1 as (c1 & -> & Hc1).
    rewrite Hkv. by apply Hm. }
  assert (~ (kv w2 !! hash_key (filepath.Base file) = Some (fileHash (fs w2) file)
             /\ kv w2 !! redisstore.status_key (filepath.Base file) = Some "completed"))
    as Hguard2.
  { intros [E _]. rewrite Hkv, Hh in E. injection E as E. by destruct Hne. }
  destruct (resume_facts.processFile_nothing_left RFC3339 cfg file w2 f2 cs2
              Hsize Hf2 Hmax2 Hclear2 Hguard2 Hcs2 Hall)
    as (w3 & t3 & Hrun3 & T3 & Hn3 & Hmeta3 & _ & Hst3).
  by exists w3, t3.
Qed.

End WithTimeFormat.

End pipeline_props.

(** ** The further properties, on the scenarios *)
Module scenario_more.
Import scenario.

Lemma itoa_is_the_padded_index_witness :
  0 <= 7
  /\ (strconv.all_digits (redisstore.itoa 7) = true
      /\ strconv.value_from 0 (redisstore.itoa 7) = 7
      /\ (5 <= String.length (redisstore.itoa 7))%nat
      /\ (7 <= 99999 -> String.length (redisstore.itoa 7) = 5%nat)
      /\ s3uploader.itoa 7 = redisstore.itoa 7).
Proof.
  assert (0 <= 7) as H by lia.
  split; [exact H|]. exact (itoa_props.itoa_is_the_padded_index 7 H).
Defined.

Lemma chunk_names_are_injective_witness :
  (0 <= 1 /\ 0 <= 2)
  /\ ((redisstore.chunk_key "v.mp4" 1 = redisstore.chunk_key "v.mp4" 2 -> 1 = 2)
      /\ (s3uploader.chunk_object "v.mp4" 1 = s3uploader.chunk_object "v.mp4" 2 -> 1 = 2)).
Proof.
  assert (0 <= 1) as H1 by lia. assert (0 <= 2) as H2 by lia.
  split; [exact (conj H1 H2)|].
  exact (itoa_props.chunk_names_are_injective "v.mp4" 1 2 H1 H2).
Defined.

Lemma checkpoint_round_trip_witness :
  (0 <= 1 /\ 0 <= 1 /\ goes_through 2 (redis_faults (fresh file16 [])) = true)
  /\ (fst (redisstore.SetChunkUploaded "v.mp4" 1 (fresh file16 [])) = None
      /\ fst (redisstore.IsChunkUploaded "v.mp4" 1
                (snd (redisstore.SetChunkUploaded "v.mp4" 1 (fresh file16 []))))
         = (if decide (1 = 1) then true else marked (kv (fresh file16 [])) "v.mp4" 1, None)).
Proof.
  assert (0 <= 1) as H1 by lia.
  assert (goes_through 2 (redis_faults (fresh file16 [])) = true) as H3 by reflexivity.
  split; [exact (conj H1 (conj H1 H3))|].
  exact (redisstore_props.checkpoint_round_trip "v.mp4" 1 1 (fresh file16 []) H1 H1 H3).
Defined.

Lemma value_set_get_delete_witness :
  ("b" <> "a" /\ goes_through 4 (redis_faults (fresh file16 [])) = true)
  /\ (let w1 := snd (redisstore.SetValue "a" "x" 5 (fresh file16 [])) in
      let w2 := snd (redisstore.GetValue "a" w1) in
      let w3 := snd (redisstore.DeleteKey "a" w2) in
      fst (redisstore.SetValue "a" "x" 5 (fresh file16 [])) = None
      /\ fst (redisstore.GetValue "a" w1) = ("x", None)
      /\ fst (redisstore.DeleteKey "a" w2) = None
      /\ fst (redisstore.GetValue "a" w3) = (EmptyString, Some redis_Nil)
      /\ kv w3 !! "b" = kv (fresh file16 []) !! "b").
Proof.
  assert ("b" <> "a") as H1 by discriminate.
  assert (goes_through 4 (redis_faults (fresh file16 [])) = true) as H2 by reflexivity.
  split; [exact (conj H1 H2)|].
  exact (redisstore_props.value_set_get_delete "a" "b" "x" 5 (fresh file16 []) H1 H2).
Defined.

Lemma status_round_trip_witness :
  ("w.mp4" <> "v.mp4" /\ goes_through 3 (redis_faults (fresh file16 [])) = true)
  /\ (let w1 := snd (redisstore.SetStreamStatus "v.mp4" "completed" (fresh file16 [])) in
      let w2 := snd (redisstore.GetStreamStatus "v.mp4" w1) in
      fst (redisstore.SetStreamStatus "v.mp4" "completed" (fresh file16 [])) = None
      /\ fst (redisstore.GetStreamStatus "v.mp4" w1) = ("completed", None)
      /\ fst (fst (redisstore.GetStreamStatus "w.mp4" w2))
         = default EmptyString (kv (fresh file16 []) !! redisstore.status_key "w.mp4")).
Proof.
  assert ("w.mp4" <> "v.mp4") as H1 by discriminate.
  assert (goes_through 3 (redis_faults (fresh file16 [])) = true) as H2 by reflexivity.
  split; [exact (conj H1 H2)|].
  exact (redisstore_props.status_round_trip "v.mp4" "w.mp4" "completed" (fresh file16 [])
           H1 H2).
Defined.

Lemma progress_round_trip_witness :
  (- 2 ^ 63 <= 3 < 2 ^ 63 /\ goes_through 2 (redis_faults (fresh file16 [])) = true)
  /\ (fst (redisstore.GetStreamProgress "v.mp4"
             (snd (redisstore.SetStreamProgress "v.mp4" 3 (fresh file16 [])))) = (3, None)
      /\ (kv (fresh file16 []) !! redisstore.progress_key "v.mp4" = None ->
          fst (redisstore.GetStreamProgress "v.mp4" (fresh file16 []))
          = (0, Some (redisstore.RedisError redis_Nil)))).
Proof.
  assert (- 2 ^ 63 <= 3 < 2 ^ 63) as H1 by lia.
  assert (goes_through 2 (redis_faults (fresh file16 [])) = true) as H2 by reflexivity.
  split; [exact (conj H1 H2)|].
  exact (redisstore_props.progress_round_trip "v.mp4" 3 (fresh file16 []) H1 H2).
Defined.

Lemma status_ttl_witness :
  (0 < 1500 * Millisecond /\ goes_through 2 (redis_faults after_first_run) = true)
  /\ ((kv after_first_run !! redisstore.status_key "v.mp4" = None ->
       fst (redisstore.SetStreamTTL "v.mp4" (1500 * Millisecond) after_first_run) = None
       /\ kv (snd (redisstore.SetStreamTTL "v.mp4" (1500 * Millisecond) after_first_run))
          = kv after_first_run
       /\ expiry (snd (redisstore.SetStreamTTL "v.mp4" (1500 * Millisecond) after_first_run))
          = expiry after_first_run)
      /\ (is_Some (kv after_first_run !! redisstore.status_key "v.mp4") ->
          kv (snd (redisstore.SetStreamTTL "v.mp4" (1500 * Millisecond) after_first_run))
          = kv after_first_run
          /\ (exists secs,
               expiry (snd (redisstore.SetStreamTTL "v.mp4" (1500 * Millisecond)
                              after_first_run))
                 !! redisstore.status_key "v.mp4" = Some (secs * Second)
               /\ 1 <= secs
               /\ (1500 * Millisecond < Second -> secs = 1)
               /\ (Second <= 1500 * Millisecond ->
                   secs * Second <= 1500 * Millisecond < (secs + 1) * Second))
          /\ expiry (snd (redisstore.SetStreamStatus "v.mp4" "failed"
                            (snd (redisstore.SetStreamTTL "v.mp4" (1500 * Millisecond)
                                    after_first_run))))
               !! redisstore.status_key "v.mp4" = None)).
Proof.
  assert (0 < 1500 * Millisecond) as H1 by reflexivity.
  assert (goes_through 2 (redis_faults after_first_run) = true) as H2
    by (vm_compute; reflexivity).
  split; [exact (conj H1 H2)|].
  exact (redisstore_props.status_ttl "v.mp4" "failed" (1500 * Millisecond) after_first_run
           H1 H2).
Defined.


Lemma chunks_reassemble_the_file_witness :
  (fs (fresh file16 []) !! path = Some file16
   /\ snd (readable file16) = false
   /\ chunker.ChunkFile (fs (fresh file16 [])) clock0 path 5
      = chunker.Chunks
          [chunker.cut clock0 0 (bytes_of_string "12345");
           chunker.cut clock0 1 (bytes_of_string "67890");
           chunker.cut clock0 2 (bytes_of_string "abcde");
           chunk_f])
  /\ (concat (map chunker.Data
                [chunker.cut clock0 0 (bytes_of_string "12345");
                 chunker.cut clock0 1 (bytes_of_string "67890");
                 chunker.cut clock0 2 (bytes_of_string "abcde");
                 chunk_f]) = content file16
      /\ (content file16 = [] ->
          [chunker.cut clock0 0 (bytes_of_string "12345");
           chunker.cut clock0 1 (bytes_of_string "67890");
           chunker.cut clock0 2 (bytes_of_string "abcde");
           chunk_f] = [])).
Proof.
  assert (fs (fresh file16 []) !! path = Some file16) as H1 by (vm_compute; reflexivity).
  assert (snd (readable file16) = false) as H2 by reflexivity.
  assert (chunker.ChunkFile (fs (fresh file16 [])) clock0 path 5
          = chunker.Chunks
              [chunker.cut clock0 0 (bytes_of_string "12345");
               chunker.cut clock0 1 (bytes_of_string "67890");
               chunker.cut clock0 2 (bytes_of_string "abcde");
               chunk_f]) as H3 by (vm_compute; reflexivity).
  split; [exact (conj H1 (conj H2 H3))|].
  exact (chunker_more.chunks_reassemble_the_file (fs (fresh file16 [])) clock0 path file16 5
           _ H1 H2 H3).
Defined.

Lemma read_error_keeps_full_chunks_witness :
  (({[ path := file16_broken ]} : gmap string File) !! path = Some file16_broken
   /\ io_error_at file16_broken = Some 10%nat
   /\ (10 < length (content file16_broken))%nat
   /\ 0 < 4)
  /\ exists cs,
      chunker.ChunkFile {[ path := file16_broken ]} clock0 path 4 = chunker.Chunks cs
      /\ map (fun c => len (chunker.Data c)) cs
         = replicate (Z.to_nat (Z.of_nat 10 / 4)) 4
      /\ concat (map chunker.Data cs)
         = take (Z.to_nat (Z.of_nat 10 / 4 * 4)) (content file16_broken).
Proof.
  assert (({[ path := file16_broken ]} : gmap string File) !! path = Some file16_broken)
    as H1 by (vm_compute; reflexivity).
  assert (io_error_at file16_broken = Some 10%nat) as H2 by reflexivity.
  assert (10 < length (content file16_broken))%nat as H3 by (vm_compute; lia).
  assert (0 < 4) as H4 by lia.
  split; [exact (conj H1 (conj H2 (conj H3 H4)))|].
  exact (chunker_more.read_error_keeps_full_chunks {[ path := file16_broken ]} clock0 path
           file16_broken 4 10 H1 H2 H3 H4).
Defined.

Lemma chunks_are_bounded_and_numbered_witness :
  (fs (fresh file16 []) !! path = Some file16
   /\ len (content file16) <= max_int64
   /\ chunker.ChunkFile (fs (fresh file16 [])) clock0 path 5
      = chunker.Chunks
          [chunker.cut clock0 0 (bytes_of_string "12345");
           chunker.cut clock0 1 (bytes_of_string "67890");
           chunker.cut clock0 2 (bytes_of_string "abcde");
           chunk_f])
  /\ ((forall c,
         c ∈ [chunker.cut clock0 0 (bytes_of_string "12345");
              chunker.cut clock0 1 (bytes_of_string "67890");
              chunker.cut clock0 2 (bytes_of_string "abcde");
              chunk_f] -> 0 < len (chunker.Data c) <= 5)
      /\ map chunker.Index
           [chunker.cut clock0 0 (bytes_of_string "12345");
            chunker.cut clock0 1 (bytes_of_string "67890");
            chunker.cut clock0 2 (bytes_of_string "abcde");
            chunk_f]
         = seqZ 0 (len [chunker.cut clock0 0 (bytes_of_string "12345");
                        chunker.cut clock0 1 (bytes_of_string "67890");
                        chunker.cut clock0 2 (bytes_of_string "abcde");
                        chunk_f])).
Proof.
  assert (fs (fresh file16 []) !! path = Some file16) as H1 by (vm_compute; reflexivity).
  assert (len (content file16) <= max_int64) as H2 by (vm_compute; discriminate).
  assert (chunker.ChunkFile (fs (fresh file16 [])) clock0 path 5
          = chunker.Chunks
              [chunker.cut clock0 0 (bytes_of_string "12345");
               chunker.cut clock0 1 (bytes_of_string "67890");
               chunker.cut clock0 2 (bytes_of_string "abcde");
               chunk_f]) as H3 by (vm_compute; reflexivity).
  split; [exact (conj H1 (conj H2 H3))|].
  exact (chunker_more.chunks_are_bounded_and_numbered (fs (fresh file16 [])) clock0 path
           file16 5 _ H1 H2 H3).
Defined.

Lemma fileHash_reads_ten_mebibytes_witness :
  (10 * 1024 * 1024 <= len ten_mebibytes
   /\ long_files !! "a.mp4" = Some (mkFile (ten_mebibytes ++ [x01]) None)
   /\ long_files !! "b.mp4" = Some (mkFile (ten_mebibytes ++ [x02; x03]) None))
  /\ app.fileHash long_files "a.mp4" = app.fileHash long_files "b.mp4".
Proof.
  assert (10 * 1024 * 1024 <= len ten_mebibytes) as H1.
  { unfold len, ten_mebibytes. rewrite length_replicate, Z2Nat.id; lia. }
  assert (long_files !! "a.mp4" = Some (mkFile (ten_mebibytes ++ [x01]) None)) as H2.
  { unfold long_files. apply lookup_insert_eq. }
  assert (long_files !! "b.mp4" = Some (mkFile (ten_mebibytes ++ [x02; x03]) None)) as H3.
  { unfold long_files. rewrite lookup_insert_ne by discriminate. apply lookup_insert_eq. }
  split; [exact (conj H1 (conj H2 H3))|].
  exact (hash_props.fileHash_reads_ten_mebibytes long_files "a.mp4" "b.mp4" ten_mebibytes
           [x01] [x02; x03] H1 H2 H3).
Defined.

Lemma checkpointed_chunk_is_not_uploaded_witness :
  (0 < ChunkSize cfg4 /\ marked (kv interrupted) (filepath.Base path) 1 = true)
  /\ exists w' t,
      app.processFile unix_text cfg4 path interrupted = Returns w'
      /\ trace w' = trace interrupted ++ t
      /\ List.filter (is_upload_of (filepath.Base path) 1) t = []
      /\ marked (kv w') (filepath.Base path) 1 = true.
Proof.
  assert (0 < ChunkSize cfg4) as H1 by reflexivity.
  assert (marked (kv interrupted) (filepath.Base path) 1 = true) as H2
    by (vm_compute; reflexivity).
  split; [exact (conj H1 H2)|].
  exact (resume_props.checkpointed_chunk_is_not_uploaded unix_text cfg4 path interrupted 1
           H1 H2).
Defined.

Lemma interrupted_guard :
  ~ (kv interrupted !! app.hash_key (filepath.Base path)
     = Some (app.fileHash (fs interrupted) path)
     /\ kv interrupted !! redisstore.status_key (filepath.Base path) = Some "completed").
Proof. intros [_ H]. vm_compute in H. discriminate. Qed.

Lemma run_uploads_the_missing_chunks_witness :
  (0 < ChunkSize cfg4
   /\ fs interrupted !! path = Some file16
   /\ len (content file16) <= max_int64
   /\ all_clear interrupted
   /\ ~ (kv interrupted !! app.hash_key (filepath.Base path)
         = Some (app.fileHash (fs interrupted) path)
         /\ kv interrupted !! redisstore.status_key (filepath.Base path) = Some "completed"))
  /\ exists w' cs t,
      app.processFile unix_text cfg4 path interrupted = Returns w'
      /\ chunker.ChunkFile (fs interrupted) (clock interrupted) path (ChunkSize cfg4)
         = chunker.Chunks cs
      /\ trace w' = trace interrupted ++ t
      /\ List.filter is_upload_chunk t
         = map (uploaded_event (filepath.Base path))
             (List.filter (unmarked (kv interrupted) (filepath.Base path)) cs)
      /\ (forall c, c ∈ cs -> marked (kv w') (filepath.Base path) (chunker.Index c) = true)
      /\ (forall c, c ∈ List.filter (unmarked (kv interrupted) (filepath.Base path)) cs ->
            objects w' !! s3uploader.chunk_object (filepath.Base path) (chunker.Index c)
            = Some (mkObject (chunker.Data c) EmptyString)).
Proof.
  assert (0 < ChunkSize cfg4) as H1 by reflexivity.
  assert (fs interrupted !! path = Some file16) as H2 by (vm_compute; reflexivity).
  assert (len (content file16) <= max_int64) as H3 by (vm_compute; discriminate).
  assert (all_clear interrupted) as H4 by (split; reflexivity).
  split; [exact (conj H1 (conj H2 (conj H3 (conj H4 interrupted_guard))))|].
  exact (resume_props.run_uploads_the_missing_chunks unix_text cfg4 path interrupted file16
           H1 H2 H3 H4 interrupted_guard).
Defined.

Lemma clean_run_end_state_witness :
  (0 < ChunkSize cfg4
   /\ fs interrupted !! path = Some file16
   /\ len (content file16) <= max_int64
   /\ all_clear interrupted
   /\ ~ (kv interrupted !! app.hash_key (filepath.Base path)
         = Some (app.fileHash (fs interrupted) path)
         /\ kv interrupted !! redisstore.status_key (filepath.Base path) = Some "completed"))
  /\ exists w' cs,
      app.processFile unix_text cfg4 path interrupted = Returns w'
      /\ chunker.ChunkFile (fs interrupted) (clock interrupted) path (ChunkSize cfg4)
         = chunker.Chunks cs
      /\ kv w' !! redisstore.status_key (filepath.Base path) = Some "completed"
      /\ expiry w' !! redisstore.status_key (filepath.Base path) = Some (7 * 24 * Hour)
      /\ kv w' !! app.hash_key (filepath.Base path) = Some (app.fileHash (fs interrupted) path)
      /\ expiry w' !! app.hash_key (filepath.Base path) = Some (7 * 24 * Hour)
      /\ objects w' !! s3uploader.metadata_object (filepath.Base path)
         = Some (mkObject
                   (app.json_Marshal unix_text
                      (app.mkMetadata
                         (total_len (List.filter (unmarked (kv interrupted) (filepath.Base path)) cs))
                         (map meta_of
                            (List.filter (unmarked (kv interrupted) (filepath.Base path)) cs))))
                   "application/json").
Proof.
  assert (0 < ChunkSize cfg4) as H1 by reflexivity.
  assert (fs interrupted !! path = Some file16) as H2 by (vm_compute; reflexivity).
  assert (len (content file16) <= max_int64) as H3 by (vm_compute; discriminate).
  assert (all_clear interrupted) as H4 by (split; reflexivity).
  split; [exact (conj H1 (conj H2 (conj H3 (conj H4 interrupted_guard))))|].
  exact (resume_props.clean_run_end_state unix_text cfg4 path interrupted file16
           H1 H2 H3 H4 interrupted_guard).
Defined.

Lemma second_run_after_clean_run_witness :
  (0 < ChunkSize cfg4
   /\ fs interrupted !! path = Some file16
   /\ len (content file16) <= max_int64
   /\ all_clear interrupted
   /\ ~ (kv interrupted !! app.hash_key (filepath.Base path)
         = Some (app.fileHash (fs interrupted) path)
         /\ kv interrupted !! redisstore.status_key (filepath.Base path) = Some "completed"))
  /\ exists w' w'',
      app.processFile unix_text cfg4 path interrupted = Returns w'
      /\ app.processFile unix_text cfg4 path w' = Returns w''
      /\ trace w''
         = trace w' ++ [EvGetValue (app.hash_key (filepath.Base path))
                          (app.fileHash (fs interrupted) path) None;
                        EvGetStreamStatus (filepath.Base path) "completed" None]
      /\ kv w'' = kv w' /\ expiry w'' = expiry w' /\ objects w'' = objects w'
      /\ metrics w'' = metrics w'.
Proof.
  assert (0 < ChunkSize cfg4) as H1 by reflexivity.
  assert (fs interrupted !! path = Some file16) as H2 by (vm_compute; reflexivity).
  assert (len (content file16) <= max_int64) as H3 by (vm_compute; discriminate).
  assert (all_clear interrupted) as H4 by (split; reflexivity).
  split; [exact (conj H1 (conj H2 (conj H3 (conj H4 interrupted_guard))))|].
  exact (resume_props.second_run_after_clean_run unix_text cfg4 path interrupted file16
           H1 H2 H3 H4 interrupted_guard).
Defined.

Lemma empty_file_guard :
  ~ (kv empty_file !! app.hash_key (filepath.Base path)
     = Some (app.fileHash (fs empty_file) path)
     /\ kv empty_file !! redisstore.status_key (filepath.Base path) = Some "completed").
Proof. intros [_ H]. vm_compute in H. discriminate. Qed.

Lemma nothing_to_upload_gives_empty_metadata_witness :
  (0 < ChunkSize cfg4
   /\ fs empty_file !! path = Some (mkFile [] None)
   /\ len (content (mkFile [] None)) <= max_int64
   /\ all_clear empty_file
   /\ ~ (kv empty_file !! app.hash_key (filepath.Base path)
         = Some (app.fileHash (fs empty_file) path)
         /\ kv empty_file !! redisstore.status_key (filepath.Base path) = Some "completed")
   /\ chunker.ChunkFile (fs empty_file) (clock empty_file) path (ChunkSize cfg4)
      = chunker.Chunks []
   /\ (forall c, c ∈ @nil chunker.Chunk ->
         marked (kv empty_file) (filepath.Base path) (chunker.Index c) = true))
  /\ exists w' t,
      app.processFile unix_text cfg4 path empty_file = Returns w'
      /\ trace w' = trace empty_file ++ t
      /\ count is_upload_chunk t = 0%nat
      /\ objects w' !! s3uploader.metadata_object (filepath.Base path)
         = Some (mkObject (app.json_Marshal unix_text (app.mkMetadata 0 []))
                   "application/json")
      /\ app.json_Marshal unix_text (app.mkMetadata 0 [])
         = bytes_of_string ("{" +:+ app.quoted "total_size" +:+ ":0,"
                                +:+ app.quoted "chunks" +:+ ":null}")
      /\ kv w' !! redisstore.status_key (filepath.Base path) = Some "completed".
Proof.
  assert (0 < ChunkSize cfg4) as H1 by reflexivity.
  assert (fs empty_file !! path = Some (mkFile [] None)) as H2 by (vm_compute; reflexivity).
  assert (len (content (mkFile [] None)) <= max_int64) as H3 by (vm_compute; discriminate).
  assert (all_clear empty_file) as H4 by (split; reflexivity).
  assert (chunker.ChunkFile (fs empty_file) (clock empty_file) path (ChunkSize cfg4)
          = chunker.Chunks []) as H6 by (vm_compute; reflexivity).
  assert (forall c, c ∈ @nil chunker.Chunk ->
            marked (kv empty_file) (filepath.Base path) (chunker.Index c) = true) as H7.
  { intros c Hc. by apply elem_of_nil in Hc. }
  split; [exact (conj H1 (conj H2 (conj H3 (conj H4 (conj empty_file_guard (conj H6 H7))))))|].
  exact (resume_props.nothing_to_upload_gives_empty_metadata unix_text cfg4 path empty_file
           (mkFile [] None) [] H1 H2 H3 H4 empty_file_guard H6 H7).
Defined.

Lemma counters_follow_the_calls_witness :
  0 < ChunkSize cfg4
  /\ (exists w' t,
        app.processFile_at unix_text ∅ cfg4 path (fresh file8 [false; true]) = Returns w'
        /\ trace w' = trace (fresh file8 [false; true]) ++ t
        /\ UploadFailures (metrics w')
           = (UploadFailures (metrics (fresh file8 [false; true])) + count failed_upload t
              + (if chunker_open_failed ∅ path t then 1 else 0))%nat
        /\ RedisErrors (metrics w')
           = (RedisErrors (metrics (fresh file8 [false; true]))
              + count failed_checkpoint_call t)%nat
        /\ ChunksUploaded (metrics w')
           = (ChunksUploaded (metrics (fresh file8 [false; true])) + count is_uploaded t)%nat
        /\ FilesDetected (metrics w') = FilesDetected (metrics (fresh file8 [false; true])))
     /\ app.processFile_at unix_text (fs (fresh file8 [false; true])) cfg4 path
          (fresh file8 [false; true])
        = app.processFile unix_text cfg4 path (fresh file8 [false; true]).
Proof.
  assert (0 < ChunkSize cfg4) as H1 by reflexivity.
  split; [exact H1|].
  exact (processor_props.counters_follow_the_calls unix_text ∅ cfg4 path
           (fresh file8 [false; true]) H1).
Defined.

Lemma tick_forgets_stable_entries_witness :
  map_to_list (watcher.seen watching) ≡ₚ map_to_list (watcher.seen watching)
  /\ watcher.seen
       (fst (watcher.checkStableFiles_in (map_to_list (watcher.seen watching)) cfg4
               (10 * Second) (2 * Second) (watching, after_first_run))) !! path
     = match watcher.seen watching !! path with
       | Some last => if 2 * Second <? 10 * Second - last then None else Some last
       | None => None
       end.
Proof.
  assert (map_to_list (watcher.seen watching) ≡ₚ map_to_list (watcher.seen watching)) as H
    by reflexivity.
  split; [exact H|].
  exact (detector_props.tick_forgets_stable_entries (map_to_list (watcher.seen watching))
           cfg4 (10 * Second) (2 * Second) watching after_first_run path H).
Defined.

Lemma tick_sends_the_due_files_witness :
  forallb negb (redis_faults (fresh file16 [])) = true
  /\ watcher.fileCh
       (fst (watcher.checkStableFiles_in [(path, 0)] cfg4 (10 * Second) (2 * Second)
               (watching, fresh file16 [])))
     = watcher.fileCh watching
       ++ map fst (List.filter (due cfg4 (10 * Second) (2 * Second) (fresh file16 []))
                     [(path, 0)]).
Proof.
  assert (forallb negb (redis_faults (fresh file16 [])) = true) as H by reflexivity.
  split; [exact H|].
  exact (detector_props.tick_sends_the_due_files [(path, 0)] cfg4 (10 * Second)
           (2 * Second) watching (fresh file16 []) H).
Defined.

Lemma startup_file_is_sent_at_first_tick_witness :
  (0 < StabilityThreshold cfg4
   /\ 2 * StabilityThreshold cfg4 * Second <= max_int64
   /\ 0 <= 1 * Second
   /\ path ∈ [path]
   /\ map_to_list (watcher.seen (watcher.scanExistingFiles cfg4 0 (Some [path]) idle))
      ≡ₚ map_to_list (watcher.seen (watcher.scanExistingFiles cfg4 0 (Some [path]) idle))
   /\ forallb negb (redis_faults (fresh file16 [])) = true)
  /\ (let wt1 := watcher.scanExistingFiles cfg4 0 (Some [path]) idle in
      let st :=
        watcher.checkStableFiles_in
          (map_to_list (watcher.seen (watcher.scanExistingFiles cfg4 0 (Some [path]) idle)))
          cfg4 (1 * Second) (StabilityThreshold cfg4 * Second) (wt1, fresh file16 []) in
      (watcher.isAllowedExt path (VideoFileFormats cfg4) = false ->
       watcher.seen wt1 !! path = watcher.seen idle !! path)
      /\ (watcher.isAllowedExt path (VideoFileFormats cfg4) = true ->
          watcher.seen wt1 !! path = Some (0 - 2 * StabilityThreshold cfg4 * Second)
          /\ watcher.seen (fst st) !! path = None
          /\ (done_with (fresh file16 []) path = false -> path ∈ watcher.fileCh (fst st)))).
Proof.
  assert (0 < StabilityThreshold cfg4) as H1 by reflexivity.
  assert (2 * StabilityThreshold cfg4 * Second <= max_int64) as H1'
    by (vm_compute; discriminate).
  assert (0 <= 1 * Second) as H2 by (vm_compute; discriminate).
  assert (path ∈ [path]) as H3 by apply list_elem_of_here.
  assert (map_to_list (watcher.seen (watcher.scanExistingFiles cfg4 0 (Some [path]) idle))
          ≡ₚ map_to_list (watcher.seen (watcher.scanExistingFiles cfg4 0 (Some [path]) idle)))
    as H4 by reflexivity.
  assert (forallb negb (redis_faults (fresh file16 [])) = true) as H5 by reflexivity.
  split; [exact (conj H1 (conj H1' (conj H2 (conj H3 (conj H4 H5)))))|].
  exact (detector_props.startup_file_is_sent_at_first_tick cfg4 0 (1 * Second) [path]
           (map_to_list (watcher.seen (watcher.scanExistingFiles cfg4 0 (Some [path]) idle)))
           idle (fresh file16 []) path H1 H1' H2 H3 H4 H5).
Defined.

Lemma event_is_debounced_witness :
  map_to_list (watcher.seen (watcher.onEvent path true 0 idle))
  ≡ₚ map_to_list (watcher.seen (watcher.onEvent path true 0 idle))
  /\ (let st :=
        watcher.checkStableFiles_in
          (map_to_list (watcher.seen (watcher.onEvent path true 0 idle)))
          cfg4 (10 * Second) (2 * Second)
          (watcher.onEvent path true 0 idle, fresh file16 []) in
      exists sent,
        watcher.fileCh (fst st) = watcher.fileCh idle ++ sent
        /\ (10 * Second - 0 <= 2 * Second ->
            watcher.seen (fst st) !! path = Some 0 /\ path ∉ sent)
        /\ (2 * Second < 10 * Second - 0 ->
            watcher.seen (fst st) !! path = None
            /\ (forallb negb (redis_faults (fresh file16 [])) = true ->
                watcher.isAllowedExt path (VideoFileFormats cfg4) = true ->
                done_with (fresh file16 []) path = false -> path ∈ sent))).
Proof.
  assert (map_to_list (watcher.seen (watcher.onEvent path true 0 idle))
          ≡ₚ map_to_list (watcher.seen (watcher.onEvent path true 0 idle))) as H
    by reflexivity.
  split; [exact H|].
  exact (detector_props.event_is_debounced cfg4 0 (10 * Second) (2 * Second)
           (map_to_list (watcher.seen (watcher.onEvent path true 0 idle)))
           idle (fresh file16 []) path H).
Defined.

Lemma processed_file_is_not_sent_again_witness :
  (0 < ChunkSize cfg4
   /\ fs interrupted !! path = Some file16
   /\ len (content file16) <= max_int64
   /\ all_clear interrupted
   /\ ~ (kv interrupted !! app.hash_key (filepath.Base path)
         = Some (app.fileHash (fs interrupted) path)
         /\ kv interrupted !! redisstore.status_key (filepath.Base path) = Some "completed"))
  /\ exists w' sent,
      app.processFile unix_text cfg4 path interrupted = Returns w'
      /\ watcher.fileCh
           (fst (watcher.checkStableFiles_in [(path, 0)] cfg4 (10 * Second) (2 * Second)
                   (watching, w')))
         = watcher.fileCh watching ++ sent
      /\ path ∉ sent.
Proof.
  assert (0 < ChunkSize cfg4) as H1 by reflexivity.
  assert (fs interrupted !! path = Some file16) as H2 by (vm_compute; reflexivity).
  assert (len (content file16) <= max_int64) as H3 by (vm_compute; discriminate).
  assert (all_clear interrupted) as H4 by (split; reflexivity).
  split; [exact (conj H1 (conj H2 (conj H3 (conj H4 interrupted_guard))))|].
  exact (pipeline_props.processed_file_is_not_sent_again unix_text cfg4 path interrupted
           file16 [(path, 0)] (10 * Second) (2 * Second) watching
           H1 H2 H3 H4 interrupted_guard).
Defined.

Lemma fresh_guard :
  ~ (kv (fresh file16 []) !! app.hash_key (filepath.Base path)
     = Some (app.fileHash (fs (fresh file16 [])) path)
     /\ kv (fresh file16 []) !! redisstore.status_key (filepath.Base path) = Some "completed").
Proof. intros [_ H]. vm_compute in H. discriminate. Qed.

Lemma stale_checkpoints_hide_new_content_witness :
  (0 < ChunkSize cfg4
   /\ fs (fresh file16 []) !! path = Some file16
   /\ len (content file16) <= max_int64
   /\ all_clear (fresh file16 [])
   /\ ~ (kv (fresh file16 []) !! app.hash_key (filepath.Base path)
         = Some (app.fileHash (fs (fresh file16 [])) path)
         /\ kv (fresh file16 []) !! redisstore.status_key (filepath.Base path)
            = Some "completed")
   /\ chunker.ChunkFile (fs (fresh file16 [])) (clock (fresh file16 [])) path
        (ChunkSize cfg4)
      = chunker.Chunks
          [chunker.cut clock0 0 (bytes_of_string "1234");
           chunker.cut clock0 1 (bytes_of_string "5678");
           chunker.cut clock0 2 (bytes_of_string "90ab");
           chunker.cut clock0 3 (bytes_of_string "cdef")])
  /\ exists w',
      app.processFile unix_text cfg4 path (fresh file16 []) = Returns w'
      /\ forall (w2 : World) (f2 : File) (cs2 : list chunker.Chunk),
          kv w2 = kv w' ->
          fs w2 !! path = Some f2 ->
          len (content f2) <= max_int64 ->
          all_clear w2 ->
          app.fileHash (fs w2) path <> app.fileHash (fs (fresh file16 [])) path ->
          chunker.ChunkFile (fs w2) (clock w2) path (ChunkSize cfg4) = chunker.Chunks cs2 ->
          (length cs2
           <= length [chunker.cut clock0 0 (bytes_of_string "1234");
                      chunker.cut clock0 1 (bytes_of_string "5678");
                      chunker.cut clock0 2 (bytes_of_string "90ab");
                      chunker.cut clock0 3 (bytes_of_string "cdef")])%nat ->
          exists w3 t,
            app.processFile unix_text cfg4 path w2 = Returns w3
            /\ trace w3 = trace w2 ++ t
            /\ count is_upload_chunk t = 0%nat
            /\ objects w3 !! s3uploader.metadata_object (filepath.Base path)
               = Some (mkObject (app.json_Marshal unix_text (app.mkMetadata 0 []))
                         "application/json")
            /\ kv w3 !! redisstore.status_key (filepath.Base path) = Some "completed".
Proof.
  assert (0 < ChunkSize cfg4) as H1 by reflexivity.
  assert (fs (fresh file16 []) !! path = Some file16) as H2 by (vm_compute; reflexivity).
  assert (len (content file16) <= max_int64) as H3 by (vm_compute; discriminate).
  assert (all_clear (fresh file16 [])) as H4 by (split; reflexivity).
  assert (chunker.ChunkFile (fs (fresh file16 [])) (clock (fresh file16 [])) path
            (ChunkSize cfg4)
          = chunker.Chunks
              [chunker.cut clock0 0 (bytes_of_string "1234");
               chunker.cut clock0 1 (bytes_of_string "5678");
               chunker.cut clock0 2 (bytes_of_string "90ab");
               chunker.cut clock0 3 (bytes_of_string "cdef")]) as H6
    by (vm_compute; reflexivity).
  split; [exact (conj H1 (conj H2 (conj H3 (conj H4 (conj fresh_guard H6)))))|].
  exact (pipeline_props.stale_checkpoints_hide_new_content unix_text cfg4 path
           (fresh file16 []) file16 _ H1 H2 H3 H4 fresh_guard H6).
Defined.

End scenario_more.
